(** * virtualenv_tools: relocating a POSIX virtualenv

    A shallow embedding of [virtualenv_tools.py] and the properties of its
    path-rewriting engine: the two script rewriters, the bytecode
    invalidator, the [local/] link-farm normalizer, the orchestrator
    [update_paths] and the argument and environment construction of
    [reinitialize_virtualenv].

    The functions keep their names.  A file holds bytes; [open] in text
    mode decodes them, hands CR LF and CR over as LF, and encodes what is
    written.  The file system is a tree of files, directories and symbolic
    links, each link with what it leads to; printing and every change to
    the file system are recorded in a trace; an uncaught exception ends a
    computation.  The default encoding of the host is a parameter
    ([default]), and so is what the spawned [virtualenv] process makes of
    the tree.  The module is for POSIX only: a line feed is written as it
    is. *)

From Stdlib Require Import List Ascii String ZArith Lia Bool Arith.
From Stdlib.Strings Require Import Byte.
From stdpp Require Import gmap strings.
Import ListNotations.
Open Scope list_scope.

(** ** Text

    A Python [str] is a list of characters.  Characters are the code points
    U+0000..U+00FF: this is exactly what [open(..., encoding='latin-1')]
    delivers in [update_script]; names, paths and the text of the
    activation scripts are modelled over the same alphabet. *)

Definition str := list ascii.

Definition lit (s : string) : str := list_ascii_of_string s.

Definition nl : ascii := "010"%char.
Definition dquote : ascii := "034"%char.
Definition space : ascii := " "%char.
Definition slash : ascii := "/"%char.

Definition str_eqb (a b : str) : bool := bool_decide (a = b).

(** [str.isspace] on one character, which is also what [\s] matches in a
    [str] pattern: TAB LF VT FF CR, FS GS RS US, SPACE, NEL and NBSP. *)
Definition isspace (c : ascii) : bool :=
  let n := nat_of_ascii c in
  ((9 <=? n) && (n <=? 13)) || ((28 <=? n) && (n <=? 32))
  || (n =? 133) || (n =? 160).

(** [\d] below U+0100: the ASCII digits. *)
Definition isdigit (c : ascii) : bool :=
  let n := nat_of_ascii c in (48 <=? n) && (n <=? 57).

(** [.] without DOTALL: anything but LF. *)
Definition dot (c : ascii) : bool := negb (Ascii.eqb c nl).

Fixpoint startswith (s p : str) : bool :=
  match p, s with
  | [], _ => true
  | x :: p', y :: s' => Ascii.eqb x y && startswith s' p'
  | _ :: _, [] => false
  end.

Definition endswith (s p : str) : bool := startswith (rev s) (rev p).

(** [sub in s] for strings. *)
Fixpoint contains (s sub : str) : bool :=
  startswith s sub ||
  match s with
  | [] => false
  | _ :: s' => contains s' sub
  end.

Fixpoint lstrip (s : str) : str :=
  match s with
  | c :: s' => if isspace c then lstrip s' else s
  | [] => []
  end.

Definition rstrip (s : str) : str := rev (lstrip (rev s)).

(** [s.strip()] *)
Definition str_strip (s : str) : str := rstrip (lstrip s).

Definition push_word (w : str) (ws : list str) : list str :=
  match w with
  | [] => ws
  | _ :: _ => w :: ws
  end.

(** One right-to-left pass of [s.split()]: the word that is still open at
    the head of [s], and the words completed after it. *)
Fixpoint words (s : str) : str * list str :=
  match s with
  | [] => ([], [])
  | c :: s' =>
      let (w, ws) := words s' in
      if isspace c then ([], push_word w ws) else (c :: w, ws)
  end.

(** [s.split()]: the maximal runs of non-whitespace characters. *)
Definition str_split (s : str) : list str :=
  let (w, ws) := words s in push_word w ws.

(** [sep.join(parts)] *)
Fixpoint str_join (sep : str) (parts : list str) : str :=
  match parts with
  | [] => []
  | [p] => p
  | p :: ps => p ++ sep ++ str_join sep ps
  end.

(** [list(f)] on the text of a file, which [open] hands over with every
    line end as LF: the lines, each keeping its LF. *)
Fixpoint readlines (s : str) : list str :=
  match s with
  | [] => []
  | c :: s' =>
      if Ascii.eqb c nl then [c] :: readlines s'
      else match readlines s' with
           | [] => [[c]]
           | l :: ls => (c :: l) :: ls
           end
  end.

(** [f.writelines(lines)] *)
Definition writelines (lines : list str) : str := concat lines.

(** Python slices [text[:i]] and [text[i:]], negative indices counting from
    the end and out-of-range indices clipped. *)
Definition slice_to (text : str) (i : Z) : str :=
  let n := Z.of_nat (length text) in
  firstn (Z.to_nat (if (i <? 0)%Z then Z.max 0 (n + i) else i)) text.

Definition slice_from (text : str) (i : Z) : str :=
  let n := Z.of_nat (length text) in
  skipn (Z.to_nat (if (i <? 0)%Z then Z.max 0 (n + i) else i)) text.

(** [posixpath.join(a, b)] and its variadic form. *)
Definition path_join2 (a b : str) : str :=
  if startswith b [slash] then b
  else if str_eqb a [] || endswith a [slash] then a ++ b
  else a ++ [slash] ++ b.

Definition path_join (a : str) (ps : list str) : str :=
  fold_left path_join2 ps a.

(** [posixpath.isabs] *)
Definition isabs (p : str) : bool := startswith p [slash].

(** ** Bytes and encodings

    [open] in text mode stands between the bytes of a file and the text
    the program sees.  Two encodings occur: Latin-1, which [update_script]
    asks for when it reads, and the default encoding of the host, UTF-8 or
    Latin-1.  Both are strict.  Decoding UTF-8 can meet a character above
    U+00FF, which the model of text does not hold. *)

Definition bytes := list byte.

Definition blit (s : string) : bytes := list_byte_of_string s.

Inductive encoding : Type := utf_8 | latin_1.

Inductive decoding : Type :=
| Decoded (text : str)
| Undecodable
| Beyond.

Definition code (b : byte) : N := N_of_ascii (ascii_of_byte b).

Definition byte_of_code (n : N) : byte := byte_of_ascii (ascii_of_N n).

Definition in_range (lo hi : N) (b : byte) : bool :=
  ((lo <=? code b) && (code b <=? hi))%N.

(** A continuation byte, [10xxxxxx]. *)
Definition continuation (b : byte) : bool := in_range 0x80 0xBF b.

Definition push (c : ascii) (d : decoding) : decoding :=
  match d with
  | Decoded text => Decoded (c :: text)
  | _ => d
  end.

(** A well-formed sequence for a character above U+00FF. *)
Definition beyond (d : decoding) : decoding :=
  match d with
  | Undecodable => Undecodable
  | _ => Beyond
  end.

(** The second byte that may follow the lead byte of a sequence of three
    or of four bytes: no overlong form, no surrogate, nothing above
    U+10FFFF. *)
Definition three_bytes (b0 b1 : byte) : bool :=
  (in_range 0xE0 0xE0 b0 && in_range 0xA0 0xBF b1)
  || (in_range 0xE1 0xEC b0 && continuation b1)
  || (in_range 0xED 0xED b0 && in_range 0x80 0x9F b1)
  || (in_range 0xEE 0xEF b0 && continuation b1).

Definition four_bytes (b0 b1 : byte) : bool :=
  (in_range 0xF0 0xF0 b0 && in_range 0x90 0xBF b1)
  || (in_range 0xF1 0xF3 b0 && continuation b1)
  || (in_range 0xF4 0xF4 b0 && in_range 0x80 0x8F b1).

(** [bytes.decode('utf-8')]: an ill-formed sequence anywhere makes the
    whole text undecodable. *)
Fixpoint decode_utf_8 (b : bytes) : decoding :=
  match b with
  | [] => Decoded []
  | b0 :: r0 =>
      if (code b0 <? 0x80)%N then push (ascii_of_byte b0) (decode_utf_8 r0)
      else
        match r0 with
        | [] => Undecodable
        | b1 :: r1 =>
            if in_range 0xC2 0xC3 b0 && continuation b1 then
              push (ascii_of_N ((code b0 - 0xC0) * 64 + (code b1 - 0x80))%N)
                   (decode_utf_8 r1)
            else if in_range 0xC4 0xDF b0 && continuation b1 then
              beyond (decode_utf_8 r1)
            else
              match r1 with
              | [] => Undecodable
              | b2 :: r2 =>
                  if three_bytes b0 b1 && continuation b2 then
                    beyond (decode_utf_8 r2)
                  else
                    match r2 with
                    | [] => Undecodable
                    | b3 :: r3 =>
                        if four_bytes b0 b1 && continuation b2
                           && continuation b3
                        then beyond (decode_utf_8 r3)
                        else Undecodable
                    end
              end
        end
  end.

(** [bytes.decode(encoding)] *)
Definition decode (enc : encoding) (b : bytes) : decoding :=
  match enc with
  | utf_8 => decode_utf_8 b
  | latin_1 => Decoded (map ascii_of_byte b)
  end.

Definition encode_char (enc : encoding) (c : ascii) : bytes :=
  match enc with
  | latin_1 => [byte_of_ascii c]
  | utf_8 =>
      let n := N_of_ascii c in
      if (n <? 0x80)%N then [byte_of_ascii c]
      else [byte_of_code (0xC0 + n / 64); byte_of_code (0x80 + n mod 64)]
  end.

(** [str.encode(encoding)], which cannot fail on this alphabet. *)
Definition encode (enc : encoding) (text : str) : bytes :=
  flat_map (encode_char enc) text.

Definition cr : ascii := "013"%char.

(** Universal newlines ([newline=None]) on reading: CR LF and a CR by
    itself come out as LF. *)
Fixpoint universal_newlines (text : str) : str :=
  match text with
  | [] => []
  | c :: text' =>
      if Ascii.eqb c cr then
        match text' with
        | d :: text'' =>
            if Ascii.eqb d nl then nl :: universal_newlines text''
            else nl :: universal_newlines text'
        | [] => [nl]
        end
      else c :: universal_newlines text'
  end.

(** ** Regular expressions

    The fragment of [re] that the two patterns of the module use, with
    Python's backtracking order: alternatives left to right, a greedy
    repetition longest first, a lazy one shortest first.  Repetition is
    over one character class, which is all the patterns need.  Only one
    capture group occurs, so a match records one optional span. *)

Inductive regex : Type :=
| Eps
| Chr (c : ascii)
| Cls (p : ascii -> bool)
| Bol
| Eol
| Seq (r1 r2 : regex)
| Alt (r1 r2 : regex)
| Star (greedy : bool) (p : ascii -> bool)
| Group (r : regex).

Definition span := (nat * nat)%type.
Definition outcome := (nat * option span)%type.
Definition cont := nat -> str -> option span -> option outcome.

Fixpoint star_greedy (p : ascii -> bool) (k : cont)
    (pos : nat) (s : str) (g : option span) : option outcome :=
  match s with
  | c :: s' =>
      if p c then
        match star_greedy p k (S pos) s' g with
        | Some r => Some r
        | None => k pos s g
        end
      else k pos s g
  | [] => k pos s g
  end.

Fixpoint star_lazy (p : ascii -> bool) (k : cont)
    (pos : nat) (s : str) (g : option span) : option outcome :=
  match k pos s g with
  | Some r => Some r
  | None =>
      match s with
      | c :: s' => if p c then star_lazy p k (S pos) s' g else None
      | [] => None
      end
  end.

(** [rmatch r k pos s g]: match [r] against [s], which starts at offset
    [pos] of the subject, then continue with [k].  [^] holds at offset 0
    only and [$] at the end or before a final LF (no MULTILINE). *)
Fixpoint rmatch (r : regex) (k : cont)
    (pos : nat) (s : str) (g : option span) : option outcome :=
  match r with
  | Eps => k pos s g
  | Chr c =>
      match s with
      | x :: s' => if Ascii.eqb x c then k (S pos) s' g else None
      | [] => None
      end
  | Cls p =>
      match s with
      | x :: s' => if p x then k (S pos) s' g else None
      | [] => None
      end
  | Bol => if pos =? 0 then k pos s g else None
  | Eol =>
      match s with
      | [] => k pos s g
      | [x] => if Ascii.eqb x nl then k pos s g else None
      | _ => None
      end
  | Seq r1 r2 => rmatch r1 (fun pos' s' g' => rmatch r2 k pos' s' g') pos s g
  | Alt r1 r2 =>
      match rmatch r1 k pos s g with
      | Some o => Some o
      | None => rmatch r2 k pos s g
      end
  | Star true p => star_greedy p k pos s g
  | Star false p => star_lazy p k pos s g
  | Group r1 => rmatch r1 (fun pos' s' _ => k pos' s' (Some (pos, pos'))) pos s g
  end.

Definition accept : cont := fun pos _ g => Some (pos, g).

(** The pattern tried at offset [pos], [s] being the subject from there. *)
Definition match_at (r : regex) (pos : nat) (s : str) : option outcome :=
  rmatch r accept pos s None.

(** A literal string as a pattern. *)
Fixpoint Lit (s : str) : regex :=
  match s with
  | [] => Eps
  | c :: s' => Seq (Chr c) (Lit s')
  end.

Definition one_of (cs : str) (c : ascii) : bool :=
  existsb (Ascii.eqb c) cs.

(** A match object: the subject, the span of the match, and group 1. *)
Record Match : Type := mkMatch {
  m_string : str;
  m_span : span;
  m_span1 : option span
}.

(** [match.group()] *)
Definition m_group (m : Match) : str :=
  let (b, e) := m_span m in firstn (e - b) (skipn b (m_string m)).

(** [match.span(1)], which is [(-1, -1)] for a group that took no part. *)
Definition m_span_1 (m : Match) : Z * Z :=
  match m_span1 m with
  | Some (b, e) => (Z.of_nat b, Z.of_nat e)
  | None => ((-1)%Z, (-1)%Z)
  end.

(** [pattern.match(s)] as a truth value. *)
Definition re_match (r : regex) (s : str) : bool :=
  match match_at r 0 s with
  | Some _ => true
  | None => false
  end.

(** [pattern.sub(repl, s)] with a callable [repl]: the subject is scanned
    left to right, the pattern is tried at every offset that no earlier
    match covers, and each match is replaced by [repl match].  [skip]
    counts the characters of the last match still to pass over.  (The scan
    is that of [re] for matches that are not empty; neither pattern below
    can match the empty string.) *)
Fixpoint sub_scan (r : regex) (repl : Match -> str) (subject : str)
    (pos : nat) (rest : str) (skip : nat) : str :=
  match rest with
  | [] =>
      match skip, match_at r pos [] with
      | 0, Some (e, g) => repl (mkMatch subject (pos, e) g)
      | _, _ => []
      end
  | c :: rest' =>
      match skip with
      | S n => sub_scan r repl subject (S pos) rest' n
      | 0 =>
          match match_at r pos rest with
          | Some (e, g) =>
              repl (mkMatch subject (pos, e) g) ++
              (if pos <? e
               then sub_scan r repl subject (S pos) rest' (e - pos - 1)
               else c :: sub_scan r repl subject (S pos) rest' 0)
          | None => c :: sub_scan r repl subject (S pos) rest' 0
          end
      end
  end.

Definition re_sub (r : regex) (repl : Match -> str) (s : str) : str :=
  sub_scan r repl s 0 s 0.

(** ** Module constants *)

Definition ACTIVATION_SCRIPTS : list str :=
  [lit "activate"; lit "activate.csh"; lit "activate.fish"].

(** [^python\d+\.\d+$] *)
Definition _pybin_match : regex :=
  Seq Bol
  (Seq (Lit (lit "python"))
  (Seq (Cls isdigit) (Seq (Star true isdigit)
  (Seq (Chr ".")
  (Seq (Cls isdigit) (Seq (Star true isdigit)
   Eol)))))).

(** [^(?:set -gx |setenv |)VIRTUAL_ENV[ =]"(.*?)"\s*$] *)
Definition _activation_path_re : regex :=
  Seq Bol
  (Seq (Alt (Lit (lit "set -gx ")) (Alt (Lit (lit "setenv ")) Eps))
  (Seq (Lit (lit "VIRTUAL_ENV"))
  (Seq (Cls (one_of (lit " =")))
  (Seq (Chr dquote)
  (Seq (Group (Star false dot))
  (Seq (Chr dquote)
  (Seq (Star true isspace)
   Eol))))))).

(** ** Effects

    What the program does to the outside world is recorded as a trace of
    events, in order: lines printed on standard output, files opened for
    writing, directory entries removed, symbolic links created, and the
    child process spawned.  A computation yields its trace and a value,
    or the exception that ended it. *)

Inductive event : Type :=
| Print (line : str)
| Write (path : str)
| Remove (path : str)
| Symlink (target path : str)
| Popen (args : list str) (env : gmap str str).

Inductive exn : Type :=
| IsADirectoryError
| NotADirectoryError
| FileNotFoundError
| UnicodeDecodeError.

(** [Unmodelled]: the run has read a character above U+00FF and goes on
    outside the model; nothing is said about it from there. *)
Inductive result (A : Type) : Type :=
| Ok (a : A)
| Raise (e : exn)
| Unmodelled.

Arguments Ok {A} a.
Arguments Raise {A} e.
Arguments Unmodelled {A}.

Definition M (A : Type) : Type := (list event * result A)%type.

Definition ret {A} (a : A) : M A := ([], Ok a).

Definition bind {A B} (m : M A) (k : A -> M B) : M B :=
  match m with
  | (t, Ok a) => let (t', r) := k a in (t ++ t', r)
  | (t, Raise e) => (t, Raise e)
  | (t, Unmodelled) => (t, Unmodelled)
  end.

Definition emit (e : event) : M unit := ([e], Ok tt).
Definition raise {A} (e : exn) : M A := ([], Raise e).

Declare Scope prog_scope.
Delimit Scope prog_scope with prog.
Notation "'let*' x ':=' m 'in' k" := (bind m (fun x => k))
  (at level 10, x name, m at level 200, k at level 200) : prog_scope.
Open Scope prog_scope.

Fixpoint mapM {A B} (f : A -> M B) (l : list A) : M (list B) :=
  match l with
  | [] => ret []
  | a :: l' => let* b := f a in let* bs := mapM f l' in ret (b :: bs)
  end.

(** [print(s)] *)
Definition print (s : str) : M unit := emit (Print s).

(** ** The file system

    The environment is a tree.  A regular file holds its bytes.  A
    symbolic link records its target string and what the path resolves to
    through it ([None] for a dangling link), so that [isdir], [isfile],
    [open] and [listdir] can follow links as the system calls do.  Each
    link has its own record: the tree says what every path leads to, not
    which paths lead to one and the same file.  Directory entries are kept
    in listing order. *)

#[local] Unset Elimination Schemes.
Inductive node : Type :=
| File (content : bytes)
| Dir (entries : list (str * node))
| Link (target : str) (dest : option node).
#[local] Set Elimination Schemes.

Definition entries := list (str * node).

Fixpoint follow (n : node) : option node :=
  match n with
  | Link _ (Some d) => follow d
  | Link _ None => None
  | _ => Some n
  end.

(** [os.path.isdir], [os.path.isfile], [os.path.islink] on an entry. *)
Definition isdir (n : node) : bool :=
  match follow n with Some (Dir _) => true | _ => false end.

Definition isfile (n : node) : bool :=
  match follow n with Some (File _) => true | _ => false end.

Definition islink (n : node) : bool :=
  match n with Link _ _ => true | _ => false end.

(** [isdir] and [isfile] on a path that may not exist. *)
Definition isdir_at (o : option node) : bool :=
  match o with Some n => isdir n | None => false end.

Definition isfile_at (o : option node) : bool :=
  match o with Some n => isfile n | None => false end.

(** The entry called [name] in a directory. *)
Fixpoint entry (name : str) (es : entries) : option node :=
  match es with
  | [] => None
  | (fn, n) :: es' => if str_eqb fn name then Some n else entry name es'
  end.

(** [os.listdir] of the directory a node resolves to. *)
Definition dir_entries (n : node) : entries :=
  match follow n with Some (Dir es) => es | _ => [] end.

Definition listdir (n : node) : list str := map fst (dir_entries n).

(** The text [open(path, encoding=enc)] hands over: the bytes decoded,
    with universal newlines. *)
Definition read_text (enc : encoding) (content : bytes) : M str :=
  match decode enc content with
  | Decoded text => ret (universal_newlines text)
  | Undecodable => raise UnicodeDecodeError
  | Beyond => ([], Unmodelled)
  end.

(** Reading a whole text file through [open(path, encoding=enc)]. *)
Definition open_read (enc : encoding) (n : node) : M str :=
  match follow n with
  | Some (File c) => read_text enc c
  | Some _ => raise IsADirectoryError
  | None => raise FileNotFoundError
  end.

(** The node after [open(path, 'w')] and writing the bytes [c], links
    followed. *)
Fixpoint written (c : bytes) (n : node) : node :=
  match n with
  | File _ => File c
  | Link t (Some d) => Link t (Some (written c d))
  | _ => n
  end.

(** [open(path, 'w', encoding=enc)] and [writelines]: the text goes to
    the file encoded, its line feeds as they are. *)
Definition open_write (path : str) (enc : encoding) (text : str) (n : node)
    : M node :=
  let* _ := emit (Write path) in ret (written (encode enc text) n).

(** Run [f] on the directory a node resolves to. *)
Fixpoint in_dir (f : entries -> M entries) (n : node) : M node :=
  match n with
  | Dir es => let* es' := f es in ret (Dir es')
  | Link t (Some d) => let* d' := in_dir f d in ret (Link t (Some d'))
  | _ => ret n
  end.

(** Run [f] on the entry called [name] of a directory. *)
Fixpoint at_entry (name : str) (f : node -> M node) (es : entries)
    : M entries :=
  match es with
  | [] => ret []
  | (fn, n) :: es' =>
      if str_eqb fn name then let* n' := f n in ret ((fn, n') :: es')
      else let* es'' := at_entry name f es' in ret ((fn, n) :: es'')
  end.

(** [os.remove(dir/name)] and [os.symlink(target, dir/name)] on the
    entries of [dir]; a new entry is listed last. *)
Definition unlink (name : str) (es : entries) : entries :=
  List.filter (fun e => negb (str_eqb (fst e) name)) es.

Definition add_entry (name : str) (n : node) (es : entries) : entries :=
  es ++ [(name, n)].

(** ** The script rewriters *)

Definition _handle_sub (new_path : str) (m : Match) : str :=
  let text := m_group m in
  let '(start, end_) := m_span m in
  let '(g_start, g_end) := m_span_1 m in
  slice_to text (g_start - Z.of_nat start) ++ new_path ++
  slice_from text (g_end - Z.of_nat end_).

(** The loop over [enumerate(lines)]: the lines after the pass, and the
    [changed] flag. *)
Fixpoint rewrite_lines (new_path : str) (lines : list str)
    : list str * bool :=
  match lines with
  | [] => ([], false)
  | line :: rest =>
      let new_line := re_sub _activation_path_re (_handle_sub new_path) line in
      let (rest', changed) := rewrite_lines new_path rest in
      if str_eqb line new_line then (line :: rest', changed)
      else (new_line :: rest', true)
  end.

(** Updates the paths for the activate shell scripts.  The file is read
    and written in the default encoding. *)
Definition update_activation_script (default : encoding)
    (script_filename new_path : str) (f : node) : M node :=
  let* content := open_read default f in
  let (lines, changed) := rewrite_lines new_path (readlines content) in
  if changed then
    let* _ := print (lit "A " ++ script_filename) in
    open_write script_filename default (writelines lines) f
  else ret f.

(** Updates shebang lines for actual scripts.  The file is read as
    Latin-1 and written in the default encoding. *)
Definition update_script (default : encoding)
    (script_filename new_path : str) (f : node) : M node :=
  let* content := open_read latin_1 f in
  match readlines content with
  | [] => ret f
  | line0 :: rest =>
      if negb (startswith line0 (lit "#!")) then ret f else
      match str_split (str_strip (skipn 2 line0)) with
      | [] => ret f
      | arg0 :: args =>
          if negb (endswith arg0 (lit "/bin/python"))
             || contains arg0 (lit "/usr/bin/env python")
          then ret f else
          let new_bin := path_join new_path [lit "bin"; lit "python"] in
          if str_eqb new_bin arg0 then ret f else
          let line0' := lit "#!" ++ str_join [space] (new_bin :: args) ++ [nl] in
          let* _ := print (lit "S " ++ script_filename) in
          open_write script_filename default (writelines (line0' :: rest)) f
      end
  end.

(** Updates all scripts in the bin folder: every entry of the listing, the
    file at [bin_dir/fn] being the entry itself. *)
Definition update_scripts (default : encoding) (bin_dir new_path : str)
    (es : entries) : M entries :=
  mapM (fun e : str * node =>
          let (fn, f) := e in
          let* f' := (if bool_decide (fn ∈ ACTIVATION_SCRIPTS)
                 then update_activation_script default
                        (path_join bin_dir [fn]) new_path f
                 else update_script default
                        (path_join bin_dir [fn]) new_path f) in
          ret (fn, f')) es.

(** ** Bytecode invalidation *)

(** Get rid of *.pycs *)
Definition remove_pyc (filename : str) : M unit :=
  let* _ := print (lit "D " ++ filename) in emit (Remove filename).

Definition is_pyc (filename : str) : bool :=
  endswith filename (lit ".pyc") || endswith filename (lit ".pyo").

(** The loop over [os.walk] touches no directory, so the generator and the
    loop body are one recursion on the tree.  For the directory [dirname],
    [os.walk] lists as [filenames] the entries that are not directories
    (links followed), and the body removes those with a bytecode name; the
    first trace is the body's on this directory.  [os.walk] then descends,
    in listing order, into the directories that are not links; the second
    trace is what happens below. *)
Fixpoint walk (dirname : str) (n : node) : list event * node :=
  match n with
  | Dir es =>
      let fix scan (l : entries) : list event * list event * entries :=
        match l with
        | [] => ([], [], [])
        | (fn, x) :: l' =>
            let '(here, below, l'') := scan l' in
            let filename := path_join dirname [fn] in
            match x with
            | Dir _ =>
                let (t, x') := walk filename x in
                (here, t ++ below, (fn, x') :: l'')
            | _ =>
                if negb (isdir x) && is_pyc fn
                then (fst (remove_pyc filename) ++ here, below, l'')
                else (here, below, (fn, x) :: l'')
            end
        end in
      let '(here, below, es') := scan es in
      (here ++ below, Dir es')
  | _ => ([], n)
  end.

(** [walk] on the entries of a directory. *)
Definition walk_entries (dirname : str) (es : entries)
    : list event * entries :=
  match walk dirname (Dir es) with
  | (t, Dir es') => (t, es')
  | (t, _) => (t, es)
  end.

(** Walks over all pyc files below [lib_dir] and removes them.  The top of
    the walk is listed even through a link; a path that is no directory
    yields nothing. *)
Definition remove_pycs (lib_dir new_path lib_name : str) (n : node)
    : M node :=
  in_dir (fun es => let (t, es') := walk_entries lib_dir es in (t, Ok es')) n.

(** ** The local/ link farm *)

Fixpoint foldM {A B} (f : A -> B -> M A) (l : list B) (a : A) : M A :=
  match l with
  | [] => ret a
  | b :: l' => let* a' := f a b in foldM f l' a'
  end.

(** [os.readlink] *)
Definition readlink (n : node) : str :=
  match n with Link t _ => t | _ => [] end.

(** What [../folder] leads to from inside [local/]: the entry of the root
    (the parent of [local/] itself, not of a directory that a link called
    [local] might lead to). *)
Definition sibling (root : entries) (folder : str) : option node :=
  match entry folder root with
  | Some n => follow n
  | None => None
  end.

(** The body of the loop over the three folders, on the entries of
    [local/]. *)
Definition update_local_folder (root : entries) (local_dir : str)
    (les : entries) (folder : str) : M entries :=
  let filename := path_join local_dir [folder] in
  let target := lit "../" ++ folder in
  match entry folder les with
  | Some n =>
      if islink n && negb (str_eqb (readlink n) target) then
        let* _ := emit (Remove filename) in
        let* _ := emit (Symlink (lit "../" ++ folder) filename) in
        let* _ := print (lit "L " ++ filename) in
        ret (add_entry folder (Link (lit "../" ++ folder) (sibling root folder))
               (unlink folder les))
      else ret les
  | None => ret les
  end.

(** On some systems virtualenv has a local directory with symlinks;
    update them. *)
Definition update_local (base new_path : str) (root : entries)
    : M entries :=
  let local_dir := path_join base [lit "local"] in
  if negb (isdir_at (entry (lit "local") root)) then ret root else
  at_entry (lit "local")
    (in_dir (fun les =>
       foldM (update_local_folder root local_dir)
             [lit "bin"; lit "lib"; lit "include"] les))
    root.

(** ** The orchestrator *)

(** The first entry of [lib/] whose name matches [_pybin_match]. *)
Definition find_lib (root : entries) : option str :=
  match entry (lit "lib") root with
  | Some n =>
      if isdir n then find (re_match _pybin_match) (listdir n) else None
  | None => None
  end.

Definition python_in (bin : option node) : option node :=
  match bin with
  | Some n => entry (lit "python") (dir_entries n)
  | None => None
  end.

(** Updates all paths in a virtualenv to a new one.  [root] holds the
    entries of the directory [base]. *)
Definition update_paths (default : encoding) (base new_path : str)
    (root : entries) : M (bool * entries) :=
  if negb (isabs new_path) then
    let* _ := print (lit "error: " ++ new_path ++
                     lit " is not an absolute path") in
    ret (false, root)
  else
  let bin_dir := path_join base [lit "bin"] in
  let base_lib_dir := path_join base [lit "lib"] in
  match find_lib root with
  | Some lib_name =>
      if negb (isdir_at (entry (lit "bin") root))
         || negb (isfile_at (python_in (entry (lit "bin") root)))
      then
        let* _ := print (lit "error: " ++ base ++
                         lit " does not refer to a python installation") in
        ret (false, root)
      else
        let lib_dir := path_join base_lib_dir [lib_name] in
        let* root1 :=
          at_entry (lit "bin")
            (in_dir (update_scripts default bin_dir new_path)) root in
        let* root2 :=
          at_entry (lit "lib")
            (in_dir (at_entry lib_name (remove_pycs lib_dir new_path lib_name)))
            root1 in
        let* root3 := update_local base new_path root2 in
        ret (true, root3)
  | None =>
      let* _ := print (lit "error: " ++ base ++
                       lit " does not refer to a python installation") in
      ret (false, root)
  end.

(** ** Reinitialisation *)

(** The entry [lib/py_ver]. *)
Definition python_lib (lib : option node) (py_ver : str) : option node :=
  match lib with
  | Some n => entry py_ver (dir_entries n)
  | None => None
  end.

(** [os.listdir], which raises on a path that is no directory. *)
Definition listdir_at (o : option node) : M (list str) :=
  match o with
  | Some n =>
      match follow n with
      | Some (Dir es) => ret (map fst es)
      | Some _ => raise NotADirectoryError
      | None => raise FileNotFoundError
      end
  | None => raise FileNotFoundError
  end.

(** The loop that appends the legacy-backend flag. *)
Fixpoint distribute_flags (args : list str) (filenames : list str)
    : list str :=
  match filenames with
  | [] => args
  | filename :: rest =>
      if startswith filename (lit "distribute-")
         && endswith filename (lit ".egg")
      then distribute_flags (args ++ [lit "--distribute"]) rest
      else distribute_flags args rest
  end.

(** The loop over [os.environ.items()] that fills [new_env]. *)
Definition filter_env (environ : gmap str str) : gmap str str :=
  map_fold (fun key value new_env =>
              if negb (startswith key (lit "VIRTUALENV_"))
              then <[key := value]> new_env
              else new_env)
           ∅ environ.

(** Re-initializes a virtualenv.  The result is the value returned
    ([Some false] for [False], [None] for falling off the end) and
    [os.environ] as the call leaves it. *)
Definition reinitialize_virtualenv (path substitute_python : str)
    (root : entries) (environ : gmap str str)
    : M (option bool * gmap str str) :=
  let lib := entry (lit "lib") root in
  if negb (isdir_at lib) then
    let* _ := print (lit "error: " ++ path ++
                     lit " is not a virtualenv bin folder") in
    ret (Some false, environ)
  else
  match find_lib root with
  | None =>
      let* _ := print (lit "error: could not detect python version of virtualenv "
                       ++ path) in
      ret (Some false, environ)
  | Some py_ver =>
      let lib_dir := python_lib lib py_ver in
      let args := [lit "virtualenv"; lit "-p"; substitute_python] in
      let args :=
        if negb (isfile_at (match lib_dir with
                            | Some n => entry (lit "no-global-site-packages.txt")
                                              (dir_entries n)
                            | None => None
                            end))
        then args ++ [lit "--system-site-packages"] else args in
      let* filenames := listdir_at lib_dir in
      let args := distribute_flags args filenames in
      let new_env := filter_env environ in
      let args := args ++ [path] in
      let* _ := emit (Popen args new_env) in
      ret (None, environ)
  end.

(** ** The command line *)

(** What [parser.parse_args()] returns: the value of each of the two
    options, [None] for an option that was not given. *)
Record namespace : Type := mkNamespace {
  substitute_python : option str;
  update_path : option str
}.

(** The directory [.] after the child processes of a trace have run;
    [child args env] is what a child started with these arguments and this
    environment makes of it. *)
Definition spawned (child : list str -> gmap str str -> entries -> entries)
    (t : list event) (root : entries) : entries :=
  fold_left (fun r e => match e with
                        | Popen args env => child args env r
                        | _ => r
                        end) t root.

(** The entry point, from the parsed arguments on.  An option counts as
    given when its value is true in an [if]: [None] and the empty string
    do not.  The value returned is the status passed to [sys.exit]. *)
Definition main (child : list str -> gmap str str -> entries -> entries)
    (default : encoding)
    (args : namespace) (root : entries) (environ : gmap str str)
    : M (Z * entries) :=
  let rv := 0%Z in
  let* root :=
    match substitute_python args with
    | Some ((_ :: _) as python) =>
        let run := reinitialize_virtualenv (lit ".") python root environ in
        let* _ := run in ret (spawned child (fst run) root)
    | _ => ret root
    end in
  match update_path args with
  | Some ((_ :: _) as new_path) =>
      let* _ := print (lit "Update path: " ++ new_path) in
      let* r := update_paths default (lit ".") new_path root in
      let rv := if fst r then rv else 1%Z in
      ret (rv, snd r)
  | _ => ret (rv, root)
  end.

(** The module run as a script, from the point where
    [parser.parse_args()] has returned the namespace: what it prints and
    does, and the exit status of the process.  The status is the argument
    of [sys.exit]; an uncaught exception ends the process with status 1.
    No status is given to a run that has left the model.  (A usage error
    or [--help] ends the process inside [parse_args], before anything
    else is done.) *)
Definition script (child : list str -> gmap str str -> entries -> entries)
    (default : encoding)
    (args : namespace) (root : entries) (environ : gmap str str)
    : list event * option Z :=
  match main child default args root environ with
  | (t, Ok (rv, _)) => (t, Some rv)
  | (t, Raise _) => (t, Some 1%Z)
  | (t, Unmodelled) => (t, None)
  end.

(** * Vocabulary of the properties *)

(** ** Patterns, lines and words *)

(** An assignment line of an activation script. *)
Definition assignment (prefix : str) (sep : ascii) (payload tail : str) : str :=
  prefix ++ lit "VIRTUAL_ENV" ++ [sep] ++ [dquote] ++ payload ++ [dquote] ++ tail.

Definition dialect (prefix : str) : Prop :=
  prefix = lit "set -gx " \/ prefix = lit "setenv " \/ prefix = [].

Definition separator (sep : ascii) : Prop := sep = space \/ sep = "="%char.

(** The part of [_activation_path_re] after the payload group. *)
Definition closing : regex := Seq (Chr dquote) (Seq (Star true isspace) Eol).

(** The pattern up to the payload group, on a line that opens as an
    assignment does. *)
Definition opening (R : regex) : regex :=
  Seq Bol
  (Seq (Alt (Lit (lit "set -gx ")) (Alt (Lit (lit "setenv ")) Eps))
  (Seq (Lit (lit "VIRTUAL_ENV"))
  (Seq (Cls (one_of (lit " =")))
  (Seq (Chr dquote) R)))).

Definition anchored (r : regex) : Prop :=
  forall pos s, pos <> 0 -> match_at r pos s = None.

(** The substitution on one line. *)
Definition rewrite_line (new_path line : str) : str :=
  re_sub _activation_path_re (_handle_sub new_path) line.

Definition nospace (s : str) : bool := forallb (fun c => negb (isspace c)) s.

(** A word: not empty and without whitespace. *)
Definition word (s : str) : Prop := s <> [] /\ nospace s = true.

(** How the rewriter relates a line to the line it writes: the payload of
    an assignment line is replaced, any other line is kept. *)
Inductive rewritten (new_path : str) : str -> str -> Prop :=
| rewritten_assignment prefix sep old tail :
    dialect prefix -> separator sep ->
    forallb dot old = true -> forallb isspace tail = true ->
    rewritten new_path (assignment prefix sep old tail)
                       (assignment prefix sep new_path tail)
| rewritten_other line :
    re_match _activation_path_re line = false ->
    rewritten new_path line line.

Definition new_bin (new_path : str) : str :=
  path_join new_path [lit "bin"; lit "python"].

(** The directive line the rewriter builds. *)
Definition directive (new_path : str) (args : list str) : str :=
  lit "#!" ++ str_join [space] (new_bin new_path :: args) ++ [nl].

(** ** Bytes, text and the rewriters *)

Definition LF : byte := x0a.

Definition CR : byte := x0d.

Definition DQ : byte := x22.

(** The text [open(path, encoding='latin-1')] hands over. *)
Definition latin_text (content : bytes) : str :=
  universal_newlines (map ascii_of_byte content).

(** The text [update_script] finds in a file that holds [text] in the
    default encoding. *)
Definition reread (default : encoding) (text : str) : str :=
  latin_text (encode default text).

Definition no_cr (s : str) : bool :=
  forallb (fun c => negb (Ascii.eqb c cr)) s.

(** A character of ASCII. *)
Definition is_ascii (c : ascii) : bool := (N_of_ascii c <? 0x80)%N.

(** What the shebang rewriter writes, if it writes, for the text it has
    read. *)
Definition shebang_text (new_path content : str) : option str :=
  match readlines content with
  | [] => None
  | line0 :: rest =>
      if negb (startswith line0 (lit "#!")) then None else
      match str_split (str_strip (skipn 2 line0)) with
      | [] => None
      | arg0 :: args =>
          if negb (endswith arg0 (lit "/bin/python"))
             || contains arg0 (lit "/usr/bin/env python")
          then None else
          if str_eqb (new_bin new_path) arg0 then None else
          Some (writelines (directive new_path args :: rest))
      end
  end.

(** What the activation rewriter writes, if it writes, for the text it
    has read. *)
Definition activation_text (new_path content : str) : option str :=
  let (lines, changed) := rewrite_lines new_path (readlines content) in
  if changed then Some (writelines lines) else None.

Definition sample_activate : bytes :=
  blit "# activate" ++ [LF] ++
  blit "VIRTUAL_ENV=" ++ [DQ] ++ blit "/old/path" ++ [DQ] ++ [LF] ++
  blit "export VIRTUAL_ENV" ++ [LF].

(** An activation script with CR LF line ends. *)
Definition dos_activate : bytes :=
  blit "VIRTUAL_ENV=" ++ [DQ] ++ blit "/old/path" ++ [DQ] ++ [CR; LF] ++
  blit "export VIRTUAL_ENV" ++ [CR; LF].

Definition sample_script : bytes :=
  blit "#!/old/path/bin/python -O" ++ [LF] ++ blit "import sys" ++ [LF].


(** ** The orchestrator and the link farm *)

(** [lib/] holds an entry whose name matches [_pybin_match]. *)
Definition has_python_lib (root : entries) : Prop :=
  exists n name,
    entry (lit "lib") root = Some n /\ isdir n = true /\
    In name (listdir n) /\ re_match _pybin_match name = true.

Definition no_interpreter_root : entries :=
  [(lit "bin", Dir [(lit "pip", File (blit "#!/old/bin/python" ++ [x0a]))]);
   (lit "lib", Dir [(lit "python3.9", Dir [(lit "os.pyc", File [])])])].

Definition file_as_python_lib : entries :=
  [(lit "bin", Dir [(lit "python", File (blit "ELF"));
                    (lit "pip", File (blit "#!/old/bin/python" ++ [x0a]))]);
   (lit "lib", Dir [(lit "python3.9", File [])])].

(** An event that changes the file-system entry at [path]. *)
Definition touches (path : str) (e : event) : Prop :=
  match e with
  | Write p | Remove p | Symlink _ p => p = path
  | _ => False
  end.

Definition untouched (path : str) (t : list event) : Prop :=
  Forall (fun e => ~ touches path e) t.

Definition mentions (path : str) (e : event) : Prop :=
  match e with
  | Print l => l = lit "L " ++ path
  | Write p | Remove p | Symlink _ p => p = path
  | Popen _ _ => False
  end.

(** What the normalizer leaves at [local/folder], given what was there. *)
Definition normalized (filename folder : str) (before after : option node)
    (t : list event) : Prop :=
  let target := lit "../" ++ folder in
  match before with
  | Some (Link tgt d) =>
      if bool_decide (tgt = target)
      then after = before /\ untouched filename t
      else (exists d', after = Some (Link target d')) /\
           In (Remove filename) t /\ In (Symlink target filename) t /\
           In (Print (lit "L " ++ filename)) t
  | _ => after = before /\ untouched filename t
  end.

(** [dir] as [os.path.join] puts it in front of a relative name. *)
Definition dir_prefix (dir : str) : str :=
  if str_eqb dir [] || endswith dir [slash] then dir else dir ++ [slash].

Definition FOLDERS : list str := [lit "bin"; lit "lib"; lit "include"].

Definition sample_farm : entries :=
  [(lit "local",
    Dir [(lit "bin", Link (lit "../wrong") None);
         (lit "lib", Link (lit "../lib") None);
         (lit "include", File [])])].

(** ** The reinitializer *)

Definition is_distribute_egg (filename : str) : bool :=
  startswith filename (lit "distribute-") && endswith filename (lit ".egg").

(** The versioned library directory [lib/pythonX.Y] of a root. *)
Definition versioned_lib (root : entries) : option node :=
  match find_lib root with
  | Some py_ver => python_lib (entry (lit "lib") root) py_ver
  | None => None
  end.

(** How a run of the reinitializer ends. *)
Inductive reinit_outcome (path substitute_python : str) (root : entries)
    (environ : gmap str str) : M (option bool * gmap str str) -> Prop :=
| reinit_refused msg :
    reinit_outcome path substitute_python root environ
      ([Print msg], Ok (Some false, environ))
| reinit_raised e :
    reinit_outcome path substitute_python root environ ([], Raise e)
| reinit_spawned lib_dir site :
    versioned_lib root = Some lib_dir ->
    site = [] \/ site = [lit "--system-site-packages"] ->
    reinit_outcome path substitute_python root environ
      ([Popen ([lit "virtualenv"; lit "-p"; substitute_python] ++ site ++
               repeat (lit "--distribute")
                      (length (List.filter is_distribute_egg (listdir lib_dir))) ++
               [path])
              (filter_env environ)],
       Ok (None, environ)).

Definition sample_env : entries :=
  [(lit "bin", Dir [(lit "python", File (blit "ELF"))]);
   (lit "lib",
    Dir [(lit "python2.7",
          Dir [(lit "distribute-0.6.24-py2.7.egg", Dir []);
               (lit "site.py", File []);
               (lit "distribute-0.6.10-py2.7.egg", Dir []);
               (lit "no-global-site-packages.txt", File [])])])].

Definition sample_environ : gmap str str :=
  <[lit "VIRTUALENV_PYTHON" := lit "/usr/bin/python2.6"]>
    (<[lit "PATH" := lit "/usr/bin"]> ∅).

(** ** The bytecode invalidator *)

(** [at_path es p x]: [x] is found at the relative path [p] below the
    directory with entries [es], going down through directories proper
    (not through symbolic links, which [os.walk] does not follow). *)
Inductive at_path : entries -> list str -> node -> Prop :=
| at_here es fn x :
    In (fn, x) es -> at_path es [fn] x
| at_below es fn sub p x :
    In (fn, Dir sub) es -> at_path sub p x -> at_path es (fn :: p) x.

(** The name of the entry a path leads to. *)
Definition basename (p : list str) : str := List.last p [].

(** The directory listing pass of [walk], by itself. *)
Definition scan (dirname : str) : entries -> list event * list event * entries :=
  fix scan (l : entries) : list event * list event * entries :=
    match l with
    | [] => ([], [], [])
    | (fn, x) :: l' =>
        let '(here, below, l'') := scan l' in
        let filename := path_join dirname [fn] in
        match x with
        | Dir _ =>
            let (t, x') := walk filename x in
            (here, t ++ below, (fn, x') :: l'')
        | _ =>
            if negb (isdir x) && is_pyc fn
            then (fst (remove_pyc filename) ++ here, below, l'')
            else (here, below, (fn, x) :: l'')
        end
    end.

(** What a walk over a directory has to achieve: the files that remain
    are the files without a bytecode name, and the trace is the notice and
    the removal of each file with one. *)
Definition walk_ok (dirname : str) (es : entries) (t : list event)
    (es' : entries) : Prop :=
  (forall p x, isdir x = false ->
     (at_path es' p x <-> at_path es p x /\ is_pyc (basename p) = false)) /\
  (forall e, In e t <->
     exists p x, at_path es p x /\ isdir x = false /\
       is_pyc (basename p) = true /\
       (e = Print (lit "D " ++ path_join dirname p) \/
        e = Remove (path_join dirname p))).

Definition walked (n : node) : Prop :=
  forall dirname es, n = Dir es ->
    exists t es', walk dirname n = (t, Dir es') /\ walk_ok dirname es t es'.

Definition leaf (x : node) : Prop := forall sub, x <> Dir sub.

(** ** Running the flow twice *)

(** A line that ends in its only LF, and a last line without one. *)
Definition terminated (l : str) : Prop :=
  exists body, l = body ++ [nl] /\ forallb dot body = true.

Definition unterminated (l : str) : Prop :=
  l <> [] /\ forallb dot l = true.

(** The shape of what [readlines] returns. *)
Inductive proper : list str -> Prop :=
| proper_nil : proper []
| proper_last l : unterminated l -> proper [l]
| proper_cons l ls : terminated l -> proper ls -> proper (l :: ls).

(** A computation settles into another when the second one, run on a
    result of the first, changes nothing and leaves no trace. *)
Definition settles {A} (f g : A -> M A) : Prop :=
  forall a t b, f a = (t, Ok b) -> g b = ([], Ok b).

(** The body of the loop of [update_scripts]. *)
Definition update_entry (default : encoding) (bin_dir new_path : str)
    (e : str * node) : M (str * node) :=
  let (fn, f) := e in
  let* f' := (if bool_decide (fn ∈ ACTIVATION_SCRIPTS)
              then update_activation_script default
                     (path_join bin_dir [fn]) new_path f
              else update_script default
                     (path_join bin_dir [fn]) new_path f) in
  ret (fn, f').

Definition walk_settled (n : node) : Prop :=
  forall dirname t n', walk dirname n = (t, n') -> walk dirname n' = ([], n').

(** The characters a reader with Latin-1 finds where [text] was written in
    the default encoding, before line ends are translated. *)
Definition recode (default : encoding) (text : str) : str :=
  map ascii_of_byte (encode default text).

(** The first word of a text, as [split] finds it. *)
Definition first_word (s : str) : option str := head (str_split s).

(** The interpreter path a run writes is read by the next run as itself,
    or as a first word that the shebang rewriter passes over. *)
Definition stable (default : encoding) (new_path : str) : bool :=
  match first_word (reread default (new_bin new_path)) with
  | Some w =>
      str_eqb (new_bin new_path) w || negb (endswith w (lit "/bin/python"))
  | None => true
  end.

(** A text without a line break: neither LF nor CR. *)
Definition single_line (s : str) : bool :=
  forallb (fun c => negb (Ascii.eqb c nl || Ascii.eqb c cr)) s.

Definition is_file (n : node) : bool :=
  match n with File _ => true | _ => false end.

Definition no_link (o : option node) : bool :=
  match o with Some (Link _ _) => false | _ => true end.

(** An environment whose executables are regular files and where no
    directory the flow goes into is reached through a symbolic link:
    [bin/] is a directory proper and holds regular files only, and none of
    [lib/], the version directory below it and [local/] is a symbolic
    link.  In such an environment no two paths that the flow reads,
    writes or removes lead to one and the same file. *)
Definition plain (root : entries) : bool :=
  match entry (lit "bin") root with
  | Some (Dir es) => forallb (fun e => is_file (snd e)) es
  | _ => false
  end
  && no_link (entry (lit "lib") root)
  && no_link (versioned_lib root)
  && no_link (entry (lit "local") root).

Definition sample_root : entries :=
  [(lit "bin",
    Dir [(lit "python",
          Link (lit "/usr/bin/python3.9") (Some (File (blit "ELF"))));
         (lit "activate", File sample_activate);
         (lit "pip", File sample_script)]);
   (lit "lib",
    Dir [(lit "python3.9",
          Dir [(lit "os.py", File []); (lit "os.pyc", File [])])]);
   (lit "local", Dir [(lit "bin", Link (lit "/old/path/bin") None)])].

(** [sample_root] after a run targeting [/new/path]. *)
Definition sample_relocated : entries :=
  match update_paths utf_8 (lit ".") (lit "/new/path") sample_root with
  | (_, Ok (_, root1)) => root1
  | _ => []
  end.

(** An environment with a copy of the interpreter in [bin/]. *)
Definition plain_root : entries :=
  [(lit "bin",
    Dir [(lit "python", File (blit "ELF"));
         (lit "activate", File sample_activate);
         (lit "pip", File sample_script)]);
   (lit "lib",
    Dir [(lit "python3.9",
          Dir [(lit "os.py", File []); (lit "os.pyc", File [])])]);
   (lit "local", Dir [(lit "bin", Link (lit "/old/path/bin") None)])].

(** [plain_root] after a run targeting [/opt/my env]. *)
Definition plain_relocated : entries :=
  match update_paths utf_8 (lit ".") (lit "/opt/my env") plain_root with
  | (_, Ok (_, root1)) => root1
  | _ => []
  end.

Definition spaced_target : str := lit "/opt/bin/python 3".

Definition one_script_root : entries :=
  [(lit "bin",
    Dir [(lit "python", File (blit "ELF"));
         (lit "pip", File (blit "#!/old/bin/python" ++ [LF]))]);
   (lit "lib", Dir [(lit "python3.9", Dir [])])].

(** The target [/opt/] followed by e with an acute accent. *)
Definition accented_target : str := lit "/opt/" ++ ["233"%char].

(** A target with a CR in it, after which it reads like an assignment. *)
Definition broken_target : str :=
  lit "/a" ++ [cr] ++ lit "VIRTUAL_ENV=" ++ [dquote] ++ lit "x".

(** ** Outcomes and invariants *)

(** A run of decimal digits that is not empty. *)
Definition digits (s : str) : Prop := s <> [] /\ forallb isdigit s = true.

(** A name of the form [python<major>.<minor>]. *)
Definition version_name (s : str) : Prop :=
  exists major minor,
    digits major /\ digits minor /\
    s = lit "python" ++ major ++ "."%char :: minor.

Definition two_versions : entries :=
  [(lit "lib", Dir [(lit "site-packages", Dir []);
                    (lit "python2.7", Dir []);
                    (lit "python3.9", Dir [])])].

(** An assignment line whose payload is not the target. *)
Definition stale (new_path line : str) : Prop :=
  exists prefix sep old tail,
    dialect prefix /\ separator sep /\
    forallb dot old = true /\ forallb isspace tail = true /\
    line = assignment prefix sep old tail /\ old <> new_path.

(** [sample_activate] with the payload [/new path]. *)
Definition relocated_activate : bytes :=
  blit "# activate" ++ [LF] ++
  blit "VIRTUAL_ENV=" ++ [DQ] ++ blit "/new path" ++ [DQ] ++ [LF] ++
  blit "export VIRTUAL_ENV" ++ [LF].

(** An activation script in Latin-1, which is no UTF-8. *)
Definition latin_activate : bytes :=
  blit "# caf" ++ [xe9] ++ [LF] ++
  blit "VIRTUAL_ENV=" ++ [DQ] ++ blit "/old/path" ++ [DQ] ++ [LF].

(** The events a rewriter may leave for the entry [fn] of [bin_dir]. *)
Definition script_event (bin_dir fn : str) (e : event) : Prop :=
  e = Print (lit "A " ++ path_join bin_dir [fn]) \/
  e = Print (lit "S " ++ path_join bin_dir [fn]) \/
  e = Write (path_join bin_dir [fn]).

(** What opening a path that is no regular file raises. *)
Definition open_error (n : node) : exn :=
  if isdir n then IsADirectoryError else FileNotFoundError.

Definition regular (e : str * node) : Prop := isfile (snd e) = true.

(** The encoding with which the pass opens the entry [fn] for reading. *)
Definition reading (default : encoding) (fn : str) : encoding :=
  if bool_decide (fn ∈ ACTIVATION_SCRIPTS) then default else latin_1.

(** An entry of [bin/] the pass can read: a regular file (links followed)
    which, for an activation script, holds a text in the default encoding
    (with no character above U+00FF, for the model). *)
Definition readable (default : encoding) (e : str * node) : Prop :=
  exists content text,
    follow (snd e) = Some (File content) /\
    decode (reading default (fst e)) content = Decoded text.

(** An entry of [bin/] at which the pass ends, and the exception it ends
    with: a directory, a dangling link, an activation script that does not
    decode. *)
Inductive refused (default : encoding) : str * node -> exn -> Prop :=
| refused_directory fn n :
    isdir n = true -> refused default (fn, n) IsADirectoryError
| refused_dangling fn n :
    follow n = None -> refused default (fn, n) FileNotFoundError
| refused_undecodable fn n content :
    fn ∈ ACTIVATION_SCRIPTS ->
    follow n = Some (File content) ->
    decode default content = Undecodable ->
    refused default (fn, n) UnicodeDecodeError.

Definition bin_with_cache : entries :=
  [(lit "pip", File sample_script);
   (lit "__pycache__", Dir []);
   (lit "wheel", File sample_script)].

(** An executable directory with an activation script in Latin-1. *)
Definition bin_with_latin : entries :=
  [(lit "pip", File sample_script);
   (lit "activate", File latin_activate);
   (lit "wheel", File sample_script)].

Definition env_with_cache : entries :=
  [(lit "bin",
    Dir [(lit "python", File (blit "ELF"));
         (lit "pip", File sample_script);
         (lit "__pycache__", Dir []);
         (lit "wheel", File sample_script)]);
   (lit "lib", Dir [(lit "python3.9", Dir [(lit "os.pyc", File [])])])].

(** An environment with an activation script in Latin-1. *)
Definition env_with_latin : entries :=
  [(lit "bin",
    Dir [(lit "python", File (blit "ELF"));
         (lit "activate", File latin_activate);
         (lit "pip", File sample_script)]);
   (lit "lib", Dir [(lit "python3.9", Dir [(lit "os.pyc", File [])])])].

(** The checks of [update_paths] on the environment. *)
Definition recognised (root : entries) : bool :=
  match find_lib root with Some _ => true | None => false end
  && isdir_at (entry (lit "bin") root)
  && isfile_at (python_in (entry (lit "bin") root)).

(** A node without what its links lead to: files and directories as they
    are, every link with its target string only. *)
Fixpoint skeleton (n : node) : node :=
  match n with
  | File content => File content
  | Dir es =>
      Dir (map (fun e : str * node => let (fn, x) := e in (fn, skeleton x)) es)
  | Link target _ => Link target None
  end.

(** Every directory below [es] is found at the same path below [es'],
    and a symbolic link to a directory is found there unchanged. *)
Definition keeps_dirs (es es' : entries) : Prop :=
  forall p x, at_path es p x -> isdir x = true ->
    exists x', at_path es' p x' /\ isdir x' = true /\
               (islink x = true -> x' = x).

Definition dirs_kept (n : node) : Prop :=
  forall dirname es t es',
    n = Dir es -> walk dirname n = (t, Dir es') -> keeps_dirs es es'.

(** The notice and the removal of a file with a bytecode name that the
    walk finds below the directory [lib_dir], whose entries are [es]. *)
Definition bytecode_event (lib_dir : str) (es : entries) (e : event) : Prop :=
  exists p x, at_path es p x /\ isdir x = false /\
              is_pyc (basename p) = true /\
              (e = Print (lit "D " ++ path_join lib_dir p) \/
               e = Remove (path_join lib_dir p)).

(** A notice, removal or link for one of the three names of [local/]. *)
Definition link_event (local_dir : str) (e : event) : Prop :=
  exists folder, In folder FOLDERS /\ mentions (path_join local_dir [folder]) e.

(** What [os.listdir] raises on a path that is no directory. *)
Definition listdir_error (o : option node) : exn :=
  if isfile_at o then NotADirectoryError else FileNotFoundError.

(** The marker file of an environment without the system packages. *)
Definition marker (lib_dir : node) : option node :=
  entry (lit "no-global-site-packages.txt") (dir_entries lib_dir).

Definition site_flags (lib_dir : node) : list str :=
  if isfile_at (marker lib_dir) then [] else [lit "--system-site-packages"].

(** An environment that sees the system packages. *)
Definition global_env : entries :=
  [(lit "bin", Dir [(lit "python", File (blit "ELF"))]);
   (lit "lib", Dir [(lit "python3.9", Dir [(lit "site.py", File [])])])].

(** Whether [--update-path] was given with a value that counts. *)
Definition update_given (args : namespace) : Prop :=
  match update_path args with Some (_ :: _) => True | _ => False end.

(** * Properties *)

(** ** The model on small inputs *)

Example pybin_match_names :
  map (fun s => re_match _pybin_match (lit s))
      ["python3.9"; "python2.7"; "python3.11"; "python3"; "python3.11x";
       "xpython3.1"; "python.1"]%string
  = [true; true; true; false; false; false; false].
Proof. reflexivity. Qed.

(** [$] also holds before a final LF. *)
Example pybin_match_final_newline :
  re_match _pybin_match (lit "python3.9" ++ [nl]) = true.
Proof. reflexivity. Qed.

Example activation_line_plain :
  re_sub _activation_path_re (_handle_sub (lit "/new/path"))
    (lit "VIRTUAL_ENV=" ++ [dquote] ++ lit "/old/path" ++ [dquote] ++ [nl])
  = lit "VIRTUAL_ENV=" ++ [dquote] ++ lit "/new/path" ++ [dquote] ++ [nl].
Proof. reflexivity. Qed.

Example activation_line_csh :
  re_sub _activation_path_re (_handle_sub (lit "/new/path"))
    (lit "setenv VIRTUAL_ENV " ++ [dquote] ++ lit "/old/path" ++ [dquote] ++
     lit "  " ++ [nl])
  = lit "setenv VIRTUAL_ENV " ++ [dquote] ++ lit "/new/path" ++ [dquote] ++
    lit "  " ++ [nl].
Proof. reflexivity. Qed.

Example activation_line_fish :
  re_sub _activation_path_re (_handle_sub (lit "/new/path"))
    (lit "set -gx VIRTUAL_ENV " ++ [dquote] ++ lit "/old/path" ++ [dquote])
  = lit "set -gx VIRTUAL_ENV " ++ [dquote] ++ lit "/new/path" ++ [dquote].
Proof. reflexivity. Qed.

Example activation_match_spans :
  match_at _activation_path_re 0
    (lit "VIRTUAL_ENV=" ++ [dquote] ++ lit "/old/path" ++ [dquote] ++ [nl])
  = Some (24, Some (13, 22)).
Proof. reflexivity. Qed.

Example split_example :
  str_split (str_strip (lit "  /old/bin/python   -O  -u  " ++ [nl]))
  = [lit "/old/bin/python"; lit "-O"; lit "-u"].
Proof. reflexivity. Qed.

Example readlines_example :
  readlines (lit "ab" ++ [nl] ++ [nl] ++ lit "cd")
  = [lit "ab" ++ [nl]; [nl]; lit "cd"].
Proof. reflexivity. Qed.

Example path_join_examples :
  path_join (lit "/new") [lit "bin"; lit "python"] = lit "/new/bin/python" /\
  path_join (lit "/new/") [lit "bin"; lit "python"] = lit "/new/bin/python" /\
  path_join (lit "/") [lit "bin"; lit "python"] = lit "/bin/python" /\
  path_join [] [lit "bin"; lit "python"] = lit "bin/python".
Proof. repeat split. Qed.

(** Decoding: strict UTF-8, with characters above U+00FF set apart, and
    Latin-1, which takes every byte. *)
Example decode_examples :
  decode utf_8 (blit "caf" ++ [xc3; xa9]) = Decoded (lit "caf" ++ ["233"%char]) /\
  decode latin_1 (blit "caf" ++ [xc3; xa9])
  = Decoded (lit "caf" ++ ["195"%char; "169"%char]) /\
  decode utf_8 (blit "caf" ++ [xe9]) = Undecodable /\
  decode utf_8 [xc0; x80] = Undecodable /\
  decode utf_8 [xed; xa0; x80] = Undecodable /\
  decode utf_8 [xe2; x82; xac] = Beyond /\
  decode utf_8 [xe2; x82; xac; xff] = Undecodable.
Proof. repeat split. Qed.

Example encode_examples :
  encode utf_8 (lit "caf" ++ ["233"%char]) = blit "caf" ++ [xc3; xa9] /\
  encode latin_1 (lit "caf" ++ ["233"%char]) = blit "caf" ++ [xe9].
Proof. repeat split. Qed.

Example universal_newlines_example :
  universal_newlines (lit "a" ++ [cr; nl] ++ lit "b" ++ [cr] ++ lit "c" ++ [nl; cr])
  = lit "a" ++ [nl] ++ lit "b" ++ [nl] ++ lit "c" ++ [nl; nl].
Proof. reflexivity. Qed.

(** A whole run: the two scripts are rewritten, the bytecode files go,
    the link is repaired, in this order. *)
Example update_paths_run :
  fst (update_paths utf_8 (lit ".") (lit "/new/path")
    [(lit "bin",
      Dir [(lit "python", Link (lit "/usr/bin/python3.9") (Some (File (blit "ELF"))));
           (lit "activate",
            File (blit "VIRTUAL_ENV=" ++ [x22] ++ blit "/old/path" ++ [x22]
                  ++ [x0a]));
           (lit "pip", File (blit "#!/old/path/bin/python" ++ [x0a]))]);
     (lit "lib",
      Dir [(lit "python3.9",
            Dir [(lit "os.py", File []); (lit "os.pyc", File []);
                 (lit "site-packages", Dir [(lit "six.pyo", File [])])])]);
     (lit "local", Dir [(lit "bin", Link (lit "/old/path/bin") None)])])
  = [Print (lit "A ./bin/activate"); Write (lit "./bin/activate");
     Print (lit "S ./bin/pip"); Write (lit "./bin/pip");
     Print (lit "D ./lib/python3.9/os.pyc");
     Remove (lit "./lib/python3.9/os.pyc");
     Print (lit "D ./lib/python3.9/site-packages/six.pyo");
     Remove (lit "./lib/python3.9/site-packages/six.pyo");
     Remove (lit "./local/bin");
     Symlink (lit "../bin") (lit "./local/bin");
     Print (lit "L ./local/bin")].
Proof. vm_compute. reflexivity. Qed.

(** ** Regular expressions: how the matcher runs *)

Lemma ascii_eqb_true (a b : ascii) : Ascii.eqb a b = true <-> a = b.
Proof. apply Ascii.eqb_eq. Qed.

Lemma str_eqb_true (a b : str) : str_eqb a b = true <-> a = b.
Proof. unfold str_eqb. apply bool_decide_eq_true. Qed.

Lemma str_eqb_false (a b : str) : str_eqb a b = false <-> a <> b.
Proof. unfold str_eqb. apply bool_decide_eq_false. Qed.

Lemma str_eqb_refl (a : str) : str_eqb a a = true.
Proof. now apply str_eqb_true. Qed.

Lemma rmatch_Lit (l : str) (k : cont) pos s g :
  rmatch (Lit l) k pos (l ++ s) g = k (pos + length l) s g.
Proof.
  revert pos. induction l as [|c l IH]; intros pos; simpl.
  - now rewrite Nat.add_0_r.
  - rewrite Ascii.eqb_refl, IH. f_equal. lia.
Qed.

Lemma rmatch_Lit_inv (l : str) (k : cont) pos s g o :
  rmatch (Lit l) k pos s g = Some o ->
  exists s', s = l ++ s' /\ k (pos + length l) s' g = Some o.
Proof.
  revert pos s. induction l as [|c l IH]; intros pos s H; simpl in *.
  - exists s. now rewrite Nat.add_0_r.
  - destruct s as [|x s]; [discriminate|].
    destruct (Ascii.eqb x c) eqn:E; [|discriminate].
    apply ascii_eqb_true in E. subst x.
    destruct (IH _ _ H) as (s' & -> & Hk).
    exists s'. split; [reflexivity|]. now replace (pos + S (length l)) with (S pos + length l) by lia.
Qed.

(** A greedy [\s*$]-style tail: the class repeated, then the end. *)
Lemma star_greedy_all (p : ascii -> bool) pos s g :
  forallb p s = true ->
  star_greedy p (rmatch Eol accept) pos s g = Some (pos + length s, g).
Proof.
  revert pos. induction s as [|c s IH]; intros pos H; simpl in *.
  - now rewrite Nat.add_0_r.
  - apply andb_prop in H as [Hc Hs]. rewrite Hc, IH by assumption.
    f_equal. f_equal. lia.
Qed.

Lemma star_greedy_inv (p : ascii -> bool) (k : cont) pos s g o :
  star_greedy p k pos s g = Some o ->
  exists a b, s = a ++ b /\ forallb p a = true /\
              k (pos + length a) b g = Some o.
Proof.
  revert pos. induction s as [|c s IH]; intros pos H; simpl in H.
  - exists [], []. simpl. now rewrite Nat.add_0_r.
  - destruct (p c) eqn:Hc.
    + destruct (star_greedy p k (S pos) s g) eqn:E.
      * injection H as <-. destruct (IH _ E) as (a & b & -> & Ha & Hk).
        exists (c :: a), b. simpl. rewrite Hc, Ha.
        repeat split. now replace (pos + S (length a)) with (S pos + length a) by lia.
      * exists [], (c :: s). simpl. now rewrite Nat.add_0_r.
    + exists [], (c :: s). simpl. now rewrite Nat.add_0_r.
Qed.

Lemma star_lazy_inv (p : ascii -> bool) (k : cont) pos s g o :
  star_lazy p k pos s g = Some o ->
  exists a b, s = a ++ b /\ forallb p a = true /\
              k (pos + length a) b g = Some o.
Proof.
  revert pos. induction s as [|c s IH]; intros pos H; simpl in H.
  - destruct (k pos [] g) eqn:E; [|discriminate]. injection H as <-.
    exists [], []. simpl. now rewrite Nat.add_0_r.
  - destruct (k pos (c :: s) g) eqn:E.
    + injection H as <-. exists [], (c :: s). simpl. now rewrite Nat.add_0_r.
    + destruct (p c) eqn:Hc; [|discriminate].
      destruct (IH _ H) as (a & b & -> & Ha & Hk).
      exists (c :: a), b. simpl. rewrite Hc, Ha.
      repeat split. now replace (pos + S (length a)) with (S pos + length a) by lia.
Qed.

(** A lazy repetition passes over [a] when the continuation fails at every
    earlier split. *)
Lemma star_lazy_skip (p : ascii -> bool) (k : cont) a b pos g :
  forallb p a = true ->
  (forall i, i < length a -> k (pos + i) (skipn i a ++ b) g = None) ->
  star_lazy p k pos (a ++ b) g = star_lazy p k (pos + length a) b g.
Proof.
  revert pos. induction a as [|c a IH]; intros pos Hp Hk; simpl.
  - now rewrite Nat.add_0_r.
  - simpl in Hp. apply andb_prop in Hp as [Hc Ha].
    pose proof (Hk 0 ltac:(simpl; lia)) as H0. simpl in H0.
    rewrite Nat.add_0_r in H0.
    rewrite H0, Hc.
    rewrite IH; [f_equal; lia|assumption|].
    intros i Hi. specialize (Hk (S i) ltac:(simpl; lia)). simpl in Hk.
    now replace (S pos + i) with (pos + S i) by lia.
Qed.

Lemma eol_inv (k : cont) pos s g o :
  rmatch Eol k pos s g = Some o -> s = [] \/ s = [nl].
Proof.
  simpl. destruct s as [|x [|y s]]; auto; [|discriminate].
  destruct (Ascii.eqb x nl) eqn:E; [|discriminate].
  apply ascii_eqb_true in E. subst. auto.
Qed.

(** [\s*$] only succeeds on whitespace. *)
Lemma spaces_eol_inv pos s g o :
  star_greedy isspace (rmatch Eol accept) pos s g = Some o ->
  forallb isspace s = true /\ o = (pos + length s, g).
Proof.
  intros H. pose proof H as H'.
  apply star_greedy_inv in H as (a & b & -> & Ha & Hk).
  assert (Hb : forallb isspace b = true).
  { apply eol_inv in Hk as [->| ->]; reflexivity. }
  assert (Hall : forallb isspace (a ++ b) = true).
  { rewrite forallb_app, Ha, Hb. reflexivity. }
  split; [assumption|].
  rewrite star_greedy_all in H' by assumption. now injection H' as <-.
Qed.

Lemma star_lazy_now (p : ascii -> bool) (k : cont) pos s g o :
  k pos s g = Some o -> star_lazy p k pos s g = Some o.
Proof. intros H. destruct s; simpl; now rewrite H. Qed.

Lemma closing_ok pos tail g :
  forallb isspace tail = true ->
  rmatch closing accept pos (dquote :: tail) g = Some (S pos + length tail, g).
Proof.
  intros H. cbn [closing rmatch]. rewrite Ascii.eqb_refl.
  now apply star_greedy_all.
Qed.

Lemma closing_inv pos s g o :
  rmatch closing accept pos s g = Some o ->
  exists tail, s = dquote :: tail /\ forallb isspace tail = true /\
               o = (S pos + length tail, g).
Proof.
  cbn [closing rmatch]. destruct s as [|x s]; [discriminate|].
  destruct (Ascii.eqb x dquote) eqn:E; [|discriminate].
  apply ascii_eqb_true in E. subst x. intros H.
  apply spaces_eol_inv in H as [H ->]. eauto.
Qed.

Lemma payload_ok pos payload tail g :
  forallb dot payload = true ->
  forallb isspace tail = true ->
  rmatch (Seq (Group (Star false dot)) closing) accept pos
         (payload ++ dquote :: tail) g
  = Some (pos + length payload + 1 + length tail,
          Some (pos, pos + length payload)).
Proof.
  intros Hp Ht. cbn [rmatch].
  rewrite star_lazy_skip; [|assumption|].
  - apply star_lazy_now. rewrite closing_ok by assumption.
    repeat f_equal; lia.
  - intros i Hi.
    destruct (rmatch closing accept (pos + i)
                (skipn i payload ++ dquote :: tail) (Some (pos, pos + i)))
      eqn:E; [|reflexivity].
    exfalso. apply closing_inv in E as (tail' & E & Hs & _).
    destruct (skipn i payload) as [|x rest] eqn:Es.
    + apply (f_equal (@length ascii)) in Es. rewrite length_skipn in Es.
      simpl in Es. lia.
    + simpl in E. injection E as -> <-.
      rewrite forallb_app in Hs. simpl in Hs.
      apply andb_prop in Hs as [_ Hs]. discriminate.
Qed.

Lemma payload_inv pos s g o :
  rmatch (Seq (Group (Star false dot)) closing) accept pos s g = Some o ->
  exists payload tail, s = payload ++ dquote :: tail /\
    forallb dot payload = true /\ forallb isspace tail = true.
Proof.
  cbn [rmatch]. intros H.
  apply star_lazy_inv in H as (a & b & -> & Ha & Hk).
  apply closing_inv in Hk as (tail & -> & Ht & _). eauto.
Qed.

Lemma activation_re_unfold :
  _activation_path_re =
  Seq Bol
  (Seq (Alt (Lit (lit "set -gx ")) (Alt (Lit (lit "setenv ")) Eps))
  (Seq (Lit (lit "VIRTUAL_ENV"))
  (Seq (Cls (one_of (lit " =")))
  (Seq (Chr dquote)
  (Seq (Group (Star false dot)) closing))))).
Proof. reflexivity. Qed.

Lemma opening_ok (R : regex) (k : cont) prefix sep rest g :
  dialect prefix -> separator sep ->
  rmatch (opening R) k 0
         (prefix ++ lit "VIRTUAL_ENV" ++ [sep] ++ [dquote] ++ rest) g
  = rmatch R k (length prefix + 13) rest g.
Proof.
  intros [-> | [-> | ->]] [-> | ->]; cbn;
    try reflexivity; now destruct (rmatch R k _ rest g).
Qed.

Lemma variable_inv (R : regex) (k : cont) pos s g o :
  rmatch (Seq (Lit (lit "VIRTUAL_ENV"))
         (Seq (Cls (one_of (lit " =")))
         (Seq (Chr dquote) R))) k pos s g = Some o ->
  exists sep rest, separator sep /\
    s = lit "VIRTUAL_ENV" ++ [sep] ++ [dquote] ++ rest /\
    rmatch R k (pos + 13) rest g = Some o.
Proof.
  intros H. cbn [rmatch] in H.
  apply rmatch_Lit_inv in H as (s1 & -> & H).
  destruct s1 as [|sep s1]; [discriminate|].
  destruct (one_of (lit " =") sep) eqn:Hsep; [|discriminate].
  destruct s1 as [|x rest]; [discriminate|].
  destruct (Ascii.eqb x dquote) eqn:Hx; [|discriminate].
  apply ascii_eqb_true in Hx. subst x.
  exists sep, rest. split; [|split].
  - unfold one_of in Hsep. simpl in Hsep.
    apply orb_prop in Hsep as [Hs|Hs].
    + left. now apply ascii_eqb_true in Hs.
    + rewrite orb_false_r in Hs. right. now apply ascii_eqb_true in Hs.
  - reflexivity.
  - simpl length in H. now replace (pos + 13) with (S (S (pos + 11))) by lia.
Qed.

Lemma opening_inv (R : regex) (k : cont) pos s g o :
  rmatch (opening R) k pos s g = Some o ->
  pos = 0 /\
  exists prefix sep rest, dialect prefix /\ separator sep /\
    s = prefix ++ lit "VIRTUAL_ENV" ++ [sep] ++ [dquote] ++ rest /\
    rmatch R k (length prefix + 13) rest g = Some o.
Proof.
  unfold opening. intros H.
  change (rmatch (Seq Bol ?r) k pos s g) with
    (if pos =? 0 then rmatch r k pos s g else None) in H.
  destruct (Nat.eqb_spec pos 0) as [->|]; [|discriminate].
  split; [reflexivity|].
  change (rmatch (Seq (Alt ?a (Alt ?b Eps)) ?r) k 0 s g) with
    (match rmatch a (fun p s' g' => rmatch r k p s' g') 0 s g with
     | Some o => Some o
     | None =>
         match rmatch b (fun p s' g' => rmatch r k p s' g') 0 s g with
         | Some o => Some o
         | None => rmatch r k 0 s g
         end
     end) in H.
  destruct (rmatch (Lit (lit "set -gx ")) _ 0 s g) eqn:E1.
  { injection H as ->. apply rmatch_Lit_inv in E1 as (s1 & -> & E1).
    apply variable_inv in E1 as (sep & rest & Hsep & -> & E1).
    exists (lit "set -gx "), sep, rest. unfold dialect. auto. }
  destruct (rmatch (Lit (lit "setenv ")) _ 0 s g) eqn:E2.
  { injection H as ->. apply rmatch_Lit_inv in E2 as (s1 & -> & E2).
    apply variable_inv in E2 as (sep & rest & Hsep & -> & E2).
    exists (lit "setenv "), sep, rest. unfold dialect. auto. }
  apply variable_inv in H as (sep & rest & Hsep & -> & H).
  exists [], sep, rest. unfold dialect. auto.
Qed.

Lemma activation_re_opening :
  _activation_path_re = opening (Seq (Group (Star false dot)) closing).
Proof. reflexivity. Qed.

(** An assignment line matches, with the payload as group 1. *)
Lemma activation_match prefix sep payload tail :
  dialect prefix -> separator sep ->
  forallb dot payload = true -> forallb isspace tail = true ->
  match_at _activation_path_re 0 (assignment prefix sep payload tail)
  = Some (length (assignment prefix sep payload tail),
          Some (length prefix + 13, length prefix + 13 + length payload)).
Proof.
  intros Hd Hs Hp Ht. unfold match_at. rewrite activation_re_opening.
  unfold assignment. rewrite opening_ok by assumption.
  change ([dquote] ++ tail) with (dquote :: tail).
  rewrite payload_ok by assumption.
  repeat f_equal. rewrite !length_app. simpl. lia.
Qed.

(** Only assignment lines match, and only at offset 0. *)
Lemma activation_match_inv pos s o :
  match_at _activation_path_re pos s = Some o ->
  pos = 0 /\
  exists prefix sep payload tail,
    dialect prefix /\ separator sep /\
    forallb dot payload = true /\ forallb isspace tail = true /\
    s = assignment prefix sep payload tail.
Proof.
  unfold match_at. rewrite activation_re_opening. intros H.
  apply opening_inv in H as (-> & prefix & sep & rest & Hd & Hs & -> & H).
  split; [reflexivity|].
  apply payload_inv in H as (payload & tail & -> & Hp & Ht).
  exists prefix, sep, payload, tail. auto.
Qed.

(** ** Substitution with a pattern anchored at the start *)

Lemma sub_scan_anchored (r : regex) (f : Match -> str) subject rest pos n :
  anchored r -> pos <> 0 ->
  sub_scan r f subject pos rest n = skipn n rest.
Proof.
  intros Hr. revert pos n. induction rest as [|c rest IH]; intros pos n Hpos.
  - simpl. rewrite (Hr pos [] Hpos). now destruct n.
  - destruct n as [|n]; simpl.
    + rewrite (Hr pos _ Hpos). f_equal. now rewrite IH.
    + now apply IH.
Qed.

Lemma re_sub_anchored_none (r : regex) (f : Match -> str) s :
  anchored r -> match_at r 0 s = None -> re_sub r f s = s.
Proof.
  intros Hr H. unfold re_sub. destruct s as [|c s]; simpl; rewrite H.
  - reflexivity.
  - f_equal. now rewrite sub_scan_anchored.
Qed.

Lemma re_sub_anchored_some (r : regex) (f : Match -> str) s e g :
  anchored r -> match_at r 0 s = Some (e, g) -> 0 < e ->
  re_sub r f s = f (mkMatch s (0, e) g) ++ skipn e s.
Proof.
  intros Hr H He. unfold re_sub. destruct s as [|c s]; simpl; rewrite H.
  - destruct e; [lia|]. now rewrite app_nil_r.
  - destruct e as [|e]; [lia|]. simpl.
    rewrite sub_scan_anchored by (assumption || lia).
    now rewrite Nat.sub_0_r.
Qed.

Lemma activation_anchored : anchored _activation_path_re.
Proof.
  intros pos s Hpos.
  destruct (match_at _activation_path_re pos s) eqn:E; [|reflexivity].
  apply activation_match_inv in E as [E _]. contradiction.
Qed.

(** [_handle_sub] on a match that covers the whole line [a ++ old ++ b]
    with [old] as group 1. *)
Lemma handle_sub_spans (new_path a old b : str) :
  b <> [] ->
  _handle_sub new_path
    (mkMatch (a ++ old ++ b) (0, length (a ++ old ++ b))
             (Some (length a, length a + length old)))
  = a ++ new_path ++ b.
Proof.
  intros Hb. unfold _handle_sub, m_group, m_span_1. cbn [m_span m_string m_span1].
  rewrite Nat.sub_0_r, skipn_O, firstn_all.
  assert (Hlb : 0 < length b) by (destruct b; [contradiction|simpl; lia]).
  unfold slice_to, slice_from. rewrite !length_app.
  replace (Z.of_nat (length a) - Z.of_nat 0)%Z with (Z.of_nat (length a)) by lia.
  destruct (Z.ltb_spec (Z.of_nat (length a)) 0) as [|_]; [lia|].
  rewrite Nat2Z.id.
  destruct (Z.ltb_spec (Z.of_nat (length a + length old) -
             Z.of_nat (length a + (length old + length b))) 0) as [_|]; [|lia].
  replace (Z.to_nat _) with (length a + length old) by lia.
  f_equal.
  - rewrite firstn_app, Nat.sub_diag, firstn_all. simpl. now rewrite app_nil_r.
  - f_equal. rewrite app_assoc, skipn_app, length_app.
    rewrite Nat.sub_diag. simpl.
    rewrite skipn_all2 by (rewrite length_app; lia). reflexivity.
Qed.

Lemma assignment_split prefix sep payload tail :
  assignment prefix sep payload tail
  = (prefix ++ lit "VIRTUAL_ENV" ++ [sep] ++ [dquote]) ++ payload ++
    ([dquote] ++ tail).
Proof. unfold assignment. now rewrite <- !app_assoc. Qed.

Lemma rewrite_line_assignment new_path prefix sep payload tail :
  dialect prefix -> separator sep ->
  forallb dot payload = true -> forallb isspace tail = true ->
  rewrite_line new_path (assignment prefix sep payload tail)
  = assignment prefix sep new_path tail.
Proof.
  intros Hd Hs Hp Ht. unfold rewrite_line.
  rewrite (re_sub_anchored_some _ _ _ _ _ activation_anchored
             (activation_match _ _ _ _ Hd Hs Hp Ht)).
  - rewrite skipn_all, app_nil_r.
    rewrite (assignment_split prefix sep new_path).
    rewrite assignment_split.
    replace (length prefix + 13)
      with (length (prefix ++ lit "VIRTUAL_ENV" ++ [sep] ++ [dquote])).
    + apply handle_sub_spans. discriminate.
    + rewrite !length_app. simpl. lia.
  - unfold assignment. rewrite !length_app. simpl. lia.
Qed.

Lemma rewrite_line_other new_path line :
  re_match _activation_path_re line = false ->
  rewrite_line new_path line = line.
Proof.
  unfold re_match, rewrite_line. intros H.
  apply re_sub_anchored_none; [apply activation_anchored|].
  now destruct (match_at _activation_path_re 0 line).
Qed.

(** A line the rewriter changes is an assignment line. *)
Lemma rewrite_line_changes new_path line :
  rewrite_line new_path line <> line ->
  exists prefix sep payload tail,
    dialect prefix /\ separator sep /\
    forallb dot payload = true /\ forallb isspace tail = true /\
    line = assignment prefix sep payload tail.
Proof.
  intros H. destruct (match_at _activation_path_re 0 line) eqn:E.
  - now apply activation_match_inv in E as [_ E].
  - exfalso. apply H. apply rewrite_line_other. unfold re_match. now rewrite E.
Qed.

Lemma rewrite_lines_map new_path lines :
  fst (rewrite_lines new_path lines) = map (rewrite_line new_path) lines.
Proof.
  induction lines as [|l ls IH]; [reflexivity|].
  simpl. fold (rewrite_line new_path l).
  destruct (rewrite_lines new_path ls) as [ls' ch]. simpl in IH. subst ls'.
  destruct (str_eqb l (rewrite_line new_path l)) eqn:E; simpl; [|reflexivity].
  apply str_eqb_true in E. now rewrite <- E.
Qed.

Lemma rewrite_lines_unchanged new_path lines :
  snd (rewrite_lines new_path lines) = false ->
  map (rewrite_line new_path) lines = lines.
Proof.
  induction lines as [|l ls IH]; [reflexivity|].
  simpl. fold (rewrite_line new_path l).
  destruct (rewrite_lines new_path ls) as [ls' ch]. simpl in IH.
  destruct (str_eqb l (rewrite_line new_path l)) eqn:E; simpl; [|discriminate].
  intros ->. apply str_eqb_true in E. rewrite <- E. f_equal. now apply IH.
Qed.

Lemma rewrite_lines_fixed new_path lines :
  map (rewrite_line new_path) lines = lines ->
  rewrite_lines new_path lines = (lines, false).
Proof.
  induction lines as [|l ls IH]; [reflexivity|].
  simpl. fold (rewrite_line new_path l). intros H. injection H as Hl Hls.
  rewrite (IH Hls), Hl, str_eqb_refl. reflexivity.
Qed.

Lemma concat_readlines s : concat (readlines s) = s.
Proof.
  induction s as [|c s IH]; [reflexivity|]. simpl.
  destruct (Ascii.eqb c nl).
  - simpl. now rewrite IH.
  - destruct (readlines s) as [|l ls]; simpl in *; now rewrite <- IH.
Qed.

(** ** Lines and words *)

Lemma readlines_line body rest :
  forallb dot body = true ->
  readlines (body ++ nl :: rest) = (body ++ [nl]) :: readlines rest.
Proof.
  induction body as [|c body IH]; intros H; simpl.
  - reflexivity.
  - simpl in H. apply andb_prop in H as [Hc Hb]. unfold dot in Hc.
    destruct (Ascii.eqb c nl); [discriminate|]. now rewrite IH.
Qed.

Lemma readlines_last body :
  body <> [] -> forallb dot body = true -> readlines body = [body].
Proof.
  induction body as [|c body IH]; intros Hne H; [contradiction|].
  simpl in *. apply andb_prop in H as [Hc Hb]. unfold dot in Hc.
  destruct (Ascii.eqb c nl); [discriminate|].
  destruct body as [|d body]; [reflexivity|].
  rewrite IH by (assumption || discriminate). reflexivity.
Qed.

Lemma words_space c s :
  isspace c = true -> words (c :: s) = ([], str_split s).
Proof.
  intros H. unfold str_split. simpl. destruct (words s). now rewrite H.
Qed.

Lemma words_word t c s :
  nospace t = true -> isspace c = true ->
  words (t ++ c :: s) = (t, str_split s).
Proof.
  intros Ht Hc. induction t as [|x t IH].
  - now apply words_space.
  - simpl in Ht. apply andb_prop in Ht as [Hx Ht].
    change ((x :: t) ++ c :: s) with (x :: (t ++ c :: s)).
    cbn [words]. rewrite (IH Ht).
    apply negb_true_iff in Hx. now rewrite Hx.
Qed.


Lemma str_split_word t c s :
  word t -> isspace c = true -> str_split (t ++ c :: s) = t :: str_split s.
Proof.
  intros [Hne Ht] Hc. unfold str_split at 1. rewrite words_word by assumption.
  destruct t; [contradiction|reflexivity].
Qed.

Lemma words_trailing s ws :
  forallb isspace ws = true -> words (s ++ ws) = words s.
Proof.
  intros Hws. induction s as [|x s IH].
  - simpl. induction ws as [|c ws IHw]; [reflexivity|].
    simpl in Hws. apply andb_prop in Hws as [Hc Hws].
    cbn [words]. rewrite (IHw Hws). now rewrite Hc.
  - change ((x :: s) ++ ws) with (x :: (s ++ ws)). cbn [words]. now rewrite IH.
Qed.

Lemma lstrip_split s :
  exists ws, s = ws ++ lstrip s /\ forallb isspace ws = true.
Proof.
  induction s as [|c s (ws & E & H)].
  - now exists [].
  - simpl. destruct (isspace c) eqn:Hc.
    + exists (c :: ws). simpl. rewrite Hc, H. now rewrite <- E.
    + now exists [].
Qed.

Lemma str_split_lstrip s : str_split (lstrip s) = str_split s.
Proof.
  induction s as [|c s IH]; [reflexivity|]. simpl.
  destruct (isspace c) eqn:Hc; [|reflexivity].
  rewrite IH. unfold str_split at 2. rewrite words_space by assumption.
  reflexivity.
Qed.

Lemma str_split_rstrip s : str_split (rstrip s) = str_split s.
Proof.
  unfold rstrip. destruct (lstrip_split (rev s)) as (ws & E & H).
  apply (f_equal (@rev ascii)) in E. rewrite rev_involutive, rev_app_distr in E.
  rewrite E at 2. unfold str_split. rewrite words_trailing; [reflexivity|].
  rewrite forallb_forall in *. intros x Hx. apply H. now apply in_rev.
Qed.

Lemma str_split_strip s : str_split (str_strip s) = str_split s.
Proof. unfold str_strip. now rewrite str_split_rstrip, str_split_lstrip. Qed.

(** What [split] returns are words. *)
Lemma words_are_words s :
  nospace (fst (words s)) = true /\ Forall word (snd (words s)).
Proof.
  induction s as [|c s [Hw Hws]]; [now split|].
  cbn [words]. destruct (words s) as [w ws]. simpl in *.
  destruct (isspace c) eqn:Hc; simpl.
  - split; [reflexivity|]. destruct w; simpl; [assumption|].
    constructor; [|assumption]. split; [discriminate|assumption].
  - now rewrite Hc, Hw.
Qed.

Lemma str_split_words s : Forall word (str_split s).
Proof.
  unfold str_split. destruct (words_are_words s) as [Hw Hws].
  destruct (words s) as [w ws]. simpl in *.
  destruct w; simpl; [assumption|].
  constructor; [|assumption]. split; [discriminate|assumption].
Qed.

(** Joining words with single spaces and splitting again. *)
Lemma str_split_join toks :
  Forall word toks ->
  str_split (str_join [space] toks ++ [nl]) = toks.
Proof.
  induction 1 as [|t toks Ht Hts IH]; [reflexivity|].
  destruct toks as [|t2 toks].
  - simpl. rewrite (str_split_word t nl []) by (assumption || reflexivity).
    reflexivity.
  - change (str_join [space] (t :: t2 :: toks))
      with (t ++ [space] ++ str_join [space] (t2 :: toks)).
    replace ((t ++ [space] ++ str_join [space] (t2 :: toks)) ++ [nl])
      with (t ++ space :: (str_join [space] (t2 :: toks) ++ [nl]))
      by (now rewrite <- !app_assoc).
    rewrite str_split_word by (assumption || reflexivity).
    now rewrite IH.
Qed.

Lemma startswith_inv s p :
  startswith s p = true -> exists b, s = p ++ b.
Proof.
  revert s. induction p as [|x p IH]; intros s H.
  - now exists s.
  - destruct s as [|y s]; [discriminate|]. simpl in H.
    apply andb_prop in H as [Hx Hp]. apply ascii_eqb_true in Hx. subst y.
    destruct (IH _ Hp) as (b & ->). now exists b.
Qed.

Lemma startswith_app p b : startswith (p ++ b) p = true.
Proof.
  induction p; simpl; [now destruct b|]. now rewrite Ascii.eqb_refl.
Qed.

Lemma endswith_app a p : endswith (a ++ p) p = true.
Proof. unfold endswith. rewrite rev_app_distr. apply startswith_app. Qed.

Lemma contains_inv s sub :
  contains s sub = true -> exists a b, s = a ++ sub ++ b.
Proof.
  induction s as [|c s IH]; intros H; cbn [contains] in H.
  - rewrite orb_false_r in H.
    destruct sub; [|discriminate]. now exists [], [].
  - apply orb_prop in H as [H|H].
    + apply startswith_inv in H as (b & ->). now exists [], b.
    + destruct (IH H) as (a & b & ->). now exists (c :: a), b.
Qed.

(** A word cannot contain a string with a blank in it, so the test for
    the [env] form never fires on [args[0]]. *)
Lemma word_no_env t :
  nospace t = true -> contains t (lit "/usr/bin/env python") = false.
Proof.
  intros Ht. destruct (contains t _) eqn:E; [|reflexivity].
  apply contains_inv in E as (a & b & ->).
  unfold nospace in Ht. rewrite !forallb_app in Ht.
  apply andb_prop in Ht as [_ Ht]. apply andb_prop in Ht as [Ht _].
  discriminate.
Qed.

(** ** The activation-script rewriter *)

Lemma rewritten_rewrite_line new_path line :
  rewritten new_path line (rewrite_line new_path line).
Proof.
  destruct (re_match _activation_path_re line) eqn:E.
  - unfold re_match in E.
    destruct (match_at _activation_path_re 0 line) eqn:Em; [|discriminate].
    apply activation_match_inv in Em
      as (_ & prefix & sep & old & tail & Hd & Hs & Ho & Ht & ->).
    rewrite rewrite_line_assignment by assumption. now constructor.
  - rewrite rewrite_line_other by assumption. now constructor.
Qed.

Lemma rewritten_map new_path lines :
  Forall2 (rewritten new_path) lines (map (rewrite_line new_path) lines).
Proof.
  induction lines; constructor; [apply rewritten_rewrite_line|assumption].
Qed.

(** C9, the claim as stated fails: a line whose assignment is followed by
    a comment that ends in a double quote is rewritten, and the comment is
    lost with the old payload. *)
Lemma trailing_quoted_comment_rewritten :
  let line := lit "VIRTUAL_ENV=" ++ [dquote] ++ lit "/old/path" ++ [dquote] ++
              lit " # " ++ [dquote] ++ lit "x" ++ [dquote] ++ [nl] in
  rewrite_line (lit "/new/path") line
  = lit "VIRTUAL_ENV=" ++ [dquote] ++ lit "/new/path" ++ [dquote] ++ [nl]
  /\ rewrite_line (lit "/new/path") line <> line.
Proof. split; [reflexivity|discriminate]. Qed.

Lemma last_quote_unique a b a' b' :
  a ++ dquote :: b = a' ++ dquote :: b' ->
  ~ In dquote b -> ~ In dquote b' -> b = b'.
Proof.
  revert a'. induction a as [|x a IH]; intros a' E Hb Hb'.
  - destruct a' as [|y a']; simpl in E.
    + now injection E.
    + injection E as <- ->. exfalso. apply Hb.
      apply in_or_app. right. now left.
  - destruct a' as [|y a']; simpl in E.
    + injection E as -> <-. exfalso. apply Hb'.
      apply in_or_app. right. now left.
    + injection E as <- E. now apply (IH a').
Qed.

Lemma spaces_no_quote s : forallb isspace s = true -> ~ In dquote s.
Proof.
  intros H Hin. rewrite forallb_forall in H. specialize (H _ Hin). discriminate.
Qed.

(** C9, amended.  The rewriter changes a line only if the whole line is an
    assignment: a recognised prefix at its first character, the variable,
    a blank or [=], a quoted payload, and nothing but whitespace after the
    closing quote, which is the last double quote of the line.  So an
    indented line is kept, and so is a line with anything but whitespace
    after its last double quote. *)
Theorem activation_rewrite_anchored (new_path line : str) :
  (rewrite_line new_path line <> line ->
   exists prefix sep payload tail,
     dialect prefix /\ separator sep /\
     forallb dot payload = true /\ forallb isspace tail = true /\
     line = assignment prefix sep payload tail) /\
  (forall c rest, line = c :: rest -> isspace c = true ->
     rewrite_line new_path line = line) /\
  (forall head tail, line = head ++ dquote :: tail ->
     ~ In dquote tail -> forallb isspace tail = false ->
     rewrite_line new_path line = line).
Proof.
  split; [apply rewrite_line_changes|]. split.
  - intros c rest -> Hc.
    destruct (decide (rewrite_line new_path (c :: rest) = c :: rest)) as [E|E];
      [assumption|exfalso].
    apply rewrite_line_changes in E
      as (prefix & sep & payload & tail & Hd & _ & _ & _ & E).
    unfold assignment in E.
    destruct Hd as [-> | [-> | ->]]; injection E as -> _; discriminate.
  - intros head tail -> Hq Hs.
    destruct (decide (rewrite_line new_path (head ++ dquote :: tail)
                      = head ++ dquote :: tail)) as [E|E];
      [assumption|exfalso].
    apply rewrite_line_changes in E
      as (prefix & sep & payload & tail' & _ & _ & _ & Ht & E).
    unfold assignment in E.
    replace (prefix ++ lit "VIRTUAL_ENV" ++ [sep] ++ [dquote] ++ payload ++
             [dquote] ++ tail')
      with ((prefix ++ lit "VIRTUAL_ENV" ++ [sep] ++ [dquote] ++ payload) ++
            dquote :: tail') in E by (now rewrite <- !app_assoc).
    apply last_quote_unique in E; [|assumption|now apply spaces_no_quote].
    subst tail'. congruence.
Qed.

Lemma activation_rewrite_anchored_witness :
  rewrite_line (lit "/new") (lit "  VIRTUAL_ENV=" ++ [dquote] ++ lit "/old" ++
                             [dquote] ++ [nl])
  = lit "  VIRTUAL_ENV=" ++ [dquote] ++ lit "/old" ++ [dquote] ++ [nl]
  /\ rewrite_line (lit "/new") (lit "VIRTUAL_ENV=" ++ [dquote] ++ lit "/old" ++
                                [dquote] ++ lit " # old" ++ [nl])
  = lit "VIRTUAL_ENV=" ++ [dquote] ++ lit "/old" ++ [dquote] ++
    lit " # old" ++ [nl].
Proof.
  split.
  - apply (proj1 (proj2 (activation_rewrite_anchored (lit "/new") _))
             " "%char (lit " VIRTUAL_ENV=" ++ [dquote] ++ lit "/old" ++
                       [dquote] ++ [nl])); reflexivity.
  - apply (proj2 (proj2 (activation_rewrite_anchored (lit "/new") _))
             (lit "VIRTUAL_ENV=" ++ [dquote] ++ lit "/old")
             (lit " # old" ++ [nl])).
    + reflexivity.
    + simpl. intuition discriminate.
    + reflexivity.
Defined.

(** ** Encodings *)

Lemma code_byte_of_ascii c : code (byte_of_ascii c) = N_of_ascii c.
Proof. unfold code. now rewrite ascii_of_byte_of_ascii. Qed.

Lemma byte_of_code_code b : byte_of_code (code b) = b.
Proof.
  unfold byte_of_code, code.
  now rewrite ascii_N_embedding, byte_of_ascii_of_byte.
Qed.

Lemma code_byte_of_code n : (n < 256)%N -> code (byte_of_code n) = n.
Proof.
  intros H. unfold byte_of_code. rewrite code_byte_of_ascii.
  now apply N_ascii_embedding.
Qed.

Lemma encode_app enc a b : encode enc (a ++ b) = encode enc a ++ encode enc b.
Proof. apply flat_map_app. Qed.

Lemma encode_cons enc c s : encode enc (c :: s) = encode_char enc c ++ encode enc s.
Proof. reflexivity. Qed.

Lemma encode_concat enc ls :
  encode enc (concat ls) = concat (map (encode enc) ls).
Proof.
  induction ls as [|l ls IH]; [reflexivity|].
  cbn [concat map]. now rewrite encode_app, IH.
Qed.

Lemma decode_utf_8_low b0 r0 :
  (code b0 <? 0x80)%N = true ->
  decode_utf_8 (b0 :: r0) = push (ascii_of_byte b0) (decode_utf_8 r0).
Proof. intros H. cbn [decode_utf_8]. now rewrite H. Qed.

Lemma decode_utf_8_two b0 b1 r1 :
  in_range 0xC2 0xC3 b0 = true -> continuation b1 = true ->
  decode_utf_8 (b0 :: b1 :: r1)
  = push (ascii_of_N ((code b0 - 0xC0) * 64 + (code b1 - 0x80))%N)
         (decode_utf_8 r1).
Proof.
  intros H0 H1. cbn [decode_utf_8]. rewrite H0, H1. cbn [andb].
  destruct (code b0 <? 0x80)%N eqn:E; [|reflexivity].
  unfold in_range in H0. apply andb_prop in H0 as [H0 _].
  apply N.leb_le in H0. apply N.ltb_lt in E. lia.
Qed.

(** Writing and reading back in one encoding gives the text again. *)
Lemma decode_encode enc s : decode enc (encode enc s) = Decoded s.
Proof.
  destruct enc.
  - induction s as [|c s IH]; [reflexivity|].
    cbn [decode] in *. rewrite encode_cons. unfold encode_char.
    destruct (N_of_ascii c <? 0x80)%N eqn:E.
    + cbn [app]. rewrite decode_utf_8_low by (now rewrite code_byte_of_ascii).
      now rewrite IH, ascii_of_byte_of_ascii.
    + apply N.ltb_ge in E. pose proof (N_ascii_bounded c) as Hb.
      set (n := N_of_ascii c) in *.
      assert (Hq : (2 <= n / 64 <= 3)%N).
      { split.
        - apply N.div_le_lower_bound; lia.
        - apply N.lt_succ_r. apply N.Div0.div_lt_upper_bound; lia. }
      assert (Hr : (n mod 64 < 64)%N) by (apply N.mod_lt; lia).
      assert (Hn : n = (64 * (n / 64) + n mod 64)%N) by (apply N.div_mod; lia).
      remember (n / 64)%N as q. remember (n mod 64)%N as r.
      cbn [app]. rewrite decode_utf_8_two.
      * rewrite IH. cbn [push]. f_equal. f_equal.
        rewrite !code_byte_of_code by lia.
        replace ((0xC0 + q - 0xC0) * 64 + (0x80 + r - 0x80))%N with n by lia.
        apply ascii_N_embedding.
      * unfold in_range. rewrite code_byte_of_code by lia.
        apply andb_true_intro. split; apply N.leb_le; lia.
      * unfold continuation, in_range. rewrite code_byte_of_code by lia.
        apply andb_true_intro. split; apply N.leb_le; lia.
  - cbn [decode]. f_equal. unfold encode.
    induction s as [|c s IH]; [reflexivity|].
    cbn. now rewrite IH, ascii_of_byte_of_ascii.
Qed.

Lemma push_Decoded c d s :
  push c d = Decoded s -> exists s', d = Decoded s' /\ s = c :: s'.
Proof. destruct d; try discriminate. intros H. injection H as <-. eauto. Qed.

Lemma beyond_Decoded d s : beyond d <> Decoded s.
Proof. now destruct d. Qed.

Lemma decode_utf_8_inv n b s :
  length b <= n -> decode_utf_8 b = Decoded s -> encode utf_8 s = b.
Proof.
  revert b s. induction n as [|n IH]; intros b s Hn H.
  - destruct b; [|simpl in Hn; lia]. now injection H as <-.
  - destruct b as [|b0 r0]; [now injection H as <-|].
    cbn [length] in Hn. cbn [decode_utf_8] in H.
    destruct (code b0 <? 0x80)%N eqn:E.
    + apply push_Decoded in H as (s' & H & ->).
      assert (Hl : length r0 <= n) by lia.
      rewrite encode_cons, (IH _ _ Hl H). unfold encode_char.
      fold (code b0). now rewrite E, byte_of_ascii_of_byte.
    + destruct r0 as [|b1 r1]; [discriminate|]. cbn [length] in Hn.
      destruct (in_range 0xC2 0xC3 b0 && continuation b1) eqn:E2.
      * apply push_Decoded in H as (s' & H & ->).
        assert (Hl : length r1 <= n) by lia.
        rewrite encode_cons, (IH _ _ Hl H). unfold encode_char.
        apply andb_prop in E2 as [H0 H1]. unfold continuation, in_range in *.
        apply andb_prop in H0 as [H0 H0']. apply andb_prop in H1 as [H1 H1'].
        apply N.leb_le in H0, H0', H1, H1'.
        set (m := ((code b0 - 0xC0) * 64 + (code b1 - 0x80))%N).
        assert (Hm : (0x80 <= m < 256)%N) by (unfold m; lia).
        rewrite N_ascii_embedding by lia.
        destruct (m <? 0x80)%N eqn:Em; [apply N.ltb_lt in Em; lia|].
        assert (Hq : (m / 64 = code b0 - 0xC0)%N).
        { symmetry. apply (N.div_unique m 64 _ (code b1 - 0x80)); unfold m; lia. }
        assert (Hr : (m mod 64 = code b1 - 0x80)%N).
        { symmetry. apply (N.mod_unique m 64 (code b0 - 0xC0)); unfold m; lia. }
        rewrite Hq, Hr.
        replace (0xC0 + (code b0 - 0xC0))%N with (code b0) by lia.
        replace (0x80 + (code b1 - 0x80))%N with (code b1) by lia.
        now rewrite !byte_of_code_code.
      * exfalso.
        destruct (in_range 0xC4 0xDF b0 && continuation b1);
          [now apply beyond_Decoded in H|].
        destruct r1 as [|b2 r2]; [discriminate|].
        destruct (three_bytes b0 b1 && continuation b2);
          [now apply beyond_Decoded in H|].
        destruct r2 as [|b3 r3]; [discriminate|].
        destruct (four_bytes b0 b1 && continuation b2 && continuation b3);
          [now apply beyond_Decoded in H|discriminate].
Qed.

(** A file that decodes holds its text with nothing added: encoding the
    text gives the bytes again. *)
Lemma encode_decode enc b s : decode enc b = Decoded s -> encode enc s = b.
Proof.
  destruct enc; cbn [decode].
  - apply (decode_utf_8_inv (length b)). lia.
  - intros H. injection H as <-. unfold encode.
    induction b as [|x b IH]; [reflexivity|].
    cbn. now rewrite IH, byte_of_ascii_of_byte.
Qed.

(** ** Line ends *)

Lemma universal_newlines_fixed s : no_cr s = true -> universal_newlines s = s.
Proof.
  induction s as [|c s IH]; [reflexivity|]. cbn [no_cr forallb].
  intros H. apply andb_prop in H as [Hc Hs]. apply negb_true_iff in Hc.
  cbn [universal_newlines]. rewrite Hc. f_equal. now apply IH.
Qed.

Lemma universal_newlines_no_cr s : no_cr (universal_newlines s) = true.
Proof.
  assert (H : forall n s, length s <= n -> no_cr (universal_newlines s) = true).
  { clear s. induction n as [|n IH]; intros s Hn.
    - destruct s; [reflexivity|simpl in Hn; lia].
    - destruct s as [|c s]; [reflexivity|]. cbn [length] in Hn.
      cbn [universal_newlines]. destruct (Ascii.eqb c cr) eqn:E.
      + destruct s as [|d s]; [reflexivity|]. cbn [length] in Hn.
        destruct (Ascii.eqb d nl); cbn [no_cr forallb];
          change (negb (Ascii.eqb nl cr)) with true; cbn [andb];
          apply IH; cbn [length]; lia.
      + cbn [no_cr forallb]. rewrite E. cbn [negb andb]. apply IH. lia. }
  now apply (H (length s)).
Qed.


Lemma no_cr_app a b : no_cr (a ++ b) = no_cr a && no_cr b.
Proof. apply forallb_app. Qed.

Lemma no_cr_concat ls : Forall (fun l => no_cr l = true) ls -> no_cr (concat ls) = true.
Proof.
  induction 1 as [|l ls Hl Hls IH]; [reflexivity|].
  cbn [concat]. now rewrite no_cr_app, Hl, IH.
Qed.

Lemma no_cr_lines s : no_cr s = true -> Forall (fun l => no_cr l = true) (readlines s).
Proof.
  induction s as [|c s IH]; [constructor|]. cbn [no_cr forallb].
  intros H. apply andb_prop in H as [Hc Hs]. specialize (IH Hs).
  cbn [readlines]. destruct (Ascii.eqb c nl).
  - constructor; [|assumption]. cbn. now rewrite Hc.
  - destruct (readlines s) as [|l ls]; constructor.
    + cbn. now rewrite Hc.
    + constructor.
    + inversion IH; subst. cbn [no_cr forallb]. rewrite Hc. assumption.
    + now inversion IH.
Qed.

(** ** What the rewriters read and write *)

Lemma update_script_text default script_filename new_path f :
  update_script default script_filename new_path f
  = (let* content := open_read latin_1 f in
     match shebang_text new_path content with
     | None => ret f
     | Some c =>
         let* _ := print (lit "S " ++ script_filename) in
         open_write script_filename default c f
     end).
Proof.
  unfold update_script, shebang_text, new_bin, directive.
  destruct (open_read latin_1 f) as [t [content|e|]]; cbn [bind];
    [|reflexivity|reflexivity].
  destruct (readlines content) as [|line0 rest]; [reflexivity|].
  destruct (negb (startswith line0 (lit "#!"))); [reflexivity|].
  destruct (str_split (str_strip (skipn 2 line0))) as [|arg0 args];
    [reflexivity|].
  destruct (negb (endswith arg0 (lit "/bin/python"))
            || contains arg0 (lit "/usr/bin/env python")); [reflexivity|].
  destruct (str_eqb _ arg0); reflexivity.
Qed.

Lemma update_activation_script_text default script_filename new_path f :
  update_activation_script default script_filename new_path f
  = (let* content := open_read default f in
     match activation_text new_path content with
     | None => ret f
     | Some c =>
         let* _ := print (lit "A " ++ script_filename) in
         open_write script_filename default c f
     end).
Proof.
  unfold update_activation_script, activation_text.
  destruct (open_read default f) as [t [content|e|]]; cbn [bind];
    [|reflexivity|reflexivity].
  destruct (rewrite_lines new_path (readlines content)) as [lines changed].
  destruct changed; reflexivity.
Qed.

Lemma open_read_latin content :
  open_read latin_1 (File content) = ([], Ok (latin_text content)).
Proof. reflexivity. Qed.

Lemma open_read_decoded default content text :
  decode default content = Decoded text ->
  open_read default (File content) = ([], Ok (universal_newlines text)).
Proof. intros H. cbn [open_read follow]. unfold read_text. now rewrite H. Qed.

Lemma activation_text_map new_path content :
  activation_text new_path content
  = let lines := map (rewrite_line new_path) (readlines content) in
    if bool_decide (lines = readlines content) then None
    else Some (writelines lines).
Proof.
  unfold activation_text.
  pose proof (rewrite_lines_map new_path (readlines content)) as Hm.
  pose proof (rewrite_lines_unchanged new_path (readlines content)) as Hu.
  pose proof (rewrite_lines_fixed new_path (readlines content)) as Hf.
  destruct (rewrite_lines new_path (readlines content)) as [lines changed].
  simpl in Hm, Hu. subst lines. cbv zeta. destruct changed.
  - rewrite bool_decide_eq_false_2; [reflexivity|].
    intros E. specialize (Hf E). discriminate.
  - rewrite bool_decide_eq_true_2 by auto. reflexivity.
Qed.

(** The activation rewriter on a file that decodes. *)
Lemma update_activation_script_File default script_filename new_path
    content text :
  decode default content = Decoded text ->
  update_activation_script default script_filename new_path (File content)
  = let lines := readlines (universal_newlines text) in
    let lines' := map (rewrite_line new_path) lines in
    if bool_decide (lines' = lines)
    then ([], Ok (File content))
    else ([Print (lit "A " ++ script_filename); Write script_filename],
          Ok (File (encode default (writelines lines')))).
Proof.
  intros H. rewrite update_activation_script_text.
  rewrite (open_read_decoded _ _ _ H). cbn [bind ret].
  rewrite activation_text_map. cbv zeta.
  destruct (bool_decide _); reflexivity.
Qed.

Lemma rewrite_lines_other new_path lines :
  Forall (fun l => re_match _activation_path_re l = false) lines ->
  map (rewrite_line new_path) lines = lines.
Proof.
  induction 1 as [|l ls Hl Hls IH]; [reflexivity|].
  cbn [map]. now rewrite rewrite_line_other, IH.
Qed.

(** ** The activation-script rewriter on a file *)

(** C1, amended.  In an activation script that decodes in the default
    encoding and has a line that assigns VIRTUAL_ENV in one of the
    recognised shell forms, the rewriter puts the new path in place of the
    quoted payload of that line and keeps every other character of it
    (keyword, variable name, separator, quotes, trailing whitespace).
    Every other line is related by [rewritten]: when no other line is an
    assignment, all other lines are kept as they are.  This is said of the
    text as [open] hands it over, with every line end as LF, and the file
    is written with these line ends: a file whose line ends are LF holds
    the encoded lines before and after, so every byte outside the payload
    is kept, while CR LF and CR come out as LF. *)
Theorem activation_payload_replaced
    (default : encoding) (script_filename new_path : str)
    (content : bytes) (text : str)
    (before after : list str) (prefix : str) (sep : ascii) (old tail : str) :
  decode default content = Decoded text ->
  dialect prefix -> separator sep ->
  forallb dot old = true -> forallb isspace tail = true ->
  readlines (universal_newlines text)
  = before ++ assignment prefix sep old tail :: after ->
  exists before' after',
    Forall2 (rewritten new_path) before before' /\
    Forall2 (rewritten new_path) after after' /\
    (Forall (fun l => re_match _activation_path_re l = false)
            (before ++ after) ->
     before' = before /\ after' = after) /\
    update_activation_script default script_filename new_path (File content)
    = (if bool_decide (before' ++ assignment prefix sep new_path tail :: after'
                       = before ++ assignment prefix sep old tail :: after)
       then ([], Ok (File content))
       else ([Print (lit "A " ++ script_filename); Write script_filename],
             Ok (File (encode default (writelines
                (before' ++ assignment prefix sep new_path tail :: after'))))))
    /\
    (universal_newlines text = text ->
     content = encode default (writelines
                 (before ++ assignment prefix sep old tail :: after))).
Proof.
  intros Hdec Hd Hs Ho Ht Hl.
  exists (map (rewrite_line new_path) before),
         (map (rewrite_line new_path) after).
  split; [apply rewritten_map|]. split; [apply rewritten_map|].
  split; [|split].
  - intros H. apply Forall_app in H as [Hb Ha].
    split; now apply rewrite_lines_other.
  - rewrite (update_activation_script_File _ _ _ _ _ Hdec). cbv zeta.
    rewrite Hl, map_app. cbn [map].
    now rewrite rewrite_line_assignment.
  - intros Hfix. rewrite <- Hl, Hfix. unfold writelines.
    rewrite concat_readlines. symmetry. now apply encode_decode.
Qed.

Lemma activation_payload_replaced_witness :
  exists before' after',
    Forall2 (rewritten (lit "/new/path")) [lit "# activate" ++ [nl]] before' /\
    Forall2 (rewritten (lit "/new/path")) [lit "export VIRTUAL_ENV" ++ [nl]]
            after' /\
    (Forall (fun l => re_match _activation_path_re l = false)
            ([lit "# activate" ++ [nl]] ++ [lit "export VIRTUAL_ENV" ++ [nl]]) ->
     before' = [lit "# activate" ++ [nl]] /\
     after' = [lit "export VIRTUAL_ENV" ++ [nl]]) /\
    update_activation_script utf_8 (lit "./bin/activate") (lit "/new/path")
      (File sample_activate)
    = (if bool_decide
            (before' ++ assignment [] "="%char (lit "/new/path") [nl] :: after'
             = [lit "# activate" ++ [nl]] ++
               assignment [] "="%char (lit "/old/path") [nl]
               :: [lit "export VIRTUAL_ENV" ++ [nl]])
       then ([], Ok (File sample_activate))
       else ([Print (lit "A " ++ lit "./bin/activate");
              Write (lit "./bin/activate")],
             Ok (File (encode utf_8 (writelines
                (before' ++ assignment [] "="%char (lit "/new/path") [nl]
                   :: after'))))))
    /\
    (universal_newlines (map ascii_of_byte sample_activate)
     = map ascii_of_byte sample_activate ->
     sample_activate
     = encode utf_8 (writelines
         ([lit "# activate" ++ [nl]] ++
          assignment [] "="%char (lit "/old/path") [nl]
          :: [lit "export VIRTUAL_ENV" ++ [nl]]))).
Proof.
  apply (activation_payload_replaced utf_8 (lit "./bin/activate")
           (lit "/new/path") sample_activate
           (map ascii_of_byte sample_activate)
           [lit "# activate" ++ [nl]]
           [lit "export VIRTUAL_ENV" ++ [nl]] [] "="%char (lit "/old/path") [nl]).
  - reflexivity.
  - right. right. reflexivity.
  - right. reflexivity.
  - reflexivity.
  - reflexivity.
  - reflexivity.
Defined.

(** C1, the claim as stated fails: in a script with CR LF line ends the
    rewriter does not keep what is outside the payload.  The file is
    written with LF line ends, so the assignment line loses the CR of its
    trailing whitespace and the line after it changes as well. *)
Lemma activation_line_ends_rewritten :
  snd (update_activation_script utf_8 (lit "./bin/activate") (lit "/new/path")
         (File dos_activate))
  = Ok (File (blit "VIRTUAL_ENV=" ++ [DQ] ++ blit "/new/path" ++ [DQ] ++ [LF] ++
              blit "export VIRTUAL_ENV" ++ [LF])) /\
  snd (update_activation_script utf_8 (lit "./bin/activate") (lit "/new/path")
         (File dos_activate))
  <> Ok (File (blit "VIRTUAL_ENV=" ++ [DQ] ++ blit "/new/path" ++ [DQ] ++
               [CR; LF] ++ blit "export VIRTUAL_ENV" ++ [CR; LF])).
Proof. split; [reflexivity|discriminate]. Qed.

(** ** The shebang rewriter on a file *)

(** C3.  A script whose first line is [#!/usr/bin/env python] is left as
    it is, whatever the target path and the default encoding: nothing is
    written and nothing is printed. *)
Theorem env_shebang_untouched
    (default : encoding) (script_filename new_path : str) (rest : bytes) :
  update_script default script_filename new_path
    (File (blit "#!/usr/bin/env python" ++ LF :: rest))
  = ([], Ok (File (blit "#!/usr/bin/env python" ++ LF :: rest))) /\
  update_script default script_filename new_path
    (File (blit "#!/usr/bin/env python"))
  = ([], Ok (File (blit "#!/usr/bin/env python"))).
Proof.
  split; [|reflexivity].
  unfold update_script. rewrite open_read_latin. cbn [bind].
  change (latin_text (blit "#!/usr/bin/env python" ++ LF :: rest))
    with (lit "#!/usr/bin/env python" ++ nl :: latin_text rest).
  rewrite readlines_line by reflexivity. reflexivity.
Qed.

(** The shebang rewriter on a file whose first line names an interpreter
    that ends in [/bin/python]. *)
Lemma update_script_shebang
    (default : encoding) (script_filename new_path : str) (content : bytes)
    (s : str) (rest : list str) (arg0 : str) (args : list str) :
  readlines (latin_text content) = (lit "#!" ++ s) :: rest ->
  str_split s = arg0 :: args ->
  endswith arg0 (lit "/bin/python") = true ->
  update_script default script_filename new_path (File content)
  = if bool_decide (new_bin new_path = arg0)
    then ([], Ok (File content))
    else ([Print (lit "S " ++ script_filename); Write script_filename],
          Ok (File (encode default
                      (writelines (directive new_path args :: rest))))).
Proof.
  intros Hl Hs He.
  unfold update_script. rewrite open_read_latin. cbn [bind]. rewrite Hl.
  rewrite startswith_app. cbn [negb].
  change (skipn 2 (lit "#!" ++ s)) with s.
  rewrite str_split_strip, Hs, He. cbn [negb orb].
  assert (Hw : word arg0).
  { pose proof (str_split_words s) as H. rewrite Hs in H. now inversion H. }
  rewrite (word_no_env arg0) by apply Hw.
  fold (new_bin new_path). unfold str_eqb.
  destruct (bool_decide (new_bin new_path = arg0)); reflexivity.
Qed.




(** ** The orchestrator's checks *)

Lemma find_lib_None root :
  ~ has_python_lib root -> find_lib root = None.
Proof.
  intros H. unfold find_lib.
  destruct (entry (lit "lib") root) as [n|] eqn:En; [|reflexivity].
  destruct (isdir n) eqn:Hn; [|reflexivity].
  destruct (find _ (listdir n)) as [name|] eqn:Ef; [|reflexivity].
  exfalso. apply H. apply find_some in Ef as [Hin Hm].
  now exists n, name.
Qed.

Lemma find_lib_Some root name :
  find_lib root = Some name -> has_python_lib root.
Proof.
  unfold find_lib.
  destruct (entry (lit "lib") root) as [n|] eqn:En; [|discriminate].
  destruct (isdir n) eqn:Hn; [|discriminate].
  intros Ef. apply find_some in Ef as [Hin Hm]. now exists n, name.
Qed.

(** C5, amended.  If the target is not absolute, or [lib/] is no directory
    or has no entry whose name matches the version pattern, or [bin/] is
    no directory, or [bin/python] is no regular file, the flow prints one
    error line, returns [False], and does nothing else: the trace holds
    no write, removal or link, and the tree is the same. *)
Theorem update_paths_rejects
    (default : encoding) (base new_path : str) (root : entries) :
  isabs new_path = false \/ ~ has_python_lib root \/
  isdir_at (entry (lit "bin") root) = false \/
  isfile_at (python_in (entry (lit "bin") root)) = false ->
  exists msg,
    update_paths default base new_path root = ([Print msg], Ok (false, root)).
Proof.
  intros H. unfold update_paths.
  destruct (isabs new_path) eqn:Ha; cbn [negb]; [|eexists; reflexivity].
  destruct H as [H|[H|H]]; [discriminate| |].
  - rewrite (find_lib_None _ H). eexists; reflexivity.
  - destruct (find_lib root); [|eexists; reflexivity].
    destruct H as [-> | ->]; cbn [negb orb];
      rewrite ?orb_true_r; eexists; reflexivity.
Qed.

Lemma update_paths_rejects_witness :
  exists msg,
    update_paths utf_8 (lit ".") (lit "/new") no_interpreter_root
    = ([Print msg], Ok (false, no_interpreter_root)).
Proof.
  apply (update_paths_rejects utf_8 (lit ".") (lit "/new") no_interpreter_root).
  right. right. right. reflexivity.
Defined.

(** C5, the claim as stated fails: here [lib/python3.9] is a regular
    file, so the root has no versioned subdirectory under [lib/], and yet
    the flow goes on, rewrites [bin/pip] and returns [True].  The entry is
    taken by its name alone. *)
Lemma update_paths_accepts_file_as_lib :
  (forall name n, In (name, n) (dir_entries (Dir [(lit "python3.9", File [])])) ->
                  isdir n = false) /\
  update_paths utf_8 (lit ".") (lit "/new") file_as_python_lib
  = ([Print (lit "S ./bin/pip"); Write (lit "./bin/pip")],
     Ok (true,
         [(lit "bin", Dir [(lit "python", File (blit "ELF"));
                           (lit "pip", File (blit "#!/new/bin/python" ++ [x0a]))]);
          (lit "lib", Dir [(lit "python3.9", File [])])])).
Proof.
  split; [|reflexivity].
  intros name n [E|[]]. now injection E as <- <-.
Qed.

(** ** Directory entries *)

Lemma entry_unlink_same name es : entry name (unlink name es) = None.
Proof.
  induction es as [|[fn n] es IH]; [reflexivity|].
  unfold unlink in *. cbn [List.filter fst].
  destruct (str_eqb fn name) eqn:E; cbn [negb entry]; [assumption|].
  now rewrite E.
Qed.

Lemma entry_unlink_other name other es :
  other <> name -> entry other (unlink name es) = entry other es.
Proof.
  intros Hne. induction es as [|[fn n] es IH]; [reflexivity|].
  unfold unlink in *. cbn [List.filter fst].
  destruct (str_eqb fn name) eqn:E; cbn [negb entry].
  - apply str_eqb_true in E. subst fn.
    apply not_eq_sym, str_eqb_false in Hne. now rewrite Hne.
  - now rewrite IH.
Qed.

Lemma entry_app name es es' :
  entry name (es ++ es')
  = match entry name es with Some n => Some n | None => entry name es' end.
Proof.
  induction es as [|[fn n] es IH]; [reflexivity|]. simpl.
  now destruct (str_eqb fn name).
Qed.

Lemma entry_replaced name n es :
  entry name (add_entry name n (unlink name es)) = Some n.
Proof.
  unfold add_entry. rewrite entry_app, entry_unlink_same. simpl.
  now rewrite str_eqb_refl.
Qed.

Lemma entry_replaced_other name other n es :
  other <> name ->
  entry other (add_entry name n (unlink name es)) = entry other es.
Proof.
  intros Hne. unfold add_entry. rewrite entry_app, entry_unlink_other by assumption.
  destruct (entry other es); [reflexivity|]. simpl.
  apply not_eq_sym, str_eqb_false in Hne. now rewrite Hne.
Qed.

(** ** One folder of the link farm *)

Lemma update_local_folder_spec root local_dir les folder :
  exists t les',
    update_local_folder root local_dir les folder = (t, Ok les') /\
    normalized (path_join local_dir [folder]) folder
               (entry folder les) (entry folder les') t /\
    (forall other, other <> folder -> entry other les' = entry other les) /\
    Forall (mentions (path_join local_dir [folder])) t.
Proof.
  unfold update_local_folder, normalized.
  destruct (entry folder les) as [n|] eqn:En.
  - destruct n as [c|es|tgt d]; cbn [islink andb].
    + exists [], les. rewrite En. repeat split; auto; constructor.
    + exists [], les. rewrite En. repeat split; auto; constructor.
    + cbn [readlink]. unfold str_eqb.
      destruct (bool_decide (tgt = lit "../" ++ folder)) eqn:E; cbn [negb].
      * exists [], les. rewrite En. repeat split; auto; constructor.
      * eexists _, _. split; [reflexivity|].
        rewrite entry_replaced. cbn. split; [|split].
        -- split; [eauto|]. tauto.
        -- intros other Hne. now apply entry_replaced_other.
        -- repeat constructor.
  - exists [], les. rewrite En. repeat split; auto; constructor.
Qed.

(** ** Induction on nodes *)

Lemma link_ind (P : node -> Prop) :
  (forall c, P (File c)) ->
  (forall es, P (Dir es)) ->
  (forall t, P (Link t None)) ->
  (forall t d, P d -> P (Link t (Some d))) ->
  forall n, P n.
Proof.
  intros Hf Hd Hn Hl. fix IH 1. intros [c|es|t [d|]].
  - apply Hf.
  - apply Hd.
  - apply Hl, IH.
  - apply Hn.
Qed.

Lemma node_ind (P : node -> Prop) :
  (forall c, P (File c)) ->
  (forall es, Forall (fun e => P (snd e)) es -> P (Dir es)) ->
  (forall t, P (Link t None)) ->
  (forall t d, P d -> P (Link t (Some d))) ->
  forall n, P n.
Proof.
  intros Hf Hd Hn Hl. fix IH 1. intros [c|es|t [d|]].
  - apply Hf.
  - apply Hd. induction es as [|[fn x] es IHes]; constructor.
    + apply IH.
    + apply IHes.
  - apply Hl, IH.
  - apply Hn.
Qed.

(** ** The monad *)

Lemma bind_ok {A B} (m : M A) (k : A -> M B) t a t' r :
  m = (t, Ok a) -> k a = (t', r) -> bind m k = (t ++ t', r).
Proof. intros -> H. unfold bind. now rewrite H. Qed.

Lemma bind_ret_r {A} (m : M A) t a :
  m = (t, Ok a) -> bind m ret = (t, Ok a).
Proof. intros ->. unfold bind, ret. now rewrite app_nil_r. Qed.

(** ** Running inside a directory *)

Lemma in_dir_isdir (f : entries -> M entries) n t les' :
  isdir n = true ->
  f (dir_entries n) = (t, Ok les') ->
  exists n', in_dir f n = (t, Ok n') /\ dir_entries n' = les' /\
             isdir n' = true /\ islink n' = islink n.
Proof.
  induction n as [c|es|tg|tg d IH] using link_ind; intros Hd Hf;
    try discriminate.
  - exists (Dir les'). cbn [in_dir]. unfold dir_entries in Hf. cbn in Hf.
    rewrite (bind_ok _ _ _ _ [] (Ok (Dir les')) Hf eq_refl).
    rewrite app_nil_r. auto.
  - destruct (IH Hd Hf) as (d' & E & Hes & Hd' & _).
    exists (Link tg (Some d')). cbn [in_dir].
    rewrite (bind_ok _ _ _ _ [] (Ok (Link tg (Some d'))) E eq_refl).
    rewrite app_nil_r. auto.
Qed.

Lemma in_dir_not_dir (f : entries -> M entries) n :
  isdir n = false -> in_dir f n = ([], Ok n).
Proof.
  induction n as [c|es|tg|tg d IH] using link_ind; intros Hd;
    try discriminate; try reflexivity.
  cbn [in_dir]. now rewrite (IH Hd).
Qed.

Lemma at_entry_found name (f : node -> M node) es n t n' :
  entry name es = Some n -> f n = (t, Ok n') ->
  exists es', at_entry name f es = (t, Ok es') /\
    entry name es' = Some n' /\
    (forall other, other <> name -> entry other es' = entry other es) /\
    map fst es' = map fst es.
Proof.
  intros He Hf. induction es as [|[fn x] es IH]; [discriminate|].
  cbn [entry at_entry] in *. destruct (str_eqb fn name) eqn:E.
  - injection He as ->. apply str_eqb_true in E. subst fn.
    exists ((name, n') :: es).
    rewrite (bind_ok _ _ _ _ [] (Ok ((name, n') :: es)) Hf eq_refl).
    rewrite app_nil_r. cbn [entry]. rewrite str_eqb_refl.
    repeat split; auto. intros other Hne.
    apply not_eq_sym, str_eqb_false in Hne. now rewrite Hne.
  - destruct (IH He) as (es' & Ea & Hn & Ho & Hm).
    exists ((fn, x) :: es').
    rewrite (bind_ok _ _ _ _ [] (Ok ((fn, x) :: es')) Ea eq_refl).
    rewrite app_nil_r. cbn [entry map fst]. rewrite E, Hm.
    repeat split; auto. intros other Hne.
    destruct (str_eqb fn other); auto.
Qed.

Lemma at_entry_missing name (f : node -> M node) es :
  entry name es = None -> at_entry name f es = ([], Ok es).
Proof.
  induction es as [|[fn x] es IH]; [reflexivity|].
  cbn [entry at_entry]. destruct (str_eqb fn name); [discriminate|].
  intros H. now rewrite (IH H).
Qed.

(** ** Paths *)

Lemma path_join_relative dir name :
  startswith name [slash] = false ->
  path_join dir [name] = dir_prefix dir ++ name.
Proof.
  intros H. unfold path_join, dir_prefix. cbn [fold_left].
  unfold path_join2. rewrite H.
  destruct (str_eqb dir [] || endswith dir [slash]); [reflexivity|].
  now rewrite <- app_assoc.
Qed.

Lemma path_join_inj dir a b :
  startswith a [slash] = false -> startswith b [slash] = false ->
  path_join dir [a] = path_join dir [b] -> a = b.
Proof.
  intros Ha Hb. rewrite !path_join_relative by assumption.
  apply app_inv_head.
Qed.

(** ** The link farm *)

Lemma mentions_untouched p q t :
  Forall (mentions p) t -> p <> q -> untouched q t.
Proof.
  intros H Hne. unfold untouched. induction H as [|e t He Ht IH]; constructor; auto.
  destruct e; simpl in *; congruence.
Qed.

Lemma normalized_extend filename folder b a t pre post :
  normalized filename folder b a t ->
  untouched filename pre -> untouched filename post ->
  normalized filename folder b a (pre ++ t ++ post).
Proof.
  unfold normalized, untouched. intros H Hpre Hpost.
  assert (Hu : Forall (fun e => ~ touches filename e) t ->
               Forall (fun e => ~ touches filename e) (pre ++ t ++ post)).
  { intros Ht. apply Forall_app. split; [assumption|].
    apply Forall_app. now split. }
  assert (Hin : forall e, In e t -> In e (pre ++ t ++ post)).
  { intros e He. apply in_or_app. right. apply in_or_app. now left. }
  destruct b as [[c|es|tgt d]|]; try (destruct H; split; auto).
  destruct (bool_decide (tgt = lit "../" ++ folder)).
  - destruct H; split; auto.
  - destruct H as (H1 & H2 & H3 & H4). repeat split; auto.
Qed.

Lemma local_folders_spec root local_dir les :
  exists t les',
    foldM (update_local_folder root local_dir) FOLDERS les = (t, Ok les') /\
    forall folder, In folder FOLDERS ->
      normalized (path_join local_dir [folder]) folder
                 (entry folder les) (entry folder les') t.
Proof.
  destruct (update_local_folder_spec root local_dir les (lit "bin"))
    as (t1 & l1 & E1 & N1 & F1 & M1).
  destruct (update_local_folder_spec root local_dir l1 (lit "lib"))
    as (t2 & l2 & E2 & N2 & F2 & M2).
  destruct (update_local_folder_spec root local_dir l2 (lit "include"))
    as (t3 & l3 & E3 & N3 & F3 & M3).
  exists (t1 ++ t2 ++ t3), l3. split.
  - unfold FOLDERS. cbn [foldM].
    rewrite (bind_ok _ _ _ _ (t2 ++ t3) (Ok l3) E1); [reflexivity|].
    rewrite (bind_ok _ _ _ _ t3 (Ok l3) E2); [reflexivity|].
    apply bind_ret_r, E3.
  - assert (Hne : forall a b, In a FOLDERS -> In b FOLDERS -> a <> b ->
                    path_join local_dir [a] <> path_join local_dir [b]).
    { intros a b Ha Hb Hab E. apply Hab.
      apply (path_join_inj local_dir); [| |assumption].
      - destruct Ha as [<-|[<-|[<-|[]]]]; reflexivity.
      - destruct Hb as [<-|[<-|[<-|[]]]]; reflexivity. }
    intros folder [<-|[<-|[<-|[]]]].
    + rewrite (F3 (lit "bin")), (F2 (lit "bin")) by discriminate.
      apply (normalized_extend _ _ _ _ t1 [] (t2 ++ t3)); [assumption|constructor|].
      apply Forall_app; split.
      * apply (mentions_untouched _ _ _ M2).
        apply Hne; unfold FOLDERS; simpl; auto; discriminate.
      * apply (mentions_untouched _ _ _ M3).
        apply Hne; unfold FOLDERS; simpl; auto; discriminate.
    + rewrite (F3 (lit "lib")) by discriminate.
      rewrite <- (F1 (lit "lib")) by discriminate.
      apply (normalized_extend _ _ _ _ t2 t1 t3); [assumption| |].
      * apply (mentions_untouched _ _ _ M1).
        apply Hne; unfold FOLDERS; simpl; auto; discriminate.
      * apply (mentions_untouched _ _ _ M3).
        apply Hne; unfold FOLDERS; simpl; auto; discriminate.
    + rewrite <- (F1 (lit "include")), <- (F2 (lit "include")) by discriminate.
      replace (t1 ++ t2 ++ t3) with ((t1 ++ t2) ++ t3 ++ [])
        by (now rewrite app_nil_r, app_assoc).
      apply (normalized_extend _ _ _ _ t3 (t1 ++ t2) []); [assumption| |constructor].
      apply Forall_app; split.
      * apply (mentions_untouched _ _ _ M1).
        apply Hne; unfold FOLDERS; simpl; auto; discriminate.
      * apply (mentions_untouched _ _ _ M2).
        apply Hne; unfold FOLDERS; simpl; auto; discriminate.
Qed.

(** C7, amended.  On a root with a [local/] directory, each of [bin],
    [lib], [include] that is a symbolic link in [local/] is afterwards a
    link to [../<name>]: one that pointed there already is the same entry
    and no event touches its path; one that pointed elsewhere was removed
    and created anew, with its notice.  A name that is missing from
    [local/], or is no symbolic link, is left as it was. *)
Theorem link_farm_normalized (base new_path : str) (root : entries)
    (local : node) :
  entry (lit "local") root = Some local ->
  isdir local = true ->
  exists t root' local',
    update_local base new_path root = (t, Ok root') /\
    entry (lit "local") root' = Some local' /\
    isdir local' = true /\
    forall folder, In folder FOLDERS ->
      normalized (path_join (path_join base [lit "local"]) [folder]) folder
                 (entry folder (dir_entries local))
                 (entry folder (dir_entries local')) t.
Proof.
  intros He Hd.
  destruct (local_folders_spec root (path_join base [lit "local"])
              (dir_entries local)) as (t & les' & Ef & Hn).
  destruct (in_dir_isdir _ _ _ _ Hd Ef) as (local' & Ei & Hes & Hd' & _).
  destruct (at_entry_found _ _ _ _ _ _ He Ei) as (root' & Ea & Hl & _).
  exists t, root', local'. unfold update_local. rewrite He. cbn [isdir_at].
  rewrite Hd. cbn [negb]. fold FOLDERS. rewrite Hes. auto.
Qed.

Lemma link_farm_normalized_witness :
  exists t root' local',
    update_local (lit ".") (lit "/new") sample_farm = (t, Ok root') /\
    entry (lit "local") root' = Some local' /\
    isdir local' = true /\
    forall folder, In folder FOLDERS ->
      normalized (path_join (path_join (lit ".") [lit "local"]) [folder]) folder
        (entry folder
           [(lit "bin", Link (lit "../wrong") None);
            (lit "lib", Link (lit "../lib") None);
            (lit "include", File [])])
        (entry folder (dir_entries local')) t.
Proof.
  apply (link_farm_normalized (lit ".") (lit "/new") sample_farm
           (Dir [(lit "bin", Link (lit "../wrong") None);
                 (lit "lib", Link (lit "../lib") None);
                 (lit "include", File [])])); reflexivity.
Defined.

(** C7, the claim as stated fails: with an empty [local/] directory the
    normalizer does nothing, and no link exists at [local/bin]
    afterwards; a regular file at [local/bin] stays a regular file. *)
Lemma link_farm_missing_link_not_created :
  update_local (lit ".") (lit "/new") [(lit "local", Dir [])]
  = ([], Ok [(lit "local", Dir [])]) /\
  entry (lit "bin") (dir_entries (Dir [])) = None /\
  update_local (lit ".") (lit "/new")
    [(lit "local", Dir [(lit "bin", File [])])]
  = ([], Ok [(lit "local", Dir [(lit "bin", File [])])]).
Proof. repeat split. Qed.

(** ** Reinitialisation *)

Lemma distribute_flags_repeat args filenames :
  distribute_flags args filenames
  = args ++ repeat (lit "--distribute")
                   (length (List.filter is_distribute_egg filenames)).
Proof.
  revert args. induction filenames as [|fn fns IH]; intros args.
  - simpl. now rewrite app_nil_r.
  - cbn [distribute_flags List.filter]. fold (is_distribute_egg fn).
    destruct (is_distribute_egg fn); [|apply IH].
    rewrite IH, <- app_assoc. reflexivity.
Qed.

Lemma filter_env_lookup (environ : gmap str str) (key : str) :
  filter_env environ !! key
  = if startswith key (lit "VIRTUALENV_") then None else environ !! key.
Proof.
  unfold filter_env. revert key.
  apply (map_fold_weak_ind
    (fun (r : gmap str str) (m : gmap str str) =>
       forall key, r !! key
         = if startswith key (lit "VIRTUALENV_") then None else m !! key)).
  - intros key. rewrite !lookup_empty. now destruct (startswith _ _).
  - intros i x m r Hi IH key.
    destruct (decide (key = i)) as [->|Hne].
    + destruct (startswith i (lit "VIRTUALENV_")) eqn:E; cbn [negb].
      * rewrite IH, E. reflexivity.
      * now rewrite !lookup_insert_eq.
    + rewrite (lookup_insert_ne m) by auto.
      destruct (startswith i (lit "VIRTUALENV_")); cbn [negb].
      * apply IH.
      * rewrite lookup_insert_ne by auto. apply IH.
Qed.

Lemma reinitialize_virtualenv_outcome path substitute_python root environ :
  reinit_outcome path substitute_python root environ
    (reinitialize_virtualenv path substitute_python root environ).
Proof.
  unfold reinitialize_virtualenv.
  destruct (isdir_at (entry (lit "lib") root)); cbn [negb];
    [|apply reinit_refused].
  destruct (find_lib root) as [py_ver|] eqn:Ef; [|apply reinit_refused].
  assert (Hv : versioned_lib root
               = python_lib (entry (lit "lib") root) py_ver).
  { unfold versioned_lib. now rewrite Ef. }
  destruct (python_lib (entry (lit "lib") root) py_ver) as [lib_dir|];
    [|apply reinit_raised].
  unfold listdir_at.
  destruct (follow lib_dir) as [[c|es|tg d]|] eqn:El;
    try apply reinit_raised.
  cbn [bind ret emit].
  rewrite distribute_flags_repeat.
  assert (Hl : map fst es = listdir lib_dir).
  { unfold listdir, dir_entries. now rewrite El. }
  rewrite Hl.
  destruct (isfile_at _); cbn [negb].
  - rewrite <- app_assoc.
    apply (reinit_spawned _ _ _ _ lib_dir []); auto.
  - rewrite <- !app_assoc.
    apply (reinit_spawned _ _ _ _ lib_dir [lit "--system-site-packages"]); auto.
Qed.

(** A root whose versioned library directory is a directory gets its
    child process. *)
Lemma reinitialize_virtualenv_spawns
    (path substitute_python : str) (root : entries) (environ : gmap str str)
    (lib_dir : node) :
  versioned_lib root = Some lib_dir ->
  isdir lib_dir = true ->
  exists args,
    reinitialize_virtualenv path substitute_python root environ
    = ([Popen args (filter_env environ)], Ok (None, environ)).
Proof.
  intros Hv Hd. unfold versioned_lib in Hv.
  destruct (find_lib root) as [py_ver|] eqn:Ef; [|discriminate].
  unfold reinitialize_virtualenv. rewrite Ef, Hv.
  assert (Hl : isdir_at (entry (lit "lib") root) = true).
  { unfold find_lib in Ef. destruct (entry (lit "lib") root) as [n|];
      [|discriminate]. cbn [isdir_at]. now destruct (isdir n). }
  rewrite Hl. cbn [negb]. unfold listdir_at.
  unfold isdir in Hd.
  destruct (follow lib_dir) as [[c|es|tg d]|]; try discriminate.
  cbn [bind ret emit]. eexists. reflexivity.
Qed.

(** C8.  On an environment whose versioned library directory
    [lib/pythonX.Y] is a directory, the reinitializer starts one child
    process, and the environment it passes holds exactly the variables of
    [os.environ] whose names do not start with [VIRTUALENV_], each with
    its value; [os.environ] itself is the same mapping after the call. *)
Theorem spawn_environment_filtered
    (path substitute_python : str) (root : entries) (environ : gmap str str)
    (lib_dir : node) :
  versioned_lib root = Some lib_dir ->
  isdir lib_dir = true ->
  exists args env,
    reinitialize_virtualenv path substitute_python root environ
    = ([Popen args env], Ok (None, environ)) /\
    forall key, env !! key
      = if startswith key (lit "VIRTUALENV_") then None else environ !! key.
Proof.
  intros Hv Hd.
  destruct (reinitialize_virtualenv_spawns path substitute_python root environ
              lib_dir Hv Hd) as (args & E).
  exists args, (filter_env environ). split; [exact E|].
  apply filter_env_lookup.
Qed.

Lemma spawn_environment_filtered_witness :
  exists args env,
    reinitialize_virtualenv (lit ".") (lit "/usr/bin/python2.7")
      sample_env sample_environ
    = ([Popen args env], Ok (None, sample_environ)) /\
    forall key, env !! key
      = if startswith key (lit "VIRTUALENV_") then None
        else sample_environ !! key.
Proof.
  apply (spawn_environment_filtered (lit ".") (lit "/usr/bin/python2.7")
           sample_env sample_environ
           (Dir [(lit "distribute-0.6.24-py2.7.egg", Dir []);
                 (lit "site.py", File []);
                 (lit "distribute-0.6.10-py2.7.egg", Dir []);
                 (lit "no-global-site-packages.txt", File [])]));
    reflexivity.
Defined.

Lemma count_flags (python : str) (site : list str) (n : nat) (path : str) :
  python <> lit "--distribute" -> path <> lit "--distribute" ->
  site = [] \/ site = [lit "--system-site-packages"] ->
  length (List.filter (str_eqb (lit "--distribute"))
            ([lit "virtualenv"; lit "-p"; python] ++ site ++
             repeat (lit "--distribute") n ++ [path])) = n.
Proof.
  intros Hp Hpath Hs.
  assert (Hrep : forall k, List.filter (str_eqb (lit "--distribute"))
                   (repeat (lit "--distribute") k)
                 = repeat (lit "--distribute") k).
  { induction k as [|k IH]; [reflexivity|]. cbn [repeat List.filter].
    rewrite str_eqb_refl. now rewrite IH. }
  apply not_eq_sym, str_eqb_false in Hp.
  apply not_eq_sym, str_eqb_false in Hpath.
  assert (Hsite : List.filter (str_eqb (lit "--distribute")) site = [])
    by (destruct Hs as [-> | ->]; reflexivity).
  rewrite !List.filter_app, !length_app, Hrep, repeat_length, Hsite.
  cbn [List.filter]. rewrite Hp, Hpath.
  change (str_eqb (lit "--distribute") (lit "virtualenv")) with false.
  change (str_eqb (lit "--distribute") (lit "-p")) with false.
  simpl. lia.
Qed.

(** C10.  The argument list of the child process is [virtualenv -p
    <python>], the site-packages flag if there is no marker file, then
    [--distribute] once for every entry of the versioned library directory
    whose name starts with [distribute-] and ends with [.egg], then the
    path: with n such entries the flag is appended n times. *)
Theorem distribute_flag_per_egg
    (path substitute_python : str) (root : entries) (environ : gmap str str)
    (t : list event) (r : result (option bool * gmap str str))
    (args : list str) (env : gmap str str) :
  reinitialize_virtualenv path substitute_python root environ = (t, r) ->
  In (Popen args env) t ->
  exists lib_dir site,
    versioned_lib root = Some lib_dir /\
    (site = [] \/ site = [lit "--system-site-packages"]) /\
    let n := length (List.filter is_distribute_egg (listdir lib_dir)) in
    args = [lit "virtualenv"; lit "-p"; substitute_python] ++ site ++
           repeat (lit "--distribute") n ++ [path] /\
    (substitute_python <> lit "--distribute" -> path <> lit "--distribute" ->
     length (List.filter (str_eqb (lit "--distribute")) args) = n).
Proof.
  intros E Hin.
  pose proof (reinitialize_virtualenv_outcome path substitute_python root environ)
    as H.
  rewrite E in H. inversion H as [msg|e|lib_dir site Hv Hs]; subst.
  - destruct Hin as [Hin|[]]. discriminate.
  - destruct Hin.
  - destruct Hin as [Hin|[]]. injection Hin as <- _.
    exists lib_dir, site. split; [assumption|]. split; [assumption|].
    cbv zeta. split; [reflexivity|]. intros Hp Hpath.
    now apply count_flags.
Qed.

Lemma distribute_flag_per_egg_witness :
  exists lib_dir site,
    versioned_lib sample_env = Some lib_dir /\
    (site = [] \/ site = [lit "--system-site-packages"]) /\
    let n := length (List.filter is_distribute_egg (listdir lib_dir)) in
    [lit "virtualenv"; lit "-p"; lit "/usr/bin/python2.7";
     lit "--distribute"; lit "--distribute"; lit "."]
    = [lit "virtualenv"; lit "-p"; lit "/usr/bin/python2.7"] ++ site ++
      repeat (lit "--distribute") n ++ [lit "."] /\
    (lit "/usr/bin/python2.7" <> lit "--distribute" ->
     lit "." <> lit "--distribute" ->
     length (List.filter (str_eqb (lit "--distribute"))
               [lit "virtualenv"; lit "-p"; lit "/usr/bin/python2.7";
                lit "--distribute"; lit "--distribute"; lit "."]) = n).
Proof.
  apply (distribute_flag_per_egg (lit ".") (lit "/usr/bin/python2.7")
           sample_env sample_environ
           [Popen [lit "virtualenv"; lit "-p"; lit "/usr/bin/python2.7";
                   lit "--distribute"; lit "--distribute"; lit "."]
                  (filter_env sample_environ)]
           (Ok (None, sample_environ)) _ (filter_env sample_environ)).
  - reflexivity.
  - left. reflexivity.
Defined.

(** ** The bytecode invalidator *)

Lemma walk_Dir dirname es :
  walk dirname (Dir es)
  = let '(here, below, es') := scan dirname es in (here ++ below, Dir es').
Proof. reflexivity. Qed.

Lemma at_path_nonempty es p x : at_path es p x -> p <> [].
Proof. now destruct 1. Qed.

Lemma basename_cons fn q : q <> [] -> basename (fn :: q) = basename q.
Proof. unfold basename. now destruct q. Qed.

Lemma at_path_cons fn y l p x :
  at_path ((fn, y) :: l) p x <->
  (p = [fn] /\ x = y) \/
  (exists sub q, y = Dir sub /\ p = fn :: q /\ at_path sub q x) \/
  at_path l p x.
Proof.
  split.
  - intros H. remember ((fn, y) :: l) as es eqn:Ees.
    destruct H as [es f z Hin|es f sub q z Hin Hq]; subst es.
    + destruct Hin as [E|Hin]; [injection E as <- <-; auto|].
      right. right. now constructor.
    + destruct Hin as [E|Hin].
      * injection E as -> ->. right. left. eauto.
      * right. right. econstructor 2; eauto.
  - intros [[-> ->]|[(sub & q & -> & -> & Hq)|H]].
    + constructor. now left.
    + econstructor 2; [now left|assumption].
    + inversion H; subst.
      * constructor. now right.
      * econstructor 2; [right; eassumption|assumption].
Qed.

Lemma at_path_nil p x : ~ at_path [] p x.
Proof. intros H. inversion H; subst; contradiction. Qed.

Lemma path_join_cons dirname fn q :
  path_join dirname (fn :: q) = path_join (path_join dirname [fn]) q.
Proof. reflexivity. Qed.

Lemma scan_cons_dir dirname fn sub l :
  scan dirname ((fn, Dir sub) :: l)
  = let '(here, below, l') := scan dirname l in
    let (t, x') := walk (path_join dirname [fn]) (Dir sub) in
    (here, t ++ below, (fn, x') :: l').
Proof. reflexivity. Qed.

Lemma scan_cons_leaf dirname fn x l :
  leaf x ->
  scan dirname ((fn, x) :: l)
  = let '(here, below, l') := scan dirname l in
    if negb (isdir x) && is_pyc fn
    then (fst (remove_pyc (path_join dirname [fn])) ++ here, below, l')
    else (here, below, (fn, x) :: l').
Proof.
  intros Hx. destruct x as [c|sub|tg d]; try reflexivity.
  now destruct (Hx sub).
Qed.

Lemma leaf_or_dir x : leaf x \/ exists sub, x = Dir sub.
Proof. destruct x; [left|right|left]; try discriminate; eauto. Qed.

(** The cases of [at_path_cons] that cannot be, for a path to a file. *)
Ltac at_head H :=
  apply at_path_cons in H
    as [[-> ->]|[(?sub & ?q & ?E & -> & H)|H]];
  [|try (injection E as <-); try (exfalso; eapply E; fail);
    try (exfalso; match goal with L : leaf _ |- _ => now apply (L sub) end)|].

Lemma scan_ok dirname es :
  Forall (fun e => walked (snd e)) es ->
  exists here below es',
    scan dirname es = (here, below, es') /\
    walk_ok dirname es (here ++ below) es'.
Proof.
  induction 1 as [|[fn x] l Hx Hl (hl & bl & l' & El & Hat & Hev)].
  - exists [], [], []. split; [reflexivity|]. split.
    + intros p x _. split; [intros H|intros [H _]]; now apply at_path_nil in H.
    + intros e. split; [intros []|].
      intros (p & x & H & _). now apply at_path_nil in H.
  - cbn [snd] in Hx. destruct (leaf_or_dir x) as [Lx|(sub & ->)].
    + (* a file or a symbolic link *)
      rewrite scan_cons_leaf, El by assumption.
      destruct (negb (isdir x) && is_pyc fn) eqn:Erm.
      * (* with a bytecode name: removed *)
        apply andb_prop in Erm as [Hnd Epyc]. apply negb_true_iff in Hnd.
        eexists _, _, _. split; [reflexivity|]. split.
        -- intros p y Hy. rewrite Hat by assumption. split.
           ++ intros [H Hp]. split; [|assumption].
              apply at_path_cons. auto.
           ++ intros [H Hp]. split; [|assumption]. at_head H; [|assumption].
              unfold basename in Hp. simpl in Hp. congruence.
        -- intros e. cbn [remove_pyc print emit bind fst app In].
           rewrite Hev. split.
           ++ intros [<-|[<-|(p & y & H & Hr)]].
              ** exists [fn], x. rewrite at_path_cons. auto 10.
              ** exists [fn], x. rewrite at_path_cons. auto 10.
              ** exists p, y. rewrite at_path_cons. tauto.
           ++ intros (p & y & H & Hd & Hp & He). at_head H.
              ** destruct He as [-> | ->]; auto.
              ** right. right. eauto 10.
      * (* kept *)
        eexists _, _, _. split; [reflexivity|]. split.
        -- intros p y Hy. split.
           ++ intros H. at_head H.
              ** rewrite Hy in Erm. split; [apply at_path_cons; auto|].
                 exact Erm.
              ** apply Hat in H as [H Hp]; [|assumption].
                 split; [apply at_path_cons; auto|assumption].
           ++ intros [H Hp]. at_head H.
              ** apply at_path_cons. auto.
              ** apply at_path_cons. right. right. apply Hat; auto.
        -- intros e. rewrite Hev. split.
           ++ intros (p & y & H & Hr). exists p, y. rewrite at_path_cons. tauto.
           ++ intros (p & y & H & Hd & Hp & He). at_head H; [|eauto 10].
              rewrite Hd in Erm. unfold basename in Hp. simpl in Hp, Erm.
              congruence.
    + (* a directory *)
      destruct (Hx (path_join dirname [fn]) sub eq_refl)
        as (t & sub' & Ew & Hats & Hevs).
      rewrite scan_cons_dir, El, Ew.
      eexists _, _, _. split; [reflexivity|]. split.
      * intros p y Hy. rewrite !at_path_cons, Hat by assumption. split.
        -- intros [[-> ->]|[(s & q & E & -> & H)|H]];
             [discriminate| |tauto].
           injection E as <-. apply Hats in H; [|assumption].
           destruct H as [H Hp]. split.
           ++ right. left. eauto.
           ++ rewrite basename_cons; [assumption|].
              eapply at_path_nonempty; eassumption.
        -- intros [[[-> ->]|[(s & q & E & -> & H)|H]] Hp];
             [discriminate| |tauto].
           injection E as <-. right. left. exists sub', q.
           repeat split. apply Hats; [assumption|]. split; [assumption|].
           rewrite basename_cons in Hp; [assumption|].
           eapply at_path_nonempty; eassumption.
      * intros e.
        assert (Hperm : In e (hl ++ t ++ bl) <-> In e t \/ In e (hl ++ bl)).
        { rewrite !in_app_iff. tauto. }
        rewrite Hperm, Hev, Hevs. split.
        -- intros [(q & y & H & Hd & Hp & He)|(p & y & H & Hr)].
           ++ exists (fn :: q), y. rewrite at_path_cons, path_join_cons.
              rewrite basename_cons by (eapply at_path_nonempty; eassumption).
              split; [right; left; eauto|auto].
           ++ exists p, y. rewrite at_path_cons. tauto.
        -- intros (p & y & H & Hd & Hp & He).
           apply at_path_cons in H as [[-> ->]|[(s & q & E & -> & H)|H]];
             [discriminate| |eauto 10].
           injection E as <-. left. exists q, y.
           rewrite basename_cons in Hp
             by (eapply at_path_nonempty; eassumption).
           rewrite path_join_cons in He. auto.
Qed.

Lemma walk_walked n : walked n.
Proof.
  induction n as [c|es IH|tg|tg d _] using node_ind;
    intros dirname es0 E; try discriminate.
  injection E as <-.
  destruct (scan_ok dirname es IH) as (here & below & es' & Es & Hok).
  exists (here ++ below), es'. split; [|assumption].
  rewrite walk_Dir, Es. reflexivity.
Qed.

Lemma walk_entries_ok dirname es :
  exists t es', walk_entries dirname es = (t, es') /\ walk_ok dirname es t es'.
Proof.
  destruct (walk_walked (Dir es) dirname es eq_refl) as (t & es' & Ew & Hok).
  exists t, es'. unfold walk_entries. now rewrite Ew.
Qed.

(** C6.  After the invalidator has run over the library directory, the
    files below it (anything [os.walk] lists as a file, at any depth) are
    the files that were there and whose names end in neither [.pyc] nor
    [.pyo], unchanged; and the trace is made of the notice [D path] and
    the removal of [path] for the files whose names do. *)
Theorem bytecode_removed (lib_dir new_path lib_name : str) (es : entries) :
  exists t es',
    remove_pycs lib_dir new_path lib_name (Dir es) = (t, Ok (Dir es')) /\
    (forall p x, isdir x = false ->
       (at_path es' p x <-> at_path es p x /\ is_pyc (basename p) = false)) /\
    (forall p x, at_path es p x -> isdir x = false ->
       is_pyc (basename p) = true ->
       In (Print (lit "D " ++ path_join lib_dir p)) t /\
       In (Remove (path_join lib_dir p)) t) /\
    (forall e, In e t ->
       exists p x, at_path es p x /\ isdir x = false /\
         is_pyc (basename p) = true /\
         (e = Print (lit "D " ++ path_join lib_dir p) \/
          e = Remove (path_join lib_dir p))).
Proof.
  destruct (walk_entries_ok lib_dir es) as (t & es' & Ew & Hat & Hev).
  exists t, es'. split; [|split; [assumption|split]].
  - unfold remove_pycs. cbn [in_dir]. rewrite Ew.
    unfold bind, ret. now rewrite app_nil_r.
  - intros p x Hp Hd Hn. split; apply Hev; eauto 10.
  - intros e He. now apply Hev.
Qed.

(** ** Running the flow twice *)

(** *** Lines *)

Lemma readlines_tail c l rest :
  readlines c = l :: rest -> readlines (concat rest) = rest.
Proof.
  revert l rest. induction c as [|x c IH]; intros l rest H; [discriminate|].
  simpl in H. destruct (Ascii.eqb x nl).
  - injection H as _ <-. now rewrite concat_readlines.
  - destruct (readlines c) as [|l0 ls] eqn:E.
    + injection H as _ <-. reflexivity.
    + injection H as _ <-. now apply (IH l0).
Qed.

Lemma proper_readlines c : proper (readlines c).
Proof.
  induction c as [|x c IH]; [constructor|]. simpl.
  destruct (Ascii.eqb x nl) eqn:Ex.
  - apply ascii_eqb_true in Ex. subst x.
    apply proper_cons; [|assumption]. now exists [].
  - assert (Hx : dot x = true) by (unfold dot; now rewrite Ex).
    destruct (readlines c) as [|l ls].
    + apply proper_last. split; [discriminate|]. simpl. now rewrite Hx.
    + inversion IH as [|l' [Hne Hd]|l' ls' (body & -> & Hb) Hls]; subst.
      * apply proper_last. split; [discriminate|]. simpl. now rewrite Hx, Hd.
      * apply proper_cons; [|assumption]. exists (x :: body).
        split; [reflexivity|]. simpl. now rewrite Hx, Hb.
Qed.

Lemma readlines_proper ls : proper ls -> readlines (concat ls) = ls.
Proof.
  induction 1 as [|l [Hne Hd]|l ls (body & -> & Hb) Hls IH].
  - reflexivity.
  - simpl. rewrite app_nil_r. now apply readlines_last.
  - simpl. rewrite <- app_assoc. simpl.
    rewrite readlines_line by assumption. now rewrite IH.
Qed.

Lemma nospace_dot s : nospace s = true -> forallb dot s = true.
Proof.
  unfold nospace. rewrite !forallb_forall. intros H x Hx.
  specialize (H x Hx). unfold dot.
  destruct (Ascii.eqb x nl) eqn:E; [|reflexivity].
  apply ascii_eqb_true in E. subst x. discriminate.
Qed.

Lemma nospace_app a b : nospace (a ++ b) = nospace a && nospace b.
Proof. apply forallb_app. Qed.

Lemma nospace_join toks :
  Forall word toks -> forallb dot (str_join [space] toks) = true.
Proof.
  induction 1 as [|t toks [_ Ht] Hts IH]; [reflexivity|].
  destruct toks as [|t2 toks].
  - simpl. now apply nospace_dot.
  - change (str_join [space] (t :: t2 :: toks))
      with (t ++ [space] ++ str_join [space] (t2 :: toks)).
    rewrite !forallb_app, IH, (nospace_dot _ Ht). reflexivity.
Qed.

(** *** Files *)

Lemma follow_written c n :
  follow (written c n)
  = match follow n with Some (File _) => Some (File c) | o => o end.
Proof.
  induction n as [c0|es|tg|tg d IH] using link_ind; try reflexivity.
  cbn [written follow]. exact IH.
Qed.

Lemma isfile_written c n : isfile (written c n) = isfile n.
Proof.
  unfold isfile. rewrite follow_written.
  now destruct (follow n) as [[| |]|].
Qed.

Lemma bind_inv {A B} (m : M A) (k : A -> M B) t b :
  bind m k = (t, Ok b) ->
  exists t1 a t2, m = (t1, Ok a) /\ k a = (t2, Ok b) /\ t = t1 ++ t2.
Proof.
  unfold bind. destruct m as [t1 [a|e|]]; try discriminate.
  destruct (k a) as [t2 r] eqn:E. intros H. injection H as <- ->.
  now exists t1, a, t2.
Qed.

Lemma open_read_inv enc n t text :
  open_read enc n = (t, Ok text) ->
  t = [] /\
  exists content decoded,
    follow n = Some (File content) /\ decode enc content = Decoded decoded /\
    text = universal_newlines decoded.
Proof.
  unfold open_read, read_text.
  destruct (follow n) as [[c0|es|tg d]|]; try discriminate.
  destruct (decode enc c0) as [decoded| |] eqn:E; try discriminate.
  intros H. injection H as <- <-. split; [reflexivity|].
  exists c0, decoded. auto.
Qed.

Lemma open_read_written enc c n c0 :
  follow n = Some (File c0) ->
  open_read enc (written c n) = read_text enc c.
Proof.
  intros H. unfold open_read. now rewrite follow_written, H.
Qed.

Lemma open_read_follow enc n c :
  follow n = Some (File c) -> open_read enc n = read_text enc c.
Proof. intros H. unfold open_read. now rewrite H. Qed.

Lemma update_script_isfile default script_filename new_path f t f' :
  update_script default script_filename new_path f = (t, Ok f') ->
  isfile f' = isfile f.
Proof.
  rewrite update_script_text. intros H.
  apply bind_inv in H as (t1 & c & t2 & Hr & H & ->).
  destruct (shebang_text new_path c).
  - cbn in H. injection H as _ <-. apply isfile_written.
  - now injection H as _ <-.
Qed.

Lemma update_activation_script_isfile default script_filename new_path f t f' :
  update_activation_script default script_filename new_path f = (t, Ok f') ->
  isfile f' = isfile f.
Proof.
  rewrite update_activation_script_text. intros H.
  apply bind_inv in H as (t1 & c & t2 & Hr & H & ->).
  destruct (activation_text new_path c).
  - cbn in H. injection H as _ <-. apply isfile_written.
  - now injection H as _ <-.
Qed.

(** *** Stages *)

Lemma mapM_inv {A B} (f : A -> M B) a l t bs :
  mapM f (a :: l) = (t, Ok bs) ->
  exists ta b tl bs', f a = (ta, Ok b) /\ mapM f l = (tl, Ok bs') /\
                      bs = b :: bs' /\ t = ta ++ tl.
Proof.
  cbn [mapM]. intros H.
  apply bind_inv in H as (ta & b & t2 & Ha & H & ->).
  apply bind_inv in H as (tl & bs' & t3 & Hl & H & ->).
  injection H as <- <-. exists ta, b, tl, bs'. now rewrite app_nil_r.
Qed.


Lemma update_scripts_mapM default bin_dir new_path es :
  update_scripts default bin_dir new_path es
  = mapM (update_entry default bin_dir new_path) es.
Proof. reflexivity. Qed.

Lemma update_entry_inv default bin_dir new_path fn f t e' :
  update_entry default bin_dir new_path (fn, f) = (t, Ok e') ->
  exists f', e' = (fn, f') /\
    (if bool_decide (fn ∈ ACTIVATION_SCRIPTS)
     then update_activation_script default (path_join bin_dir [fn]) new_path f
     else update_script default (path_join bin_dir [fn]) new_path f)
    = (t, Ok f').
Proof.
  unfold update_entry. intros H.
  apply bind_inv in H as (t1 & f' & t2 & Hf & H & ->).
  injection H as <- <-. exists f'. now rewrite app_nil_r.
Qed.

Lemma update_scripts_isfile default bin_dir new_path es t es' name :
  update_scripts default bin_dir new_path es = (t, Ok es') ->
  isfile_at (entry name es') = isfile_at (entry name es).
Proof.
  rewrite update_scripts_mapM. revert t es'.
  induction es as [|[fn f] es IH]; intros t es' H.
  - now injection H as _ <-.
  - apply mapM_inv in H as (ta & b & tl & bs' & Ha & Hl & -> & ->).
    apply update_entry_inv in Ha as (f' & -> & Ha).
    cbn [entry]. destruct (str_eqb fn name); [|now apply (IH tl)].
    cbn [isfile_at].
    destruct (bool_decide (fn ∈ ACTIVATION_SCRIPTS)).
    + now apply update_activation_script_isfile in Ha.
    + now apply update_script_isfile in Ha.
Qed.

Lemma in_dir_settles (F G : entries -> M entries) :
  settles F G -> settles (in_dir F) (in_dir G).
Proof.
  intros Hs n. induction n as [c|es|tg|tg d IH] using link_ind; intros t n' H.
  - now injection H as <- <-.
  - cbn [in_dir] in H. apply bind_inv in H as (t1 & es' & t2 & He & H & ->).
    injection H as <- <-. cbn [in_dir]. now rewrite (Hs _ _ _ He).
  - now injection H as <- <-.
  - cbn [in_dir] in H. apply bind_inv in H as (t1 & d' & t2 & Hd & H & ->).
    injection H as <- <-. cbn [in_dir]. now rewrite (IH _ _ Hd).
Qed.

Lemma in_dir_inv (F : entries -> M entries) n t n' :
  in_dir F n = (t, Ok n') ->
  (isdir n = false /\ n' = n /\ t = []) \/
  (isdir n = true /\ isdir n' = true /\
   F (dir_entries n) = (t, Ok (dir_entries n'))).
Proof.
  revert t n'. induction n as [c|es|tg|tg d IH] using link_ind; intros t n' H.
  - injection H as <- <-. now left.
  - cbn [in_dir] in H. apply bind_inv in H as (t1 & es' & t2 & He & H & ->).
    injection H as <- <-. right. rewrite app_nil_r. auto.
  - injection H as <- <-. now left.
  - cbn [in_dir] in H. apply bind_inv in H as (t1 & d' & t2 & Hd & H & ->).
    injection H as <- <-. rewrite app_nil_r.
    destruct (IH _ _ Hd) as [(H1 & -> & ->)|(H1 & H2 & H3)]; [left|right]; auto.
Qed.


Lemma at_entry_inv name (f : node -> M node) es t es' :
  at_entry name f es = (t, Ok es') ->
  (forall other, other <> name -> entry other es' = entry other es) /\
  map fst es' = map fst es /\
  ((entry name es = None /\ es' = es /\ t = []) \/
   (exists n n', entry name es = Some n /\ f n = (t, Ok n') /\
                 entry name es' = Some n')).
Proof.
  destruct (entry name es) as [n|] eqn:En.
  - intros H.
    assert (exists n', f n = (t, Ok n')) as (n' & Hf).
    { clear -En H. revert t es' H.
      induction es as [|[fn x] es IH]; intros t es' H; [discriminate|].
      cbn [entry at_entry] in *. destruct (str_eqb fn name).
      - injection En as ->.
        apply bind_inv in H as (t1 & n' & t2 & Hn & H & ->).
        injection H as <- _. exists n'. now rewrite app_nil_r.
      - apply bind_inv in H as (t1 & es'' & t2 & He & H & ->).
        injection H as <- _. rewrite app_nil_r. eauto. }
    destruct (at_entry_found _ _ _ _ _ _ En Hf) as (es2 & E2 & Hn' & Ho & Hm).
    rewrite E2 in H. injection H as <-. eauto 10.
  - rewrite at_entry_missing by assumption. intros H. injection H as <- <-.
    auto 10.
Qed.

Lemma at_entry_fixed name (f : node -> M node) es :
  (forall n, entry name es = Some n -> f n = ([], Ok n)) ->
  at_entry name f es = ([], Ok es).
Proof.
  induction es as [|[fn x] es IH]; intros H; [reflexivity|].
  cbn [entry at_entry] in *. destruct (str_eqb fn name).
  - now rewrite (H x eq_refl).
  - now rewrite (IH H).
Qed.

(** *** The walk settles *)

Lemma walk_Dir_inv dirname es t n :
  walk dirname (Dir es) = (t, n) -> exists es', n = Dir es'.
Proof.
  rewrite walk_Dir. destruct (scan dirname es) as [[h b] s].
  intros H. injection H as _ <-. eauto.
Qed.

Lemma scan_settles dirname es here below es' :
  Forall (fun e => walk_settled (snd e)) es ->
  scan dirname es = (here, below, es') ->
  scan dirname es' = ([], [], es').
Proof.
  intros H. revert here below es'.
  induction H as [|[fn x] l Hx Hl IH]; intros here below es' E.
  - now injection E as <- <- <-.
  - cbn [snd] in Hx. destruct (leaf_or_dir x) as [Lx|(sub & ->)].
    + rewrite scan_cons_leaf in E by assumption.
      destruct (scan dirname l) as [[hl bl] l'].
      specialize (IH _ _ _ eq_refl).
      destruct (negb (isdir x) && is_pyc fn) eqn:Erm;
        injection E as <- <- <-; [assumption|].
      now rewrite scan_cons_leaf, IH, Erm.
    + rewrite scan_cons_dir in E.
      destruct (scan dirname l) as [[hl bl] l'].
      specialize (IH _ _ _ eq_refl).
      destruct (walk (path_join dirname [fn]) (Dir sub)) as [t x'] eqn:Ew.
      injection E as <- <- <-.
      pose proof (Hx _ _ _ Ew) as Hw.
      apply walk_Dir_inv in Ew as (sub' & ->).
      now rewrite scan_cons_dir, IH, Hw.
Qed.

Lemma walk_settles n : walk_settled n.
Proof.
  induction n as [c|es IH|tg|tg d _] using node_ind;
    intros dirname t n' H; try (now injection H as <- <-).
  rewrite walk_Dir in H.
  destruct (scan dirname es) as [[here below] es'] eqn:Es.
  injection H as <- <-. rewrite walk_Dir.
  now rewrite (scan_settles _ _ _ _ _ IH Es).
Qed.

Lemma remove_pycs_settles lib_dir new_path lib_name :
  settles (remove_pycs lib_dir new_path lib_name)
          (remove_pycs lib_dir new_path lib_name).
Proof.
  apply in_dir_settles. intros es t es' H.
  unfold walk_entries in *.
  destruct (walk lib_dir (Dir es)) as [t0 n0] eqn:Ew.
  destruct (walk_Dir_inv _ _ _ _ Ew) as (es0 & ->).
  injection H as <- <-. now rewrite (walk_settles _ _ _ _ Ew).
Qed.

(** *** The link farm settles *)

Lemma update_local_folder_settled root local_dir les folder :
  (forall tgt d, entry folder les = Some (Link tgt d) ->
                 tgt = lit "../" ++ folder) ->
  update_local_folder root local_dir les folder = ([], Ok les).
Proof.
  intros H. unfold update_local_folder.
  destruct (entry folder les) as [[c|es|tgt d]|]; try reflexivity.
  cbn [islink readlink andb]. rewrite (H tgt d eq_refl).
  now rewrite str_eqb_refl.
Qed.

Lemma normalized_settled filename folder b a t :
  normalized filename folder b a t ->
  forall tgt d, a = Some (Link tgt d) -> tgt = lit "../" ++ folder.
Proof.
  unfold normalized. intros H tgt d ->.
  destruct b as [[c|es|tgt0 d0]|]; try (destruct H as [H _]; discriminate).
  destruct (bool_decide (tgt0 = lit "../" ++ folder)) eqn:E.
  - destruct H as [H _]. injection H as -> _.
    now apply bool_decide_eq_true in E.
  - destruct H as [(d' & H) _]. now injection H.
Qed.

Lemma local_folders_settle root root' local_dir les t les' :
  foldM (update_local_folder root local_dir) FOLDERS les = (t, Ok les') ->
  foldM (update_local_folder root' local_dir) FOLDERS les' = ([], Ok les').
Proof.
  intros H.
  destruct (local_folders_spec root local_dir les) as (t0 & les0 & E & Hn).
  rewrite E in H. injection H as <- <-.
  assert (Hs : forall folder, In folder FOLDERS ->
            update_local_folder root' local_dir les0 folder = ([], Ok les0)).
  { intros folder Hf. apply update_local_folder_settled. intros tgt d Hd.
    eapply normalized_settled; [apply Hn, Hf|exact Hd]. }
  unfold FOLDERS in *. cbn [foldM].
  rewrite (Hs (lit "bin")) by (simpl; auto). cbn [bind].
  rewrite (Hs (lit "lib")) by (simpl; auto). cbn [bind].
  rewrite (Hs (lit "include")) by (simpl; auto). reflexivity.
Qed.

Lemma in_dir_fixed (F : entries -> M entries) n :
  F (dir_entries n) = ([], Ok (dir_entries n)) -> in_dir F n = ([], Ok n).
Proof.
  induction n as [c|es|tg|tg d IH] using link_ind; intros H;
    try reflexivity.
  - cbn [in_dir]. unfold dir_entries in H. cbn in H. now rewrite H.
  - cbn [in_dir]. now rewrite (IH H).
Qed.

Lemma update_local_inv base new_path root t root' :
  update_local base new_path root = (t, Ok root') ->
  update_local base new_path root' = ([], Ok root') /\
  (forall other, other <> lit "local" -> entry other root' = entry other root).
Proof.
  unfold update_local. intros H.
  destruct (isdir_at (entry (lit "local") root)) eqn:Ed; cbn [negb] in H.
  - apply at_entry_inv in H
      as (Hfr & _ & [(En & _)|(n & n' & En & Hi & En')]).
    { rewrite En in Ed. discriminate. }
    rewrite En in Ed. cbn [isdir_at] in Ed.
    apply in_dir_inv in Hi as [(Hd & _)|(_ & Hd' & Hf)]; [congruence|].
    split; [|assumption].
    rewrite En'. cbn [isdir_at]. rewrite Hd'. cbn [negb].
    apply at_entry_fixed. intros m Hm. rewrite En' in Hm. injection Hm as <-.
    apply in_dir_fixed.
    exact (local_folders_settle _ _ _ _ _ _ Hf).
  - injection H as <- <-. rewrite Ed. auto.
Qed.

(** *** The whole flow *)

Lemma find_lib_entry root lib_name :
  find_lib root = Some lib_name ->
  exists n, entry (lit "lib") root = Some n /\ isdir n = true /\
            find (re_match _pybin_match) (listdir n) = Some lib_name.
Proof.
  unfold find_lib. destruct (entry (lit "lib") root) as [n|]; [|discriminate].
  destruct (isdir n) eqn:E; [|discriminate]. eauto.
Qed.

(** *** Reading back what was written *)

Lemma reread_recode default text :
  reread default text = universal_newlines (recode default text).
Proof. reflexivity. Qed.

Lemma recode_app default a b :
  recode default (a ++ b) = recode default a ++ recode default b.
Proof. unfold recode. now rewrite encode_app, map_app. Qed.

Lemma recode_ascii default s :
  forallb is_ascii s = true -> recode default s = s.
Proof.
  induction s as [|c s IH]; [reflexivity|]. cbn [forallb].
  intros H. apply andb_prop in H as [Hc Hs]. unfold is_ascii in Hc.
  change (c :: s) with ([c] ++ s). rewrite recode_app, (IH Hs).
  unfold recode, encode. cbn [flat_map]. unfold encode_char.
  destruct default; rewrite ?Hc; cbn; now rewrite ascii_of_byte_of_ascii.
Qed.

Lemma encode_ascii default s :
  forallb is_ascii s = true -> encode default s = map byte_of_ascii s.
Proof.
  induction s as [|c s IH]; [reflexivity|]. cbn [forallb].
  intros H. apply andb_prop in H as [Hc Hs]. unfold is_ascii in Hc.
  rewrite encode_cons, (IH Hs). unfold encode_char.
  destruct default; rewrite ?Hc; reflexivity.
Qed.

(** A file of ASCII with LF line ends is written back as it was read. *)
Lemma ascii_written_back default content :
  forallb (fun b => is_ascii (ascii_of_byte b)) content = true ->
  no_cr (map ascii_of_byte content) = true ->
  encode default (latin_text content) = content.
Proof.
  intros Ha Hc. unfold latin_text. rewrite universal_newlines_fixed by assumption.
  rewrite encode_ascii
    by (clear Hc; induction content as [|b bs IH]; [reflexivity|];
        cbn [forallb map] in *; apply andb_prop in Ha as [Hb Hbs];
        now rewrite Hb, IH).
  rewrite map_map. rewrite <- (map_id content) at 2.
  apply map_ext. intros b. apply byte_of_ascii_of_byte.
Qed.



(** *** The interpreter path, read back *)








Section Reread.

Variable default : encoding.

Variable new_path : str.

Hypothesis absolute : isabs new_path = true.


Hypothesis stable_target : stable default new_path = true.



End Reread.

(** *** A target without a line break *)

Section OneLine.

Variable default : encoding.

Variable new_path : str.

Hypothesis one_line : forallb dot new_path = true.

Hypothesis no_return : no_cr new_path = true.

Lemma rewrite_line_idem l :
  rewrite_line new_path (rewrite_line new_path l) = rewrite_line new_path l.
Proof.
  destruct (rewritten_rewrite_line new_path l)
    as [prefix sep old tail Hd Hs Ho Ht|line Hm].
  - apply rewrite_line_assignment; auto.
  - now apply rewrite_line_other.
Qed.

Lemma rewrite_line_no_cr l :
  no_cr l = true -> no_cr (rewrite_line new_path l) = true.
Proof.
  destruct (rewritten_rewrite_line new_path l)
    as [prefix sep old tail Hd Hs Ho Ht|line Hm]; [|auto].
  rewrite !assignment_split, !no_cr_app. intros H.
  apply andb_prop in H as [Hh H]. apply andb_prop in H as [_ H].
  now rewrite Hh, no_return, H.
Qed.

Lemma assignment_terminated prefix sep old tail :
  terminated (assignment prefix sep old tail) ->
  terminated (assignment prefix sep new_path tail).
Proof.
  intros (body & E & Hb). rewrite assignment_split in *.
  set (head := prefix ++ lit "VIRTUAL_ENV" ++ [sep] ++ [dquote]) in *.
  destruct (exists_last (l := tail)) as (tail0 & c & ->).
  { intros ->. rewrite app_nil_r, !app_assoc in E.
    apply app_inj_tail in E as [_ E]. discriminate. }
  replace (head ++ old ++ [dquote] ++ tail0 ++ [c])
    with ((head ++ old ++ [dquote] ++ tail0) ++ [c]) in E
    by (now rewrite <- !app_assoc).
  apply app_inj_tail in E as [<- ->].
  exists (head ++ new_path ++ [dquote] ++ tail0).
  split; [now rewrite <- !app_assoc|].
  rewrite !forallb_app in *.
  apply andb_prop in Hb as [Hh Hb]. apply andb_prop in Hb as [_ Hb].
  now rewrite Hh, one_line, Hb.
Qed.

Lemma assignment_unterminated prefix sep old tail :
  unterminated (assignment prefix sep old tail) ->
  unterminated (assignment prefix sep new_path tail).
Proof.
  intros [_ Hb]. split.
  - unfold assignment. destruct prefix; discriminate.
  - rewrite assignment_split in *. rewrite !forallb_app in *.
    apply andb_prop in Hb as [Hh Hb]. apply andb_prop in Hb as [_ Hb].
    now rewrite Hh, one_line, Hb.
Qed.

Lemma proper_map ls :
  proper ls -> proper (map (rewrite_line new_path) ls).
Proof.
  induction 1 as [|l Hl|l ls Hl Hls IH]; cbn [map].
  - constructor.
  - apply proper_last.
    destruct (rewritten_rewrite_line new_path l); [|assumption].
    now apply assignment_unterminated with (old := old).
  - apply proper_cons; [|assumption].
    destruct (rewritten_rewrite_line new_path l); [|assumption].
    now apply assignment_terminated with (old := old).
Qed.

Lemma activation_text_settles c c' :
  activation_text new_path c = Some c' ->
  activation_text new_path c' = None.
Proof.
  intros H. unfold activation_text in H.
  pose proof (rewrite_lines_map new_path (readlines c)) as Hm.
  destruct (rewrite_lines new_path (readlines c)) as [lines changed].
  destruct changed; [|discriminate]. injection H as <-. simpl in Hm. subst lines.
  unfold activation_text, writelines.
  rewrite readlines_proper by apply proper_map, proper_readlines.
  rewrite rewrite_lines_fixed; [reflexivity|].
  rewrite map_map. apply map_ext. intros l. apply rewrite_line_idem.
Qed.

Lemma activation_text_no_cr c c' :
  no_cr c = true ->
  activation_text new_path c = Some c' -> no_cr c' = true.
Proof.
  intros Hc H. rewrite activation_text_map in H. cbv zeta in H.
  destruct (bool_decide _); [discriminate|]. injection H as <-.
  unfold writelines. apply no_cr_concat.
  apply no_cr_lines in Hc. induction Hc as [|l ls Hl Hls IH]; constructor.
  - now apply rewrite_line_no_cr.
  - exact IH.
Qed.

(** What the activation rewriter wrote, it reads back as it was. *)
Lemma activation_read_back decoded c' :
  activation_text new_path (universal_newlines decoded) = Some c' ->
  read_text default (encode default c') = ([], Ok c').
Proof.
  intros H. unfold read_text. rewrite decode_encode.
  rewrite universal_newlines_fixed; [reflexivity|].
  eapply activation_text_no_cr; [|exact H]. apply universal_newlines_no_cr.
Qed.

Lemma update_activation_script_settles script_filename :
  settles (update_activation_script default script_filename new_path)
          (update_activation_script default script_filename new_path).
Proof.
  intros f t f' H. rewrite update_activation_script_text in *.
  apply bind_inv in H as (t1 & c & t2 & Hr & H & ->).
  pose proof Hr as Hr'.
  apply open_read_inv in Hr as (-> & content & decoded & Hf & Hdec & ->).
  destruct (activation_text new_path (universal_newlines decoded))
    as [c'|] eqn:Es.
  - cbn in H. injection H as <- <-.
    rewrite (open_read_written _ _ _ _ Hf), (activation_read_back _ _ Es).
    cbn [bind].
    now rewrite (activation_text_settles _ _ Es).
  - injection H as <- <-. rewrite Hr'. cbn [bind ret]. now rewrite Es.
Qed.

End OneLine.

(** *** The executable directory settles *)

Section Settled.

Variable default : encoding.

Variable new_path : str.

Hypothesis absolute : isabs new_path = true.

Hypothesis one_line : forallb dot new_path = true.

Hypothesis no_return : no_cr new_path = true.

Hypothesis stable_target : stable default new_path = true.




End Settled.

(** *** Environments without links on the way *)

Lemma single_line_dot s : single_line s = true -> forallb dot s = true.
Proof.
  unfold single_line. rewrite !forallb_forall. intros H x Hx.
  specialize (H x Hx). unfold dot. now destruct (Ascii.eqb x nl).
Qed.

Lemma single_line_no_cr s : single_line s = true -> no_cr s = true.
Proof.
  unfold single_line, no_cr. rewrite !forallb_forall. intros H x Hx.
  specialize (H x Hx). destruct (Ascii.eqb x cr); [|reflexivity].
  now rewrite orb_true_r in H.
Qed.

Example stable_examples :
  stable utf_8 (lit "/new/path") = true /\
  stable utf_8 (lit "/opt/my env") = true /\
  stable utf_8 spaced_target = false /\
  stable utf_8 accented_target = false /\
  stable latin_1 accented_target = true /\
  stable utf_8 broken_target = true.
Proof. repeat split. Qed.




(** With UTF-8 as the default encoding a target with a character outside
    ASCII is written in two bytes and read back, as Latin-1, as two
    characters: the second run finds another interpreter path and writes
    the script again. *)
Lemma accented_target_written_again :
  exists root1 root2,
    update_paths utf_8 (lit ".") accented_target one_script_root
    = ([Print (lit "S ./bin/pip"); Write (lit "./bin/pip")],
       Ok (true, root1)) /\
    update_paths utf_8 (lit ".") accented_target root1
    = ([Print (lit "S ./bin/pip"); Write (lit "./bin/pip")],
       Ok (true, root2)).
Proof. eexists. eexists. split; vm_compute; reflexivity. Qed.

(** A target with a line break: what the first run writes into the
    activation script is read as two lines by the second, which finds an
    assignment in the second line and writes the script again. *)
Lemma broken_target_written_again :
  exists root1 root2,
    update_paths utf_8 (lit ".") broken_target
      [(lit "bin",
        Dir [(lit "python", File (blit "ELF"));
             (lit "activate",
              File (blit "VIRTUAL_ENV=" ++ [DQ] ++ blit "/old" ++ [DQ; LF]))]);
       (lit "lib", Dir [(lit "python3.9", Dir [])])]
    = ([Print (lit "A ./bin/activate"); Write (lit "./bin/activate")],
       Ok (true, root1)) /\
    update_paths utf_8 (lit ".") broken_target root1
    = ([Print (lit "A ./bin/activate"); Write (lit "./bin/activate")],
       Ok (true, root2)).
Proof. eexists. eexists. split; vm_compute; reflexivity. Qed.

(** *** The shebang of the usual shape *)

Lemma new_bin_plain new_path :
  new_path <> [] -> endswith new_path [slash] = false ->
  new_bin new_path = new_path ++ lit "/bin/python".
Proof.
  intros Hne Hs. unfold new_bin, path_join. cbn [fold_left].
  unfold path_join2 at 2.
  change (startswith (lit "bin") [slash]) with false. cbv iota.
  apply str_eqb_false in Hne. rewrite Hne, Hs. cbn [orb].
  unfold path_join2.
  change (startswith (lit "python") [slash]) with false. cbv iota.
  assert (E1 : str_eqb (new_path ++ [slash] ++ lit "bin") [] = false).
  { apply str_eqb_false. destruct new_path; discriminate. }
  assert (E2 : endswith (new_path ++ [slash] ++ lit "bin") [slash] = false).
  { unfold endswith. now rewrite !rev_app_distr. }
  rewrite E1, E2. cbn [orb]. now rewrite <- !app_assoc.
Qed.

(** A first line [#!<path>/bin/python <args>] whose arguments stand one
    blank apart, rewritten to a target that is not empty and has no final
    slash, is [#!<new>/bin/python <args>], and the text after it is
    written back. *)
Lemma shebang_plain (default : encoding) (script_filename new_path path : str)
    (args : list str) (content : bytes) (rest : str) :
  new_path <> [] -> endswith new_path [slash] = false ->
  nospace path = true -> Forall word args ->
  latin_text content
  = lit "#!" ++ str_join [space] ((path ++ lit "/bin/python") :: args)
    ++ nl :: rest ->
  new_path <> path ->
  snd (update_script default script_filename new_path (File content))
  = Ok (File (encode default
                (lit "#!" ++
                 str_join [space] ((new_path ++ lit "/bin/python") :: args)
                 ++ nl :: rest))).
Proof.
  intros Hne Hs Hp Ha Ht Hnp.
  assert (Hw : Forall word ((path ++ lit "/bin/python") :: args)).
  { constructor; [|assumption]. split; [destruct path; discriminate|].
    now rewrite nospace_app, Hp. }
  rewrite (update_script_shebang default script_filename new_path _
             (str_join [space] ((path ++ lit "/bin/python") :: args) ++ [nl])
             (readlines rest) (path ++ lit "/bin/python") args).
  - destruct (bool_decide (new_bin new_path = path ++ lit "/bin/python")) eqn:E.
    + apply bool_decide_eq_true in E. rewrite new_bin_plain in E by assumption.
      apply app_inv_tail in E. contradiction.
    + cbn [snd]. unfold writelines, directive. cbn [concat].
      rewrite new_bin_plain, concat_readlines by assumption.
      now rewrite <- !app_assoc.
  - rewrite Ht, app_assoc, readlines_line
      by (rewrite forallb_app, nospace_join by assumption; reflexivity).
    now rewrite <- app_assoc.
  - now apply str_split_join.
  - apply endswith_app.
Qed.

(** ** The version pattern *)

Lemma star_greedy_some (p : ascii -> bool) (k : cont) a b pos g o :
  forallb p a = true ->
  k (pos + length a) b g = Some o ->
  exists o', star_greedy p k pos (a ++ b) g = Some o'.
Proof.
  revert pos. induction a as [|c a IH]; intros pos Hp Hk.
  - simpl in *. rewrite Nat.add_0_r in Hk.
    destruct b as [|c b]; simpl; [eauto|].
    destruct (p c); [|eauto].
    destruct (star_greedy p k (S pos) b g); eauto.
  - simpl in Hp. apply andb_prop in Hp as [Hc Ha].
    cbn [app star_greedy]. rewrite Hc.
    destruct (IH (S pos) Ha) as (o' & ->); [|eauto].
    cbn [length] in Hk. now replace (S pos + length a) with (pos + S (length a)) by lia.
Qed.

Lemma digits_inv (k : cont) pos s g o :
  rmatch (Seq (Cls isdigit) (Star true isdigit)) k pos s g = Some o ->
  exists d rest, digits d /\ s = d ++ rest /\
                 k (pos + length d) rest g = Some o.
Proof.
  cbn [rmatch]. destruct s as [|c s]; [discriminate|].
  destruct (isdigit c) eqn:Hc; [|discriminate]. intros H.
  apply star_greedy_inv in H as (a & b & -> & Ha & Hk).
  exists (c :: a), b. split; [|split].
  - split; [discriminate|]. simpl. now rewrite Hc.
  - reflexivity.
  - cbn [length]. now replace (pos + S (length a)) with (S pos + length a) by lia.
Qed.

Lemma digits_some (k : cont) pos d rest g o :
  digits d ->
  k (pos + length d) rest g = Some o ->
  exists o',
    rmatch (Seq (Cls isdigit) (Star true isdigit)) k pos (d ++ rest) g = Some o'.
Proof.
  intros [Hne Hd] Hk. destruct d as [|c d]; [contradiction|].
  simpl in Hd. apply andb_prop in Hd as [Hc Hd].
  cbn [rmatch app]. rewrite Hc.
  apply star_greedy_some with (o := o); [assumption|].
  cbn [length] in Hk. now replace (S pos + length d) with (pos + S (length d)) by lia.
Qed.

Lemma bol_start (k : cont) s g : rmatch Bol k 0 s g = k 0 s g.
Proof. reflexivity. Qed.

Lemma pybin_match_unfold k pos s g :
  rmatch _pybin_match k pos s g
  = rmatch Bol
      (rmatch (Lit (lit "python"))
        (rmatch (Seq (Cls isdigit) (Star true isdigit))
          (rmatch (Chr ".")
            (rmatch (Seq (Cls isdigit) (Star true isdigit))
              (rmatch Eol k))))) pos s g.
Proof. reflexivity. Qed.

(** X1.  The names [_pybin_match.match] accepts are [python<major>.<minor>]
    with decimal digits on both sides of the dot, and these names with one
    line feed after them (which [$] lets pass). *)
Theorem pybin_match_language (s : str) :
  re_match _pybin_match s = true <->
  version_name s \/ exists s0, s = s0 ++ [nl] /\ version_name s0.
Proof.
  unfold re_match, match_at. rewrite pybin_match_unfold. split.
  - destruct (rmatch Bol _ 0 s None) as [o|] eqn:H; [intros _|discriminate].
    cbn [rmatch Nat.eqb] in H. change (0 =? 0) with true in H. cbv iota in H.
    apply rmatch_Lit_inv in H as (s1 & -> & H).
    apply digits_inv in H as (major & s2 & Hmaj & -> & H).
    cbn [rmatch] in H. destruct s2 as [|c s2]; [discriminate|].
    destruct (Ascii.eqb c ".") eqn:Ec; [|discriminate].
    apply ascii_eqb_true in Ec. subst c.
    apply digits_inv in H as (minor & s3 & Hmin & -> & H).
    apply eol_inv in H as [-> | ->].
    + left. exists major, minor. now rewrite app_nil_r.
    + right. exists (lit "python" ++ major ++ "."%char :: minor).
      split; [|now exists major, minor].
      now rewrite <- app_assoc, <- app_assoc.
  - intros H.
    assert (exists major minor e, digits major /\ digits minor /\
              (e = [] \/ e = [nl]) /\
              s = lit "python" ++ major ++ "."%char :: minor ++ e)
      as (major & minor & e & Hmaj & Hmin & He & ->).
    { destruct H as [(major & minor & Hmaj & Hmin & ->)
                    |(s0 & -> & major & minor & Hmaj & Hmin & ->)].
      - exists major, minor, []. rewrite app_nil_r. auto.
      - exists major, minor, [nl].
        split; [assumption|]. split; [assumption|]. split; [auto|].
        now rewrite <- app_assoc, <- app_assoc. }
    rewrite bol_start, rmatch_Lit.
    assert (Hend : exists o, rmatch Eol accept
                     (S (0 + length (lit "python") + length major)
                      + length minor) e None = Some o).
    { destruct He as [-> | ->]; cbn; eauto. }
    destruct Hend as (o & Hend).
    destruct (digits_some _ (S (0 + length (lit "python") + length major))
                minor e None o Hmin Hend) as (o1 & H1).
    edestruct (digits_some
                 (rmatch (Chr ".")
                    (rmatch (Seq (Cls isdigit) (Star true isdigit))
                       (rmatch Eol accept)))
                 (0 + length (lit "python")) major
                 ("."%char :: minor ++ e) None o1 Hmaj) as (o2 & H2).
    { cbn [rmatch]. rewrite Ascii.eqb_refl. exact H1. }
    now rewrite H2.
Qed.

(** ** The first match in [lib/] *)

Lemma find_first {A} (p : A -> bool) (l : list A) (x : A) :
  find p l = Some x <->
  exists before after,
    l = before ++ x :: after /\ p x = true /\
    Forall (fun y => p y = false) before.
Proof.
  split.
  - induction l as [|y l IH]; [discriminate|]. cbn [find].
    destruct (p y) eqn:E.
    + intros H. injection H as ->. exists [], l. auto.
    + intros H. destruct (IH H) as (before & after & -> & Hx & Hb).
      exists (y :: before), after. auto.
  - intros (before & after & -> & Hx & Hb).
    induction Hb as [|y before Hy Hb IH]; cbn [app find].
    + now rewrite Hx.
    + now rewrite Hy.
Qed.

(** X2.  The version directory is the first entry of [lib/], in listing
    order, whose name matches: entries before it do not match, and what
    comes after it is not looked at. *)
Theorem find_lib_first (root : entries) (name : str) :
  find_lib root = Some name <->
  exists lib before after,
    entry (lit "lib") root = Some lib /\ isdir lib = true /\
    listdir lib = before ++ name :: after /\
    re_match _pybin_match name = true /\
    Forall (fun other => re_match _pybin_match other = false) before.
Proof.
  unfold find_lib. split.
  - destruct (entry (lit "lib") root) as [lib|]; [|discriminate].
    destruct (isdir lib) eqn:Hd; [|discriminate].
    intros H. apply find_first in H as (before & after & H).
    exists lib, before, after. tauto.
  - intros (lib & before & after & -> & -> & Hl & Hm & Hb).
    apply find_first. eauto.
Qed.

Example find_lib_two_versions :
  find_lib two_versions = Some (lit "python2.7").
Proof. reflexivity. Qed.

(** ** When the activation rewriter writes *)

Lemma rewrite_line_stale new_path line :
  rewrite_line new_path line <> line <-> stale new_path line.
Proof.
  split.
  - intros H.
    destruct (rewrite_line_changes _ _ H)
      as (prefix & sep & old & tail & Hd & Hs & Ho & Ht & ->).
    exists prefix, sep, old, tail. repeat (split; [assumption|]).
    split; [reflexivity|]. intros ->. apply H.
    now apply rewrite_line_assignment.
  - intros (prefix & sep & old & tail & Hd & Hs & Ho & Ht & -> & Hne) E.
    rewrite rewrite_line_assignment in E by assumption.
    rewrite !assignment_split in E.
    apply app_inv_head in E. apply app_inv_tail in E. congruence.
Qed.

Lemma map_fixed `{EqDecision A} (f : A -> A) (l : list A) :
  map f l = l <-> ~ Exists (fun x => f x <> x) l.
Proof.
  induction l as [|x l IH]; cbn [map].
  - split; [intros _ H; inversion H|reflexivity].
  - split.
    + intros E H. injection E as Ex El.
      inversion H; subst; [contradiction|]. now apply IH.
    + intros H. f_equal.
      * destruct (decide (f x = x)) as [E|E]; [assumption|].
        exfalso. apply H. now left.
      * apply IH. intros E. apply H. now right.
Qed.

(** X3.  An activation script that decodes in the default encoding is
    written exactly when one of its lines, as [open] hands them over (CR LF
    and CR read as LF), is an assignment whose payload is not the target
    already; otherwise the rewriter leaves no trace and the file is not
    opened for writing.  A script that does not decode is not written
    either: reading it raises [UnicodeDecodeError]. *)
Theorem activation_written_iff
    (default : encoding) (script_filename new_path : str) (content : bytes) :
  (forall text, decode default content = Decoded text ->
     let lines := readlines (universal_newlines text) in
     (Exists (stale new_path) lines ->
      update_activation_script default script_filename new_path (File content)
      = ([Print (lit "A " ++ script_filename); Write script_filename],
         Ok (File (encode default
                     (writelines (map (rewrite_line new_path) lines)))))) /\
     (~ Exists (stale new_path) lines ->
      update_activation_script default script_filename new_path (File content)
      = ([], Ok (File content)))) /\
  (decode default content = Undecodable ->
   update_activation_script default script_filename new_path (File content)
   = ([], Raise UnicodeDecodeError)).
Proof.
  split.
  - intros text Hdec lines.
    rewrite (update_activation_script_File _ _ _ _ _ Hdec). cbv zeta.
    fold lines.
    assert (Hiff : map (rewrite_line new_path) lines = lines
                   <-> ~ Exists (stale new_path) lines).
    { rewrite map_fixed. split; intros H E; apply H;
        (eapply Exists_impl; [exact E|]); intros l; apply rewrite_line_stale. }
    split; intros H.
    + rewrite bool_decide_eq_false_2; [reflexivity|]. intros E.
      now apply Hiff in E.
    + rewrite bool_decide_eq_true_2; [reflexivity|]. now apply Hiff.
  - intros Hdec. unfold update_activation_script.
    cbn [open_read follow]. unfold read_text. now rewrite Hdec.
Qed.

Lemma activation_written_iff_witness :
  update_activation_script utf_8 (lit "bin/activate") (lit "/new path")
    (File sample_activate)
  = ([Print (lit "A bin/activate"); Write (lit "bin/activate")],
     Ok (File relocated_activate)) /\
  update_activation_script utf_8 (lit "bin/activate") (lit "/new path")
    (File latin_activate)
  = ([], Raise UnicodeDecodeError).
Proof.
  split.
  - apply (proj1 (activation_written_iff utf_8 (lit "bin/activate")
                    (lit "/new path") sample_activate)
             (map ascii_of_byte sample_activate) eq_refl).
    apply Exists_cons_tl, Exists_cons_hd.
    exists [], "="%char, (lit "/old/path"), [nl].
    repeat split; try reflexivity; [now right; right|now right|discriminate].
  - apply (proj2 (activation_written_iff utf_8 (lit "bin/activate")
                    (lit "/new path") latin_activate)).
    reflexivity.
Defined.

(** ** The activation rewriter run twice *)

(** X4.  For a target without a line break (neither LF nor CR; blanks and
    quotes are fine), a second run of the activation rewriter on what the
    first run left writes nothing. *)
Theorem activation_rewrite_idempotent
    (default : encoding) (script_filename new_path : str)
    (f : node) (t : list event) (f' : node) :
  single_line new_path = true ->
  update_activation_script default script_filename new_path f = (t, Ok f') ->
  update_activation_script default script_filename new_path f' = ([], Ok f').
Proof.
  intros Hn H.
  exact (update_activation_script_settles default new_path
           (single_line_dot _ Hn) (single_line_no_cr _ Hn)
           script_filename f t f' H).
Qed.

Lemma activation_rewrite_idempotent_witness :
  update_activation_script utf_8 (lit "bin/activate") (lit "/new path")
    (File relocated_activate)
  = ([], Ok (File relocated_activate)).
Proof.
  apply (activation_rewrite_idempotent utf_8 (lit "bin/activate")
           (lit "/new path") (File sample_activate)
           [Print (lit "A bin/activate"); Write (lit "bin/activate")]).
  - reflexivity.
  - vm_compute. reflexivity.
Defined.

(** ** The guard of the shebang rewriter *)

(** X5.  The second test of the guard, ['/usr/bin/env python' in args[0]],
    never holds: [args] comes from [split()], so no argument of the first
    line contains a blank. *)
Theorem env_python_test_dead (line0 : str) :
  Forall (fun arg => contains arg (lit "/usr/bin/env python") = false)
         (str_split (str_strip (skipn 2 line0))).
Proof.
  eapply Forall_impl; [apply str_split_words|].
  intros arg [_ Hw]. now apply word_no_env.
Qed.

Lemma update_script_written
    (default : encoding) (script_filename new_path : str) (content : bytes)
    (t : list event) (f' : node) :
  update_script default script_filename new_path (File content) = (t, Ok f') ->
  t <> [] \/ f' <> File content ->
  exists s rest arg0 args,
    readlines (latin_text content) = (lit "#!" ++ s) :: rest /\
    str_split s = arg0 :: args /\
    endswith arg0 (lit "/bin/python") = true /\
    arg0 <> new_bin new_path.
Proof.
  unfold update_script. rewrite open_read_latin. cbn [ret bind].
  assert (Hsame : ([] : list event, Ok (File content)) = (t, Ok f') ->
                  t <> [] \/ f' <> File content -> False).
  { intros E [H|H]; injection E as <- <-; now apply H. }
  destruct (readlines (latin_text content)) as [|line0 rest];
    [intros E H; destruct (Hsame E H)|].
  destruct (startswith line0 (lit "#!")) eqn:Hs; cbn [negb];
    [|intros E H; destruct (Hsame E H)].
  apply startswith_inv in Hs as (s & ->).
  change (skipn 2 (lit "#!" ++ s)) with s. rewrite str_split_strip.
  destruct (str_split s) as [|arg0 args] eqn:Esp;
    [intros E H; destruct (Hsame E H)|].
  destruct (endswith arg0 (lit "/bin/python")) eqn:Ee; cbn [negb orb];
    [|intros E H; destruct (Hsame E H)].
  destruct (contains arg0 (lit "/usr/bin/env python"));
    [intros E H; destruct (Hsame E H)|].
  fold (new_bin new_path).
  destruct (str_eqb (new_bin new_path) arg0) eqn:Eq;
    [intros E H; destruct (Hsame E H)|].
  intros _ _. exists s, rest, arg0, args.
  apply str_eqb_false in Eq. repeat split; congruence.
Qed.

(** X6.  The shebang rewriter writes a file only if its first line starts
    with [#!] and has a first argument that ends in [/bin/python] and is not
    the new interpreter already: a file that is empty, has another first
    line, or names another interpreter comes back as it was, with no trace. *)
Theorem shebang_written_only_if
    (default : encoding) (script_filename new_path : str) (content : bytes)
    (t : list event) (f' : node) :
  update_script default script_filename new_path (File content) = (t, Ok f') ->
  t <> [] \/ f' <> File content ->
  exists s rest arg0 args,
    readlines (latin_text content) = (lit "#!" ++ s) :: rest /\
    str_split s = arg0 :: args /\
    endswith arg0 (lit "/bin/python") = true /\
    arg0 <> new_bin new_path.
Proof. apply update_script_written. Qed.

Lemma shebang_written_only_if_witness :
  exists s rest arg0 args,
    readlines (latin_text sample_script) = (lit "#!" ++ s) :: rest /\
    str_split s = arg0 :: args /\
    endswith arg0 (lit "/bin/python") = true /\
    arg0 <> new_bin (lit "/new/path").
Proof.
  apply (shebang_written_only_if utf_8 (lit "bin/pip") (lit "/new/path")
           sample_script
           [Print (lit "S bin/pip"); Write (lit "bin/pip")]
           (File (blit "#!/new/path/bin/python -O" ++ [LF] ++
                  blit "import sys" ++ [LF]))).
  - vm_compute. reflexivity.
  - left. discriminate.
Defined.

(** ** Relocating a script again *)

Lemma new_bin_eligible new_path :
  new_path <> [] -> endswith (new_bin new_path) (lit "/bin/python") = true.
Proof.
  intros Hne. unfold new_bin, path_join. cbn [fold_left].
  assert (Hbin : endswith (path_join2 new_path (lit "bin")) (lit "/bin") = true).
  { unfold path_join2.
    change (startswith (lit "bin") [slash]) with false. cbv iota.
    apply str_eqb_false in Hne. rewrite Hne. cbn [orb].
    destruct (endswith new_path [slash]) eqn:Es.
    - unfold endswith in Es. apply startswith_inv in Es as (b & Es).
      apply (f_equal (@rev ascii)) in Es.
      rewrite rev_involutive, rev_app_distr in Es. subst new_path.
      change (rev (rev [slash])) with [slash].
      rewrite <- app_assoc. apply (endswith_app (rev b) (lit "/bin")).
    - apply (endswith_app new_path (lit "/bin")). }
  unfold endswith in Hbin. apply startswith_inv in Hbin as (b & Hb).
  apply (f_equal (@rev ascii)) in Hb.
  rewrite rev_involutive, rev_app_distr in Hb.
  change (rev (rev (lit "/bin"))) with (lit "/bin") in Hb. rewrite Hb.
  unfold path_join2.
  change (startswith (lit "python") [slash]) with false. cbv iota.
  assert (E1 : str_eqb (rev b ++ lit "/bin") [] = false).
  { apply str_eqb_false. destruct (rev b); discriminate. }
  assert (E2 : endswith (rev b ++ lit "/bin") [slash] = false).
  { unfold endswith. now rewrite rev_app_distr. }
  rewrite E1, E2. cbn [orb].
  replace ((rev b ++ lit "/bin") ++ [slash] ++ lit "python")
    with (rev b ++ lit "/bin/python") by (now rewrite <- app_assoc).
  apply endswith_app.
Qed.

Lemma reread_latin_1 text : no_cr text = true -> reread latin_1 text = text.
Proof.
  intros H. rewrite reread_recode.
  assert (E : recode latin_1 text = text).
  { clear H. induction text as [|c text IH]; [reflexivity|].
    change (c :: text) with ([c] ++ text). rewrite recode_app, IH.
    unfold recode. cbn. now rewrite ascii_of_byte_of_ascii. }
  rewrite E. now apply universal_newlines_fixed.
Qed.

Lemma reread_ascii default text :
  forallb is_ascii text = true -> no_cr text = true ->
  reread default text = text.
Proof.
  intros Ha Hc. rewrite reread_recode, recode_ascii by assumption.
  now apply universal_newlines_fixed.
Qed.

Lemma word_new_bin new_path :
  nospace new_path = true -> word (new_bin new_path).
Proof.
  intros no_blank. unfold new_bin, path_join. cbn [fold_left].
  assert (Hbin : word (path_join2 new_path (lit "bin"))).
  { unfold path_join2.
    change (startswith (lit "bin") [slash]) with false. cbv iota.
    destruct (str_eqb new_path [] || endswith new_path [slash]).
    - split; [destruct new_path; discriminate|].
      now rewrite nospace_app, no_blank.
    - split; [destruct new_path; discriminate|].
      now rewrite !nospace_app, no_blank. }
  destruct Hbin as [Hne Hns]. unfold path_join2 at 1.
  change (startswith (lit "python") [slash]) with false. cbv iota.
  destruct (str_eqb _ [] || endswith _ [slash]).
  - split; [destruct (path_join2 new_path (lit "bin")); [contradiction|discriminate]|].
    now rewrite nospace_app, Hns.
  - split; [destruct (path_join2 new_path (lit "bin")); discriminate|].
    now rewrite !nospace_app, Hns.
Qed.

(** The directive line reads back as one line with the arguments it was
    built from. *)
Lemma readlines_directive new_path args rest :
  nospace new_path = true ->
  Forall word args ->
  readlines (concat rest) = rest ->
  readlines (writelines (directive new_path args :: rest))
  = directive new_path args :: rest.
Proof.
  intros Hn Hw Hr. unfold writelines.
  change (concat (directive new_path args :: rest))
    with (directive new_path args ++ concat rest).
  unfold directive.
  replace ((lit "#!" ++ str_join [space] (new_bin new_path :: args) ++ [nl])
           ++ concat rest)
    with ((lit "#!" ++ str_join [space] (new_bin new_path :: args))
          ++ nl :: concat rest)
    by (now rewrite <- !app_assoc).
  rewrite readlines_line.
  - now rewrite Hr, <- app_assoc.
  - rewrite forallb_app, nospace_join; [reflexivity|].
    constructor; [now apply word_new_bin|assumption].
Qed.

(** X7.  A script the rewriter wrote for a target can be relocated again.
    Take a first target that is not empty and has no whitespace, and
    suppose the text the first run wrote is read back as it is by the
    next run (which is so when the default encoding is Latin-1, and when
    the text is ASCII).  Then the rewriter run for a second target on the
    file it wrote changes the interpreter once more and keeps the
    arguments and the lines after the first. *)
Theorem shebang_retarget
    (default : encoding) (script_filename first second : str)
    (content : bytes) (t : list event) (f' : node) :
  nospace first = true -> first <> [] ->
  update_script default script_filename first (File content) = (t, Ok f') ->
  t <> [] ->
  exists args rest,
    let text := writelines (directive first args :: rest) in
    f' = File (encode default text) /\
    (default = latin_1 -> reread default text = text) /\
    (forallb is_ascii text = true -> reread default text = text) /\
    (reread default text = text ->
     update_script default script_filename second f'
     = if bool_decide (new_bin second = new_bin first)
       then ([], Ok f')
       else ([Print (lit "S " ++ script_filename); Write script_filename],
             Ok (File (encode default
                         (writelines (directive second args :: rest)))))).
Proof.
  intros Hns Hne H Ht.
  destruct (update_script_written _ _ _ _ _ _ H (or_introl Ht))
    as (s & rest & arg0 & args & Hl & Hs & He & Hd).
  rewrite (update_script_shebang _ _ _ _ _ _ _ _ Hl Hs He) in H.
  rewrite bool_decide_eq_false_2 in H by congruence.
  assert (Ef : f' = File (encode default
                            (writelines (directive first args :: rest))))
    by congruence.
  clear H. subst f'. exists args, rest. cbv zeta.
  assert (Hw : Forall word args).
  { pose proof (str_split_words s) as Hws. rewrite Hs in Hws.
    now inversion Hws. }
  assert (Hrest : readlines (concat rest) = rest)
    by eauto using readlines_tail.
  assert (Hcr : no_cr (writelines (directive first args :: rest)) = true).
  { unfold writelines. cbn [concat]. rewrite no_cr_app. apply andb_true_intro.
    split.
    - unfold directive. rewrite !no_cr_app.
      assert (Hsp : forall toks, Forall word toks ->
                no_cr (str_join [space] toks) = true).
      { induction 1 as [|x xs [_ Hx] Hxs IH]; [reflexivity|].
        assert (Hxc : no_cr x = true).
        { unfold nospace in Hx. unfold no_cr.
          rewrite forallb_forall in *. intros c Hc. specialize (Hx c Hc).
          destruct (Ascii.eqb c cr) eqn:E; [|reflexivity].
          apply Ascii.eqb_eq in E. subst c. discriminate. }
        destruct xs as [|y ys]; [exact Hxc|].
        change (str_join [space] (x :: y :: ys))
          with (x ++ [space] ++ str_join [space] (y :: ys)).
        now rewrite !no_cr_app, Hxc, IH. }
      rewrite Hsp by (constructor; [now apply word_new_bin|assumption]).
      reflexivity.
    - assert (Hc : no_cr (latin_text content) = true)
        by apply universal_newlines_no_cr.
      apply no_cr_lines in Hc. rewrite Hl in Hc. inversion Hc; subst.
      now apply no_cr_concat. }
  split; [reflexivity|]. split; [|split].
  - intros ->. now apply reread_latin_1.
  - intros Ha. now apply reread_ascii.
  - intros Hre.
    apply (update_script_shebang default script_filename second _
             (str_join [space] (new_bin first :: args) ++ [nl]) rest
             (new_bin first) args).
    + unfold reread in Hre. rewrite Hre. now apply readlines_directive.
    + apply str_split_join. constructor; [now apply word_new_bin|assumption].
    + now apply new_bin_eligible.
Qed.

Lemma shebang_retarget_witness :
  exists args rest,
    let text := writelines (directive (lit "/new/path") args :: rest) in
    File (blit "#!/new/path/bin/python -O" ++ [LF] ++ blit "import sys" ++ [LF])
    = File (encode utf_8 text) /\
    (utf_8 = latin_1 -> reread utf_8 text = text) /\
    (forallb is_ascii text = true -> reread utf_8 text = text) /\
    (reread utf_8 text = text ->
     update_script utf_8 (lit "bin/pip") (lit "/srv/env")
       (File (blit "#!/new/path/bin/python -O" ++ [LF] ++
              blit "import sys" ++ [LF]))
     = if bool_decide (new_bin (lit "/srv/env") = new_bin (lit "/new/path"))
       then ([], Ok (File (blit "#!/new/path/bin/python -O" ++ [LF] ++
                           blit "import sys" ++ [LF])))
       else ([Print (lit "S bin/pip"); Write (lit "bin/pip")],
             Ok (File (encode utf_8
                         (writelines (directive (lit "/srv/env") args
                                        :: rest)))))).
Proof.
  apply (shebang_retarget utf_8 (lit "bin/pip") (lit "/new/path")
           (lit "/srv/env") sample_script
           [Print (lit "S bin/pip"); Write (lit "bin/pip")]).
  - reflexivity.
  - discriminate.
  - vm_compute. reflexivity.
  - discriminate.
Defined.

(** ** The pass over [bin/] *)

Lemma islink_written c n : islink (written c n) = islink n.
Proof. now destruct n as [c0|es|tg [d|]]. Qed.

Lemma follow_not_link n tg d : follow n <> Some (Link tg d).
Proof.
  induction n as [c|es|tg0|tg0 d0 IH] using link_ind; try discriminate.
  exact IH.
Qed.

Lemma readable_regular default e : readable default e -> regular e.
Proof.
  intros (content & text & Hf & _). unfold regular, isfile. now rewrite Hf.
Qed.

Lemma latin_readable default fn n :
  fn ∉ ACTIVATION_SCRIPTS -> isfile n = true -> readable default (fn, n).
Proof.
  intros Hfn Hn. unfold isfile in Hn.
  destruct (follow n) as [[c|es|tg d]|] eqn:E; try discriminate.
  exists c, (map ascii_of_byte c). split; [assumption|].
  unfold reading. cbn [fst]. now rewrite bool_decide_eq_false_2.
Qed.

Lemma open_read_readable default fn n :
  readable default (fn, n) ->
  exists text, open_read (reading default fn) n = ([], Ok text).
Proof.
  intros (content & text & Hf & Hd). cbn [fst snd] in *.
  unfold open_read, read_text. rewrite Hf, Hd. eauto.
Qed.

Lemma open_read_refused default fn n e :
  refused default (fn, n) e ->
  open_read (reading default fn) n = ([], Raise e).
Proof.
  inversion 1 as [fn0 n0 Hd|fn0 n0 Hf|fn0 n0 content Hin Hf Hd]; subst.
  - unfold open_read. unfold isdir in Hd.
    destruct (follow n) as [[c|es|tg d]|]; try discriminate; reflexivity.
  - unfold open_read. now rewrite Hf.
  - unfold open_read, read_text, reading.
    now rewrite Hf, bool_decide_eq_true_2, Hd.
Qed.

Lemma open_read_error enc n :
  isfile n = false -> open_read enc n = ([], Raise (open_error n)).
Proof.
  unfold isfile, open_read, open_error, isdir.
  destruct (follow n) as [[c|es|tg d]|] eqn:E; try discriminate; try reflexivity.
  now apply follow_not_link in E.
Qed.

Lemma bind_raise {A B} (m : M A) (k : A -> M B) t e :
  m = (t, Raise e) -> bind m k = (t, Raise e).
Proof. now intros ->. Qed.

Lemma bind_assoc {A B C} (m : M A) (k : A -> M B) (h : B -> M C) :
  bind (bind m k) h = bind m (fun a => bind (k a) h).
Proof.
  unfold bind. destruct m as [t [a|e|]]; try reflexivity.
  destruct (k a) as [t1 [b|e|]]; try reflexivity.
  destruct (h b) as [t2 r]. now rewrite app_assoc.
Qed.

Lemma update_entry_reading default bin_dir new_path fn f :
  update_entry default bin_dir new_path (fn, f)
  = (let* content := open_read (reading default fn) f in
     let* f' :=
       (if bool_decide (fn ∈ ACTIVATION_SCRIPTS)
        then match activation_text new_path content with
             | None => ret f
             | Some c =>
                 let* _ := print (lit "A " ++ path_join bin_dir [fn]) in
                 open_write (path_join bin_dir [fn]) default c f
             end
        else match shebang_text new_path content with
             | None => ret f
             | Some c =>
                 let* _ := print (lit "S " ++ path_join bin_dir [fn]) in
                 open_write (path_join bin_dir [fn]) default c f
             end) in
     ret (fn, f')).
Proof.
  unfold update_entry, reading.
  destruct (bool_decide (fn ∈ ACTIVATION_SCRIPTS)).
  - now rewrite update_activation_script_text, bind_assoc.
  - now rewrite update_script_text, bind_assoc.
Qed.

(** One entry: a readable file is processed, an entry that is refused
    ends the pass. *)
Lemma update_entry_regular default bin_dir new_path fn f :
  readable default (fn, f) ->
  exists t f',
    update_entry default bin_dir new_path (fn, f) = (t, Ok (fn, f')) /\
    isfile f' = true /\ islink f' = islink f /\
    Forall (script_event bin_dir fn) t.
Proof.
  intros Hr. pose proof (readable_regular _ _ Hr) as Hf.
  unfold regular in Hf. cbn [snd] in Hf.
  destruct (open_read_readable default fn f Hr) as (c & Hc).
  rewrite update_entry_reading, Hc. cbn [bind].
  destruct (bool_decide (fn ∈ ACTIVATION_SCRIPTS)).
  - destruct (activation_text new_path c) as [c'|].
    + eexists _, _. cbn. split; [reflexivity|].
      rewrite isfile_written, islink_written. repeat split; auto.
      constructor; [now left|].
      constructor; [now right; right|constructor].
    + exists [], f. cbn. auto.
  - destruct (shebang_text new_path c) as [c'|].
    + eexists _, _. cbn. split; [reflexivity|].
      rewrite isfile_written, islink_written. repeat split; auto.
      constructor; [now right; left|].
      constructor; [now right; right|constructor].
    + exists [], f. cbn. auto.
Qed.

Lemma update_entry_refused default bin_dir new_path fn f e :
  refused default (fn, f) e ->
  update_entry default bin_dir new_path (fn, f) = ([], Raise e).
Proof.
  intros Hr. rewrite update_entry_reading, (open_read_refused _ _ _ _ Hr).
  reflexivity.
Qed.

Lemma update_entry_error default bin_dir new_path fn f :
  isfile f = false ->
  update_entry default bin_dir new_path (fn, f) = ([], Raise (open_error f)).
Proof.
  intros Hf. rewrite update_entry_reading, (open_read_error _ f Hf).
  reflexivity.
Qed.

Lemma update_scripts_regular default bin_dir new_path es :
  Forall (readable default) es ->
  exists t es',
    update_scripts default bin_dir new_path es = (t, Ok es') /\
    Forall2 (fun e e' => fst e' = fst e /\ isfile (snd e') = true /\
                         islink (snd e') = islink (snd e)) es es' /\
    Forall (fun ev => exists fn, In fn (map fst es) /\
                                 script_event bin_dir fn ev) t.
Proof.
  rewrite update_scripts_mapM.
  induction 1 as [|[fn f] es Hf Hes IH].
  - exists [], []. repeat split; constructor.
  - destruct (update_entry_regular default bin_dir new_path fn f Hf)
      as (t1 & f' & E1 & Hf' & Hl & Ht1).
    destruct IH as (t2 & es' & E2 & H2 & Ht2).
    exists (t1 ++ t2), ((fn, f') :: es'). cbn [mapM].
    rewrite E1. cbn [bind]. rewrite E2. cbn [bind ret].
    rewrite app_nil_r. split; [reflexivity|]. split.
    + constructor; [cbn; auto|assumption].
    + apply Forall_app. split.
      * eapply Forall_impl; [exact Ht1|]. intros ev Hev.
        exists fn. split; [now left|assumption].
      * eapply Forall_impl; [exact Ht2|]. intros ev (fn0 & Hin & Hev).
        exists fn0. split; [now right|assumption].
Qed.

Lemma update_scripts_app_error default bin_dir new_path before fn n after t
    before' e :
  update_scripts default bin_dir new_path before = (t, Ok before') ->
  refused default (fn, n) e ->
  update_scripts default bin_dir new_path (before ++ (fn, n) :: after)
  = (t, Raise e).
Proof.
  rewrite !update_scripts_mapM. revert t before'.
  induction before as [|[fn0 f0] before IH]; intros t before' H Hn.
  - injection H as <- _. cbn [app mapM].
    now rewrite (update_entry_refused _ _ _ _ _ _ Hn).
  - apply mapM_inv in H as (ta & b & tl & bs' & Ha & Hl & -> & ->).
    cbn [app mapM]. rewrite Ha. cbn [bind].
    rewrite (IH _ _ Hl Hn). reflexivity.
Qed.

(** An entry that lets the pass go on is readable. *)
Lemma update_entry_readable default bin_dir new_path fn f t e' :
  update_entry default bin_dir new_path (fn, f) = (t, Ok e') ->
  readable default (fn, f).
Proof.
  rewrite update_entry_reading. intros H.
  apply bind_inv in H as (t1 & c & t2 & Hr & _).
  apply open_read_inv in Hr as (_ & content & decoded & Hf & Hd & _).
  now exists content, decoded.
Qed.

Lemma update_scripts_listing
    (default : encoding) (bin_dir new_path : str) (es : entries)
    (t : list event) (es' : entries) :
  update_scripts default bin_dir new_path es = (t, Ok es') ->
  Forall (readable default) es /\
  Forall2 (fun e e' => fst e' = fst e /\ isfile (snd e') = true /\
                       islink (snd e') = islink (snd e)) es es' /\
  Forall (fun ev => exists fn, In fn (map fst es) /\
                               script_event bin_dir fn ev) t.
Proof.
  intros H.
  assert (Hreg : Forall (readable default) es).
  { rewrite update_scripts_mapM in H. revert t es' H.
    induction es as [|[fn f] es IH]; intros t es' H; constructor.
    - apply mapM_inv in H as (ta & b & tl & bs' & Ha & _).
      now apply update_entry_readable in Ha.
    - apply mapM_inv in H as (ta & b & tl & bs' & _ & Hl & _).
      now apply (IH tl bs'). }
  split; [assumption|].
  destruct (update_scripts_regular default bin_dir new_path es Hreg)
    as (t0 & es0 & E & H2 & H3).
  rewrite E in H. injection H as <- <-. auto.
Qed.

(** X8.  A pass over [bin/] that comes to its end has found only regular
    files (links followed) and leaves the listing as it was: the same names
    in the same order, every entry a regular file still and a link where it
    was one; and it has done nothing but print [A] or [S] notices and open
    entries of [bin/] for writing. *)
Theorem update_scripts_keeps_listing
    (default : encoding) (bin_dir new_path : str) (es : entries)
    (t : list event) (es' : entries) :
  update_scripts default bin_dir new_path es = (t, Ok es') ->
  Forall regular es /\
  Forall2 (fun e e' => fst e' = fst e /\ isfile (snd e') = true /\
                       islink (snd e') = islink (snd e)) es es' /\
  Forall (fun ev => exists fn, In fn (map fst es) /\
                               script_event bin_dir fn ev) t.
Proof.
  intros H. apply update_scripts_listing in H as (Hr & H2 & H3).
  split; [|auto].
  eapply Forall_impl; [exact Hr|]. apply readable_regular.
Qed.

Lemma update_scripts_keeps_listing_witness :
  Forall regular [(lit "pip", File sample_script)] /\
  Forall2 (fun e e' => fst e' = fst e /\ isfile (snd e') = true /\
                       islink (snd e') = islink (snd e))
          [(lit "pip", File sample_script)]
          [(lit "pip", File (blit "#!/new/path/bin/python -O" ++ [LF] ++
                             blit "import sys" ++ [LF]))] /\
  Forall (fun ev => exists fn,
            In fn (map fst [(lit "pip", File sample_script)]) /\
            script_event (lit "bin") fn ev)
         [Print (lit "S bin/pip"); Write (lit "bin/pip")].
Proof.
  apply (update_scripts_keeps_listing utf_8 (lit "bin") (lit "/new/path")
           [(lit "pip", File sample_script)]).
  vm_compute. reflexivity.
Defined.

(** X9.  The pass stops at the first entry of [bin/] that it cannot read:
    a subdirectory ([IsADirectoryError]), a dangling link
    ([FileNotFoundError]), or an activation script that does not decode in
    the default encoding ([UnicodeDecodeError]).  The entries listed before
    it, all readable, have been processed; [open] raises; and the entries
    after it are not looked at.  Every other script is read as Latin-1,
    which takes any bytes. *)
Theorem update_scripts_stops_at_directory
    (default : encoding) (bin_dir new_path : str) (before : entries)
    (fn : str) (n : node) (after : entries) (e : exn) :
  Forall (readable default) before -> refused default (fn, n) e ->
  exists t before',
    update_scripts default bin_dir new_path before = (t, Ok before') /\
    update_scripts default bin_dir new_path (before ++ (fn, n) :: after)
    = (t, Raise e).
Proof.
  intros Hb Hn.
  destruct (update_scripts_regular default bin_dir new_path before Hb)
    as (t & before' & E & _).
  exists t, before'. split; [assumption|].
  now apply update_scripts_app_error with (before' := before').
Qed.

Lemma sample_script_readable default fn :
  fn ∉ ACTIVATION_SCRIPTS -> readable default (fn, File sample_script).
Proof. intros H. now apply latin_readable. Qed.

Lemma update_scripts_stops_at_directory_witness :
  (exists t before',
     update_scripts utf_8 (lit "bin") (lit "/new/path")
       [(lit "pip", File sample_script)] = (t, Ok before') /\
     update_scripts utf_8 (lit "bin") (lit "/new/path") bin_with_cache
     = (t, Raise IsADirectoryError)) /\
  (exists t before',
     update_scripts utf_8 (lit "bin") (lit "/new/path")
       [(lit "pip", File sample_script)] = (t, Ok before') /\
     update_scripts utf_8 (lit "bin") (lit "/new/path") bin_with_latin
     = (t, Raise UnicodeDecodeError)).
Proof.
  assert (Hpip : Forall (readable utf_8) [(lit "pip", File sample_script)]).
  { repeat constructor. apply sample_script_readable.
    apply (proj1 (bool_decide_eq_false (lit "pip" ∈ ACTIVATION_SCRIPTS))).
    reflexivity. }
  split.
  - apply (update_scripts_stops_at_directory utf_8 (lit "bin")
             (lit "/new/path") [(lit "pip", File sample_script)]
             (lit "__pycache__") (Dir []) [(lit "wheel", File sample_script)]
             IsADirectoryError Hpip).
    now apply refused_directory.
  - apply (update_scripts_stops_at_directory utf_8 (lit "bin")
             (lit "/new/path") [(lit "pip", File sample_script)]
             (lit "activate") (File latin_activate)
             [(lit "wheel", File sample_script)]
             UnicodeDecodeError Hpip).
    apply (refused_undecodable utf_8 (lit "activate") (File latin_activate)
             latin_activate).
    + apply (proj1 (bool_decide_eq_true (lit "activate" ∈ ACTIVATION_SCRIPTS))).
      reflexivity.
    + reflexivity.
    + reflexivity.
Defined.

(** ** The flow on a recognised environment *)

Lemma in_dir_total (F : entries -> M entries) n :
  (forall es, exists t es', F es = (t, Ok es')) ->
  exists t n', in_dir F n = (t, Ok n').
Proof.
  intros HF. induction n as [c|es|tg|tg d IH] using link_ind;
    cbn [in_dir]; try (eexists _, _; reflexivity).
  - destruct (HF es) as (t & es' & ->). eexists _, _. reflexivity.
  - destruct IH as (t & d' & ->). eexists _, _. reflexivity.
Qed.

Lemma at_entry_total name (f : node -> M node) es :
  (forall n, exists t n', f n = (t, Ok n')) ->
  exists t es', at_entry name f es = (t, Ok es').
Proof.
  intros Hf. induction es as [|[fn n] es IH]; cbn [at_entry].
  - eexists _, _. reflexivity.
  - destruct (str_eqb fn name).
    + destruct (Hf n) as (t & n' & ->). eexists _, _. reflexivity.
    + destruct IH as (t & es' & ->). eexists _, _. reflexivity.
Qed.

Lemma in_dir_raise (F : entries -> M entries) n t e :
  isdir n = true -> F (dir_entries n) = (t, Raise e) ->
  in_dir F n = (t, Raise e).
Proof.
  induction n as [c|es|tg|tg d IH] using link_ind; intros Hd HF;
    try discriminate.
  - cbn [in_dir]. unfold dir_entries in HF. cbn in HF. now rewrite HF.
  - cbn [in_dir]. now rewrite (IH Hd HF).
Qed.

Lemma at_entry_raise name (f : node -> M node) es n t e :
  entry name es = Some n -> f n = (t, Raise e) ->
  at_entry name f es = (t, Raise e).
Proof.
  intros He Hf. induction es as [|[fn x] es IH]; [discriminate|].
  cbn [entry at_entry] in *. destruct (str_eqb fn name).
  - injection He as ->. now rewrite Hf.
  - now rewrite (IH He).
Qed.

Lemma remove_pycs_total lib_dir new_path lib_name n :
  exists t n', remove_pycs lib_dir new_path lib_name n = (t, Ok n').
Proof.
  apply in_dir_total. intros es.
  destruct (walk_entries lib_dir es) as [t es']. eauto.
Qed.

Lemma update_local_total base new_path root :
  exists t root', update_local base new_path root = (t, Ok root').
Proof.
  unfold update_local.
  destruct (negb (isdir_at (entry (lit "local") root)));
    [eexists _, _; reflexivity|].
  apply at_entry_total. intros n. apply in_dir_total. intros les.
  destruct (local_folders_spec root (path_join base [lit "local"]) les)
    as (t & les' & E & _).
  eauto.
Qed.

Lemma update_paths_checked default base new_path root lib_name bin :
  isabs new_path = true -> find_lib root = Some lib_name ->
  entry (lit "bin") root = Some bin -> isdir bin = true ->
  isfile_at (entry (lit "python") (dir_entries bin)) = true ->
  update_paths default base new_path root
  = (let* root1 :=
       at_entry (lit "bin")
         (in_dir (update_scripts default (path_join base [lit "bin"]) new_path))
         root in
     let* root2 :=
       at_entry (lit "lib")
         (in_dir (at_entry lib_name
            (remove_pycs (path_join (path_join base [lit "lib"]) [lib_name])
                         new_path lib_name)))
         root1 in
     let* root3 := update_local base new_path root2 in
     ret (true, root3)).
Proof.
  intros Ha Hf Hb Hd Hp. unfold update_paths.
  rewrite Ha, Hf, Hb. cbn [negb isdir_at python_in]. now rewrite Hd, Hp.
Qed.

(** X10.  On an environment that passes the checks, the flow returns [True]
    when every entry of [bin/] can be read: a regular file (links
    followed) which, if it is an activation script, decodes in the default
    encoding.  When one cannot (a subdirectory such as [__pycache__], a
    dangling link, an activation script that does not decode), the flow
    does not return [False]: it ends with the exception [open] raises at
    the first such entry, after the scripts listed before it have been
    rewritten. *)
Theorem update_paths_outcome
    (default : encoding) (base new_path : str) (root : entries)
    (lib_name : str) (bin : node) :
  isabs new_path = true -> find_lib root = Some lib_name ->
  entry (lit "bin") root = Some bin -> isdir bin = true ->
  isfile_at (entry (lit "python") (dir_entries bin)) = true ->
  (Forall (readable default) (dir_entries bin) ->
   exists t root',
     update_paths default base new_path root = (t, Ok (true, root'))) /\
  (forall before fn n after e,
     dir_entries bin = before ++ (fn, n) :: after ->
     Forall (readable default) before -> refused default (fn, n) e ->
     exists t before',
       update_scripts default (path_join base [lit "bin"]) new_path before
       = (t, Ok before') /\
       update_paths default base new_path root = (t, Raise e)).
Proof.
  intros Ha Hf Hb Hd Hp.
  rewrite (update_paths_checked _ _ _ _ _ _ Ha Hf Hb Hd Hp). split.
  - intros Hreg.
    destruct (update_scripts_regular default (path_join base [lit "bin"])
                new_path (dir_entries bin) Hreg) as (t1 & es1 & E1 & _).
    destruct (in_dir_isdir _ _ _ _ Hd E1) as (bin' & Ei & _).
    destruct (at_entry_found _ _ _ _ _ _ Hb Ei) as (root1 & -> & _).
    cbn [bind].
    destruct (at_entry_total (lit "lib")
                (in_dir (at_entry lib_name
                   (remove_pycs (path_join (path_join base [lit "lib"])
                                           [lib_name]) new_path lib_name)))
                root1) as (t2 & root2 & ->).
    { intros n. apply in_dir_total. intros es. apply at_entry_total.
      intros m. apply remove_pycs_total. }
    cbn [bind].
    destruct (update_local_total base new_path root2) as (t3 & root3 & ->).
    cbn [bind ret]. eauto.
  - intros before fn n after e Hes Hbefore Hn.
    destruct (update_scripts_regular default (path_join base [lit "bin"])
                new_path before Hbefore) as (t & before' & E & _).
    exists t, before'. split; [assumption|].
    apply bind_raise. apply (at_entry_raise _ _ _ _ _ _ Hb).
    apply in_dir_raise; [assumption|]. rewrite Hes.
    now apply update_scripts_app_error with (before' := before').
Qed.

Lemma update_paths_outcome_witness :
  (exists t before',
     update_scripts utf_8 (lit "./bin") (lit "/new/path")
       [(lit "python", File (blit "ELF")); (lit "pip", File sample_script)]
     = (t, Ok before') /\
     update_paths utf_8 (lit ".") (lit "/new/path") env_with_cache
     = (t, Raise IsADirectoryError)) /\
  (exists t before',
     update_scripts utf_8 (lit "./bin") (lit "/new/path")
       [(lit "python", File (blit "ELF"))]
     = (t, Ok before') /\
     update_paths utf_8 (lit ".") (lit "/new/path") env_with_latin
     = (t, Raise UnicodeDecodeError)).
Proof.
  assert (Hpy : readable utf_8 (lit "python", File (blit "ELF"))).
  { apply latin_readable; [|reflexivity].
    apply (proj1 (bool_decide_eq_false (lit "python" ∈ ACTIVATION_SCRIPTS))).
    reflexivity. }
  assert (Hpip : readable utf_8 (lit "pip", File sample_script)).
  { apply latin_readable; [|reflexivity].
    apply (proj1 (bool_decide_eq_false (lit "pip" ∈ ACTIVATION_SCRIPTS))).
    reflexivity. }
  split.
  - apply (proj2 (update_paths_outcome utf_8 (lit ".") (lit "/new/path")
             env_with_cache (lit "python3.9")
             (Dir [(lit "python", File (blit "ELF"));
                   (lit "pip", File sample_script);
                   (lit "__pycache__", Dir []);
                   (lit "wheel", File sample_script)])
             eq_refl eq_refl eq_refl eq_refl eq_refl)
             [(lit "python", File (blit "ELF")); (lit "pip", File sample_script)]
             (lit "__pycache__") (Dir [])
             [(lit "wheel", File sample_script)] IsADirectoryError).
    + reflexivity.
    + repeat constructor; assumption.
    + now apply refused_directory.
  - apply (proj2 (update_paths_outcome utf_8 (lit ".") (lit "/new/path")
             env_with_latin (lit "python3.9")
             (Dir [(lit "python", File (blit "ELF"));
                   (lit "activate", File latin_activate);
                   (lit "pip", File sample_script)])
             eq_refl eq_refl eq_refl eq_refl eq_refl)
             [(lit "python", File (blit "ELF"))]
             (lit "activate") (File latin_activate)
             [(lit "pip", File sample_script)] UnicodeDecodeError).
    + reflexivity.
    + repeat constructor; assumption.
    + apply (refused_undecodable utf_8 (lit "activate") (File latin_activate)
               latin_activate).
      * apply (proj1 (bool_decide_eq_true
                        (lit "activate" ∈ ACTIVATION_SCRIPTS))).
        reflexivity.
      * reflexivity.
      * reflexivity.
Defined.

(** ** The verdict of the flow *)

Lemma update_paths_value default base new_path root t b root' :
  update_paths default base new_path root = (t, Ok (b, root')) ->
  b = isabs new_path && recognised root /\
  (b = false -> root' = root /\ exists msg, t = [Print msg]).
Proof.
  unfold update_paths, recognised.
  destruct (isabs new_path); cbn [negb andb].
  2:{ intros H. injection H as <- <- <-. split; [reflexivity|]. eauto. }
  destruct (find_lib root) as [lib_name|]; cbn [andb].
  2:{ intros H. injection H as <- <- <-. split; [reflexivity|]. eauto. }
  destruct (isdir_at (entry (lit "bin") root)); cbn [negb orb andb].
  2:{ intros H. injection H as <- <- <-. split; [reflexivity|]. eauto. }
  destruct (isfile_at (python_in (entry (lit "bin") root))); cbn [negb].
  2:{ intros H. injection H as <- <- <-. split; [reflexivity|]. eauto. }
  intros H.
  apply bind_inv in H as (ta & ra & t2 & _ & H & ->).
  apply bind_inv in H as (tb & rb & t3 & _ & H & ->).
  apply bind_inv in H as (tc & rc & t4 & _ & H & ->).
  injection H as _ <- _. split; [reflexivity|discriminate].
Qed.

(** X11.  When the flow returns, its value says whether the checks passed:
    [True] exactly when the target is absolute and the environment is
    recognised.  A run that returns [False] has printed one line and has
    left the tree as it was. *)
Theorem update_paths_verdict
    (default : encoding) (base new_path : str) (root : entries)
    (t : list event) (b : bool) (root' : entries) :
  update_paths default base new_path root = (t, Ok (b, root')) ->
  b = isabs new_path && recognised root /\
  (b = false -> root' = root /\ exists msg, t = [Print msg]).
Proof. apply update_paths_value. Qed.

Lemma update_paths_verdict_witness :
  false = isabs (lit "new/path") && recognised sample_root /\
  (false = false ->
   sample_root = sample_root /\
   exists msg,
     [Print (lit "error: new/path is not an absolute path")] = [Print msg]).
Proof.
  apply (update_paths_verdict utf_8 (lit ".") (lit "new/path") sample_root).
  reflexivity.
Defined.

Lemma update_local_names base new_path root t root' :
  update_local base new_path root = (t, Ok root') ->
  map fst root' = map fst root.
Proof.
  unfold update_local.
  destruct (negb (isdir_at (entry (lit "local") root))).
  - intros H. now injection H as _ <-.
  - intros H. now apply at_entry_inv in H as (_ & Hm & _).
Qed.

Lemma update_paths_kept default base new_path root t root' :
  update_paths default base new_path root = (t, Ok (true, root')) ->
  recognised root' = true /\
  find_lib root' = find_lib root /\
  map fst root' = map fst root /\
  (forall other,
     other <> lit "bin" -> other <> lit "lib" -> other <> lit "local" ->
     entry other root' = entry other root).
Proof.
  intros H. pose proof (update_paths_value _ _ _ _ _ _ _ H) as [Hv _].
  symmetry in Hv. apply andb_prop in Hv as [Ha Hr].
  unfold recognised in Hr.
  apply andb_prop in Hr as [Hr Hpy]. apply andb_prop in Hr as [Hfl Hbin].
  destruct (find_lib root) as [lib_name|] eqn:Ef; [clear Hfl|discriminate].
  destruct (entry (lit "bin") root) as [nb|] eqn:Eb; [|discriminate].
  cbn [isdir_at python_in] in Hbin, Hpy.
  rewrite (update_paths_checked _ _ _ _ _ _ Ha Ef Eb Hbin Hpy) in H.
  apply bind_inv in H as (ta & ra & t2 & H1 & H & ->).
  apply bind_inv in H as (tb & rb & t3 & H2 & H & ->).
  apply bind_inv in H as (tc & rc & t4 & H3 & H & ->).
  injection H as <- <-.
  apply at_entry_inv in H1
    as (Hfr1 & Hm1 & [(En & _)|(nb0 & nb' & Eb0 & Hi1 & Eb')]);
    [congruence|].
  rewrite Eb in Eb0. injection Eb0 as <-.
  apply in_dir_inv in Hi1 as [(Hd & _)|(_ & Hbin' & Hu)]; [congruence|].
  pose proof Ef as Ef0.
  apply find_lib_entry in Ef as (nl & El & Hl & Hfind).
  assert (El1 : entry (lit "lib") ra = Some nl)
    by (rewrite Hfr1 by discriminate; assumption).
  apply at_entry_inv in H2
    as (Hfr2 & Hm2 & [(En & _)|(nl0 & nl' & El0 & Hi2 & El')]);
    [congruence|].
  rewrite El1 in El0. injection El0 as <-.
  apply in_dir_inv in Hi2 as [(Hd & _)|(_ & Hl' & Hr)]; [congruence|].
  apply at_entry_inv in Hr as (_ & Hnames & _).
  pose proof (update_local_names _ _ _ _ _ H3) as Hm3.
  apply update_local_inv in H3 as (_ & Hfr3).
  assert (Ebc : entry (lit "bin") rc = Some nb').
  { rewrite Hfr3, Hfr2 by discriminate. assumption. }
  assert (Elc : entry (lit "lib") rc = Some nl').
  { rewrite Hfr3 by discriminate. assumption. }
  assert (Ef' : find_lib rc = Some lib_name).
  { unfold find_lib. rewrite Elc, Hl'. unfold listdir in *.
    now rewrite Hnames. }
  split; [|split; [|split]].
  - unfold recognised. rewrite Ef', Ebc. cbn [isdir_at python_in andb].
    rewrite Hbin'.
    now rewrite (update_scripts_isfile _ _ _ _ _ _ (lit "python") Hu), Hpy.
  - assumption.
  - congruence.
  - intros other Hb Hli Hlo. now rewrite Hfr3, Hfr2, Hfr1.
Qed.

(** X12.  A successful run on an environment without links on the way
    ([bin/] a directory of regular files; [lib/], the version directory
    and [local/] no symbolic links) leaves an environment that passes the
    checks again: the same version directory is found, [bin/] is a
    directory and [bin/python] a regular file.  The root has the same
    entries in the same order, and those other than [bin], [lib] and
    [local] are the same files, directories and links (a link taken for
    its target string, not for what it leads to).  So a later run on the
    result, for any target, returns [False] only if that target is not
    absolute. *)
Theorem update_paths_keeps_environment
    (default : encoding) (base new_path : str) (root : entries)
    (t : list event) (root' : entries) :
  plain root = true ->
  update_paths default base new_path root = (t, Ok (true, root')) ->
  recognised root' = true /\
  find_lib root' = find_lib root /\
  map fst root' = map fst root /\
  (forall other,
     other <> lit "bin" -> other <> lit "lib" -> other <> lit "local" ->
     option_map skeleton (entry other root')
     = option_map skeleton (entry other root)) /\
  (forall default2 base2 target t2 b2 root2,
     update_paths default2 base2 target root' = (t2, Ok (b2, root2)) ->
     b2 = isabs target).
Proof.
  intros _ H.
  destruct (update_paths_kept _ _ _ _ _ _ H) as (Hr & Hf & Hm & Ho).
  repeat (split; [assumption|]). split.
  - intros other H1 H2 H3. now rewrite Ho.
  - intros default2 base2 target t2 b2 root2 H2.
    apply update_paths_value in H2 as [-> _]. rewrite Hr. apply andb_true_r.
Qed.

Lemma update_paths_keeps_environment_witness :
  recognised plain_relocated = true /\
  find_lib plain_relocated = find_lib plain_root /\
  map fst plain_relocated = map fst plain_root /\
  (forall other,
     other <> lit "bin" -> other <> lit "lib" -> other <> lit "local" ->
     option_map skeleton (entry other plain_relocated)
     = option_map skeleton (entry other plain_root)) /\
  (forall default2 base2 target t2 b2 root2,
     update_paths default2 base2 target plain_relocated
     = (t2, Ok (b2, root2)) ->
     b2 = isabs target).
Proof.
  apply (update_paths_keeps_environment utf_8 (lit ".") (lit "/opt/my env")
           plain_root
           (fst (update_paths utf_8 (lit ".") (lit "/opt/my env") plain_root))).
  - reflexivity.
  - vm_compute. reflexivity.
Defined.

(** ** The link farm, run again *)

Lemma local_folders_events root local_dir les t les' :
  foldM (update_local_folder root local_dir) FOLDERS les = (t, Ok les') ->
  Forall (fun e => exists folder,
            In folder FOLDERS /\ mentions (path_join local_dir [folder]) e) t.
Proof.
  destruct (update_local_folder_spec root local_dir les (lit "bin"))
    as (t1 & l1 & E1 & _ & _ & M1).
  destruct (update_local_folder_spec root local_dir l1 (lit "lib"))
    as (t2 & l2 & E2 & _ & _ & M2).
  destruct (update_local_folder_spec root local_dir l2 (lit "include"))
    as (t3 & l3 & E3 & _ & _ & M3).
  unfold FOLDERS. cbn [foldM]. rewrite E1. cbn [bind]. rewrite E2.
  cbn [bind]. rewrite E3. cbn [bind ret]. intros H. injection H as <- _.
  rewrite app_nil_r. repeat (apply Forall_app; split).
  - eapply Forall_impl; [exact M1|]. intros e He.
    exists (lit "bin"). split; [simpl; auto|assumption].
  - eapply Forall_impl; [exact M2|]. intros e He.
    exists (lit "lib"). split; [simpl; auto|assumption].
  - eapply Forall_impl; [exact M3|]. intros e He.
    exists (lit "include"). split; [simpl; auto|assumption].
Qed.

Lemma update_local_events base new_path root t root' :
  update_local base new_path root = (t, Ok root') ->
  Forall (fun e => exists folder,
            In folder FOLDERS /\
            mentions (path_join (path_join base [lit "local"]) [folder]) e) t.
Proof.
  unfold update_local. intros H.
  destruct (isdir_at (entry (lit "local") root)) eqn:Ed; cbn [negb] in H.
  - apply at_entry_inv in H as (_ & _ & [(En & _)|(n & n' & En & Hi & _)]).
    { rewrite En in Ed. discriminate. }
    rewrite En in Ed. cbn [isdir_at] in Ed.
    apply in_dir_inv in Hi as [(Hd & _)|(_ & _ & Hf)]; [congruence|].
    exact (local_folders_events _ _ _ _ _ Hf).
  - injection H as <- _. constructor.
Qed.

(** X13.  The link-farm normalizer never raises, and a second run on what it
    left does nothing.  It keeps the entries of the root other than [local],
    and every event it leaves (removal, link, notice) is about [local/bin],
    [local/lib] or [local/include].  Without a directory [local/] it does
    nothing at all. *)
Theorem link_farm_settles (base new_path : str) (root : entries) :
  exists t root',
    update_local base new_path root = (t, Ok root') /\
    update_local base new_path root' = ([], Ok root') /\
    map fst root' = map fst root /\
    (forall other, other <> lit "local" ->
       entry other root' = entry other root) /\
    Forall (fun e => exists folder,
              In folder FOLDERS /\
              mentions (path_join (path_join base [lit "local"]) [folder]) e)
           t /\
    (isdir_at (entry (lit "local") root) = false -> t = [] /\ root' = root).
Proof.
  destruct (update_local_total base new_path root) as (t & root' & H).
  exists t, root'. split; [assumption|].
  destruct (update_local_inv _ _ _ _ _ H) as (Hs & Ho).
  pose proof (update_local_names _ _ _ _ _ H) as Hm.
  pose proof (update_local_events _ _ _ _ _ H) as He.
  repeat (split; [assumption|]).
  intros Hd. unfold update_local in H. rewrite Hd in H.
  injection H as <- <-. auto.
Qed.

(** ** What the bytecode walk keeps *)

Lemma scan_keeps dirname es :
  Forall (fun e => dirs_kept (snd e)) es ->
  forall here below es',
    scan dirname es = (here, below, es') -> keeps_dirs es es'.
Proof.
  induction 1 as [|[fn x] l Hx Hl IH]; intros here below es' E.
  - intros p y H. now apply at_path_nil in H.
  - cbn [snd] in Hx. destruct (leaf_or_dir x) as [Lx|(sub & ->)].
    + rewrite scan_cons_leaf in E by assumption.
      destruct (scan dirname l) as [[hl bl] l'].
      specialize (IH _ _ _ eq_refl).
      destruct (negb (isdir x) && is_pyc fn) eqn:Erm;
        injection E as <- <- <-; intros p y H Hy.
      * apply andb_prop in Erm as [Hnd _]. apply negb_true_iff in Hnd.
        apply at_path_cons in H as [[-> ->]|[(s & q & Es & _)|H]].
        -- congruence.
        -- now destruct (Lx s).
        -- now apply IH.
      * apply at_path_cons in H as [[-> ->]|[(s & q & Es & _)|H]].
        -- exists x. split; [apply at_path_cons; auto|]. auto.
        -- now destruct (Lx s).
        -- destruct (IH _ _ H Hy) as (y' & H' & Hd' & Hl').
           exists y'. split; [apply at_path_cons; auto|]. auto.
    + rewrite scan_cons_dir in E.
      destruct (scan dirname l) as [[hl bl] l'].
      specialize (IH _ _ _ eq_refl).
      destruct (walk (path_join dirname [fn]) (Dir sub)) as [t x'] eqn:Ew.
      injection E as <- <- <-.
      destruct (walk_Dir_inv _ _ _ _ Ew) as (sub' & ->).
      intros p y H Hy.
      apply at_path_cons in H as [[-> ->]|[(s & q & Es & -> & H)|H]].
      * exists (Dir sub'). split; [apply at_path_cons; auto|].
        split; [reflexivity|discriminate].
      * injection Es as <-.
        destruct (Hx _ _ _ _ eq_refl Ew _ _ H Hy) as (y' & H' & Hd' & Hl').
        exists y'. split; [|auto].
        apply at_path_cons. right. left. eauto.
      * destruct (IH _ _ H Hy) as (y' & H' & Hd' & Hl').
        exists y'. split; [apply at_path_cons; auto|]. auto.
Qed.

Lemma walk_keeps n : dirs_kept n.
Proof.
  induction n as [c|es IH|tg|tg d _] using node_ind;
    intros dirname es0 t es' E H; try discriminate.
  injection E as <-. rewrite walk_Dir in H.
  destruct (scan dirname es) as [[here below] es1] eqn:Es.
  injection H as _ <-. exact (scan_keeps _ _ IH _ _ _ Es).
Qed.

(** X14.  The bytecode walk removes no directory, whatever its name: each
    directory below the library directory is found at the same path
    afterwards.  A symbolic link to a directory is neither removed nor
    entered: it is the same entry afterwards, with what it leads to. *)
Theorem bytecode_walk_keeps_directories
    (lib_dir new_path lib_name : str) (es : entries) :
  exists t es',
    remove_pycs lib_dir new_path lib_name (Dir es) = (t, Ok (Dir es')) /\
    forall p x, at_path es p x -> isdir x = true ->
      exists x', at_path es' p x' /\ isdir x' = true /\
                 (islink x = true -> x' = x).
Proof.
  destruct (walk lib_dir (Dir es)) as [t n] eqn:Ew.
  destruct (walk_Dir_inv _ _ _ _ Ew) as (es' & ->).
  exists t, es'. split.
  - unfold remove_pycs, walk_entries. cbn [in_dir]. rewrite Ew.
    unfold bind, ret. now rewrite app_nil_r.
  - exact (walk_keeps (Dir es) lib_dir es t es' eq_refl Ew).
Qed.

(** X15.  A second bytecode walk over what the first one left removes
    nothing and prints nothing, whatever the target. *)
Theorem bytecode_walk_idempotent
    (lib_dir new_path lib_name : str) (n : node) (t : list event) (n' : node) :
  remove_pycs lib_dir new_path lib_name n = (t, Ok n') ->
  remove_pycs lib_dir new_path lib_name n' = ([], Ok n').
Proof. apply remove_pycs_settles. Qed.

Lemma bytecode_walk_idempotent_witness :
  remove_pycs (lit "lib/python3.9") (lit "/new/path") (lit "python3.9")
    (Dir [(lit "os.py", File [])])
  = ([], Ok (Dir [(lit "os.py", File [])])).
Proof.
  apply (bytecode_walk_idempotent (lit "lib/python3.9") (lit "/new/path")
           (lit "python3.9")
           (Dir [(lit "os.py", File []); (lit "os.pyc", File [])])
           [Print (lit "D lib/python3.9/os.pyc");
            Remove (lit "lib/python3.9/os.pyc")]).
  reflexivity.
Defined.

(** ** What the flow touches *)

Lemma remove_pycs_events lib_dir new_path lib_name n t n' :
  remove_pycs lib_dir new_path lib_name n = (t, Ok n') ->
  Forall (bytecode_event lib_dir (dir_entries n)) t.
Proof.
  unfold remove_pycs. intros H.
  apply in_dir_inv in H as [(_ & _ & ->)|(_ & _ & H)]; [constructor|].
  destruct (walk_entries_ok lib_dir (dir_entries n)) as (t0 & es0 & E & _ & Hev).
  rewrite E in H. injection H as <- _.
  apply List.Forall_forall. intros e He.
  apply Hev in He as (p & x & Hat & Hd & Hp & He). now exists p, x.
Qed.

(** X16.  A successful run leaves three stretches of events, in this order:
    notices and writes for entries of [bin/]; then the notice and the
    removal of files with a bytecode name that are found below the version
    directory; then what the link farm needs, for [local/bin], [local/lib]
    and [local/include].  So the only paths opened for writing are entries
    of [bin/] (where a link among them leads is not said), nothing is
    removed but bytecode files found by the walk and links of [local/], and
    no process is spawned. *)
Theorem update_paths_events
    (default : encoding) (base new_path : str) (root : entries)
    (t : list event) (root' : entries) :
  update_paths default base new_path root = (t, Ok (true, root')) ->
  exists lib_name bin scripts bytecode links,
    find_lib root = Some lib_name /\
    entry (lit "bin") root = Some bin /\
    t = scripts ++ bytecode ++ links /\
    Forall (fun e => exists fn, In fn (listdir bin) /\
                       script_event (path_join base [lit "bin"]) fn e)
           scripts /\
    (forall version_dir, versioned_lib root = Some version_dir ->
       Forall (bytecode_event
                 (path_join (path_join base [lit "lib"]) [lib_name])
                 (dir_entries version_dir)) bytecode) /\
    (versioned_lib root = None -> bytecode = []) /\
    Forall (link_event (path_join base [lit "local"])) links.
Proof.
  intros H. pose proof (update_paths_value _ _ _ _ _ _ _ H) as [Hv _].
  symmetry in Hv. apply andb_prop in Hv as [Ha Hr].
  unfold recognised in Hr.
  apply andb_prop in Hr as [Hr Hpy]. apply andb_prop in Hr as [Hfl Hbin].
  destruct (find_lib root) as [lib_name|] eqn:Ef; [clear Hfl|discriminate].
  destruct (entry (lit "bin") root) as [nb|] eqn:Eb; [|discriminate].
  cbn [isdir_at python_in] in Hbin, Hpy.
  rewrite (update_paths_checked _ _ _ _ _ _ Ha Ef Eb Hbin Hpy) in H.
  apply bind_inv in H as (ta & ra & t2 & H1 & H & ->).
  apply bind_inv in H as (tb & rb & t3 & H2 & H & ->).
  apply bind_inv in H as (tc & rc & t4 & H3 & H & ->).
  injection H as <- <-. rewrite app_nil_r.
  exists lib_name, nb, ta, tb, tc.
  split; [reflexivity|]. split; [reflexivity|]. split; [reflexivity|].
  apply at_entry_inv in H1
    as (Hfr1 & _ & [(En & _)|(nb0 & nb' & Eb0 & Hi1 & _)]); [congruence|].
  rewrite Eb in Eb0. injection Eb0 as <-.
  apply in_dir_inv in Hi1 as [(Hd & _)|(_ & _ & Hu)]; [congruence|].
  split; [now apply update_scripts_listing in Hu as (_ & _ & Hu)|].
  split; [|split; [|exact (update_local_events _ _ _ _ _ H3)]].
  - intros version_dir Hvd. unfold versioned_lib in Hvd.
    rewrite Ef in Hvd. unfold python_lib in Hvd.
    rewrite <- (Hfr1 (lit "lib")) in Hvd by discriminate.
    apply at_entry_inv in H2
      as (_ & _ & [(_ & _ & ->)|(nl & nl' & El & Hi2 & _)]); [constructor|].
    rewrite El in Hvd.
    apply in_dir_inv in Hi2 as [(_ & _ & ->)|(_ & _ & Hr)]; [constructor|].
    apply at_entry_inv in Hr
      as (_ & _ & [(_ & _ & ->)|(n & n' & En & Hp & _)]); [constructor|].
    rewrite En in Hvd. injection Hvd as <-.
    exact (remove_pycs_events _ _ _ _ _ _ Hp).
  - intros Hvd. unfold versioned_lib in Hvd.
    rewrite Ef in Hvd. unfold python_lib in Hvd.
    rewrite <- (Hfr1 (lit "lib")) in Hvd by discriminate.
    apply at_entry_inv in H2
      as (_ & _ & [(_ & _ & ->)|(nl & nl' & El & Hi2 & _)]); [reflexivity|].
    rewrite El in Hvd.
    apply in_dir_inv in Hi2 as [(_ & _ & ->)|(_ & _ & Hr)]; [reflexivity|].
    apply at_entry_inv in Hr
      as (_ & _ & [(_ & _ & ->)|(n & n' & En & Hp & _)]); [reflexivity|].
    rewrite En in Hvd. discriminate.
Qed.

Lemma update_paths_events_witness :
  exists lib_name bin scripts bytecode links,
    find_lib sample_root = Some lib_name /\
    entry (lit "bin") sample_root = Some bin /\
    fst (update_paths utf_8 (lit ".") (lit "/new/path") sample_root)
    = scripts ++ bytecode ++ links /\
    Forall (fun e => exists fn, In fn (listdir bin) /\
                       script_event (path_join (lit ".") [lit "bin"]) fn e)
           scripts /\
    (forall version_dir, versioned_lib sample_root = Some version_dir ->
       Forall (bytecode_event
                 (path_join (path_join (lit ".") [lit "lib"]) [lib_name])
                 (dir_entries version_dir)) bytecode) /\
    (versioned_lib sample_root = None -> bytecode = []) /\
    Forall (link_event (path_join (lit ".") [lit "local"])) links.
Proof.
  apply (update_paths_events utf_8 (lit ".") (lit "/new/path") sample_root
           (fst (update_paths utf_8 (lit ".") (lit "/new/path") sample_root))
           sample_relocated).
  vm_compute. reflexivity.
Defined.

(** ** How the reinitializer ends *)

Lemma listdir_at_dir n :
  isdir n = true -> listdir_at (Some n) = ([], Ok (listdir n)).
Proof.
  unfold isdir, listdir_at, listdir, dir_entries.
  now destruct (follow n) as [[c|es|tg d]|].
Qed.

Lemma listdir_at_error o :
  isdir_at o = false -> listdir_at o = ([], Raise (listdir_error o)).
Proof.
  unfold listdir_at, listdir_error. destruct o as [n|]; [|reflexivity].
  cbn [isdir_at isfile_at]. unfold isdir, isfile.
  destruct (follow n) as [[c|es|tg d]|] eqn:E; try reflexivity;
    try discriminate.
  now apply follow_not_link in E.
Qed.

Lemma reinitialize_spawn path substitute_python root environ py_ver lib_dir :
  find_lib root = Some py_ver ->
  python_lib (entry (lit "lib") root) py_ver = Some lib_dir ->
  isdir lib_dir = true ->
  reinitialize_virtualenv path substitute_python root environ
  = ([Popen ([lit "virtualenv"; lit "-p"; substitute_python] ++
             site_flags lib_dir ++
             repeat (lit "--distribute")
                    (length (List.filter is_distribute_egg (listdir lib_dir))) ++
             [path])
            (filter_env environ)],
     Ok (None, environ)).
Proof.
  intros Hf Hp Hd. unfold reinitialize_virtualenv.
  destruct (find_lib_entry _ _ Hf) as (n & En & Hn & _).
  rewrite En in *. cbn [isdir_at]. rewrite Hn. cbn [negb].
  rewrite Hf, Hp, (listdir_at_dir _ Hd). cbn [bind ret emit app].
  rewrite distribute_flags_repeat. unfold site_flags, marker.
  destruct (isfile_at _); cbn [negb]; now rewrite <- ?app_assoc.
Qed.

Lemma reinitialize_raise path substitute_python root environ py_ver :
  find_lib root = Some py_ver ->
  isdir_at (python_lib (entry (lit "lib") root) py_ver) = false ->
  reinitialize_virtualenv path substitute_python root environ
  = ([], Raise (listdir_error (python_lib (entry (lit "lib") root) py_ver))).
Proof.
  intros Hf Hd. unfold reinitialize_virtualenv.
  destruct (find_lib_entry _ _ Hf) as (n & En & Hn & _).
  rewrite En in *. cbn [isdir_at]. rewrite Hn. cbn [negb].
  rewrite Hf, (listdir_at_error _ Hd). reflexivity.
Qed.

(** X17.  The four ways the reinitializer ends.  Without a directory [lib/],
    and without a version directory in it, it prints its error and returns
    [False]; nothing is spawned.  When the entry found by its name is no
    directory, [os.listdir] raises ([NotADirectoryError] for a file) before
    anything is spawned.  Otherwise one child is spawned and the function
    returns [None]: it never returns [True]. *)
Theorem reinitialize_outcomes
    (path substitute_python : str) (root : entries) (environ : gmap str str) :
  let lib := entry (lit "lib") root in
  let run := reinitialize_virtualenv path substitute_python root environ in
  (isdir_at lib = false ->
   run = ([Print (lit "error: " ++ path ++
                  lit " is not a virtualenv bin folder")],
          Ok (Some false, environ))) /\
  (isdir_at lib = true -> find_lib root = None ->
   run = ([Print (lit "error: could not detect python version of virtualenv "
                  ++ path)],
          Ok (Some false, environ))) /\
  (forall py_ver, find_lib root = Some py_ver ->
     isdir_at (python_lib lib py_ver) = false ->
     run = ([], Raise (listdir_error (python_lib lib py_ver)))) /\
  (forall py_ver, find_lib root = Some py_ver ->
     isdir_at (python_lib lib py_ver) = true ->
     exists args env, run = ([Popen args env], Ok (None, environ))).
Proof.
  cbv zeta. split; [|split; [|split]].
  - intros Hd. unfold reinitialize_virtualenv. now rewrite Hd.
  - intros Hd Hf. unfold reinitialize_virtualenv. now rewrite Hd, Hf.
  - intros py_ver Hf Hd. now apply reinitialize_raise.
  - intros py_ver Hf Hd.
    destruct (python_lib (entry (lit "lib") root) py_ver) as [lib_dir|] eqn:Hp;
      [|discriminate].
    eexists _, _. now apply (reinitialize_spawn _ _ _ _ py_ver lib_dir).
Qed.

Lemma reinitialize_outcomes_witness :
  reinitialize_virtualenv (lit ".") (lit "/usr/bin/python3") file_as_python_lib ∅
  = ([], Raise NotADirectoryError).
Proof.
  apply (proj1 (proj2 (proj2
           (reinitialize_outcomes (lit ".") (lit "/usr/bin/python3")
              file_as_python_lib ∅))) (lit "python3.9")).
  - reflexivity.
  - reflexivity.
Defined.

Lemma in_flags (flag python path : str) (site : list str) (n : nat) :
  python <> flag -> path <> flag ->
  flag <> lit "virtualenv" -> flag <> lit "-p" -> flag <> lit "--distribute" ->
  In flag ([lit "virtualenv"; lit "-p"; python] ++ site ++
           repeat (lit "--distribute") n ++ [path])
  <-> In flag site.
Proof.
  intros Hp Hpath H1 H2 H3. cbn [app In]. rewrite !in_app_iff. split.
  - intros [E|[E|[E|[H|[H|[E|[]]]]]]]; try congruence.
    apply repeat_spec in H. congruence.
  - auto.
Qed.

(** X18.  The child gets [--system-site-packages] exactly when the version
    directory holds no regular file [no-global-site-packages.txt]. *)
Theorem site_packages_flag
    (path substitute_python : str) (root : entries) (environ : gmap str str)
    (t : list event) (r : result (option bool * gmap str str))
    (args : list str) (env : gmap str str) (lib_dir : node) :
  reinitialize_virtualenv path substitute_python root environ = (t, r) ->
  In (Popen args env) t ->
  versioned_lib root = Some lib_dir ->
  substitute_python <> lit "--system-site-packages" ->
  path <> lit "--system-site-packages" ->
  (In (lit "--system-site-packages") args <->
   isfile_at (marker lib_dir) = false).
Proof.
  intros E Hin Hv Hp Hpath. unfold versioned_lib in Hv.
  destruct (find_lib root) as [py_ver|] eqn:Hf; [|discriminate].
  destruct (isdir lib_dir) eqn:Hd.
  - rewrite (reinitialize_spawn _ _ _ _ _ _ Hf Hv Hd) in E.
    injection E as <- _. destruct Hin as [Hin|[]]. injection Hin as <- _.
    etransitivity; [apply in_flags; (assumption || discriminate)|].
    unfold site_flags. destruct (isfile_at (marker lib_dir)).
    + split; [intros []|discriminate].
    + split; [reflexivity|intros _; now left].
  - assert (Hd' : isdir_at (python_lib (entry (lit "lib") root) py_ver) = false)
      by (now rewrite Hv).
    rewrite (reinitialize_raise _ _ _ _ _ Hf Hd') in E.
    injection E as <- _. destruct Hin.
Qed.

Lemma site_packages_flag_witness :
  In (lit "--system-site-packages")
     [lit "virtualenv"; lit "-p"; lit "/usr/bin/python3";
      lit "--system-site-packages"; lit "."]
  <-> isfile_at (marker (Dir [(lit "site.py", File [])])) = false.
Proof.
  apply (site_packages_flag (lit ".") (lit "/usr/bin/python3") global_env ∅
           [Popen [lit "virtualenv"; lit "-p"; lit "/usr/bin/python3";
                   lit "--system-site-packages"; lit "."]
                  (filter_env ∅)]
           (Ok (None, ∅)) _ (filter_env ∅)).
  - reflexivity.
  - left. reflexivity.
  - reflexivity.
  - discriminate.
  - discriminate.
Defined.

(** ** The child's environment *)

(** X19.  The environment handed to the child is a part of [os.environ];
    filtering what was filtered changes nothing; and the child sees the
    whole of [os.environ] exactly when no variable of it has a name that
    starts with [VIRTUALENV_]. *)
Theorem filter_env_restricts (environ : gmap str str) :
  filter_env environ ⊆ environ /\
  filter_env (filter_env environ) = filter_env environ /\
  (filter_env environ = environ <->
   forall key value, environ !! key = Some value ->
                     startswith key (lit "VIRTUALENV_") = false).
Proof.
  split; [|split].
  - apply map_subseteq_spec. intros key value.
    rewrite filter_env_lookup. now destruct (startswith key _).
  - apply map_eq. intros key. rewrite !filter_env_lookup.
    now destruct (startswith key _).
  - split.
    + intros E key value H. rewrite <- E, filter_env_lookup in H.
      now destruct (startswith key _).
    + intros H. apply map_eq. intros key. rewrite filter_env_lookup.
      destruct (startswith key _) eqn:Es; [|reflexivity].
      destruct (environ !! key) as [value|] eqn:El; [|reflexivity].
      rewrite (H _ _ El) in Es. discriminate.
Qed.

(** ** The command line *)

Lemma main_value child default args root environ t rv root' :
  main child default args root environ = (t, Ok (rv, root')) ->
  (rv = 0%Z \/ rv = 1%Z) /\
  (rv = 1%Z ->
   exists new_path t0 msg,
     update_path args = Some new_path /\ new_path <> [] /\
     t = t0 ++ [Print (lit "Update path: " ++ new_path); Print msg] /\
     update_paths default (lit ".") new_path root'
     = ([Print msg], Ok (false, root'))).
Proof.
  intros H. split.
  - unfold main in H.
    apply bind_inv in H as (t1 & root1 & t2 & _ & H & _).
    destruct (update_path args) as [[|c p]|];
      try (left; unfold ret in H; congruence).
    apply bind_inv in H as (t3 & [] & t4 & _ & H & _).
    apply bind_inv in H as (t5 & [b r] & t6 & _ & H & _).
    injection H as _ <- _. destruct b; auto.
  - intros ->. unfold main in H.
    apply bind_inv in H as (t1 & root1 & t2 & _ & H & ->).
    destruct (update_path args) as [[|c p]|];
      try (unfold ret in H; congruence).
    apply bind_inv in H as (t3 & [] & t4 & Hp & H & ->).
    apply bind_inv in H as (t5 & [b r] & t6 & Hu & H & ->).
    injection Hp as <-. injection H as <- Hb <-. cbn [fst snd] in *.
    destruct b; [discriminate|].
    destruct (update_paths_value _ _ _ _ _ _ _ Hu) as (_ & Hfalse).
    destruct (Hfalse eq_refl) as (-> & msg & ->).
    exists (c :: p), t1, msg. split; [reflexivity|]. split; [discriminate|].
    split; [now rewrite app_nil_r|assumption].
Qed.

(** X20.  Once [parse_args] has returned, the exit status is 0 or 1.  It
    is 0 only when [main] has come to [sys.exit(0)].  It is 1 in two
    cases: an exception has ended the run ([open] or [os.listdir] raised),
    or [--update-path] was given and [update_paths] returned [False], in
    which case the update has printed its error and changed nothing.
    What [reinitialize_virtualenv] returns is not looked at: without
    [--update-path] (or with an empty one) the status is 1 only after an
    exception. *)
Theorem main_exit_status
    (child : list str -> gmap str str -> entries -> entries)
    (default : encoding)
    (args : namespace) (root : entries) (environ : gmap str str)
    (t : list event) (status : Z) :
  script child default args root environ = (t, Some status) ->
  (status = 0%Z \/ status = 1%Z) /\
  (status = 0%Z ->
   exists root', main child default args root environ = (t, Ok (0%Z, root'))) /\
  (status = 1%Z ->
   (exists e, main child default args root environ = (t, Raise e)) \/
   (exists new_path t0 msg root',
      update_path args = Some new_path /\ new_path <> [] /\
      t = t0 ++ [Print (lit "Update path: " ++ new_path); Print msg] /\
      main child default args root environ = (t, Ok (1%Z, root')) /\
      update_paths default (lit ".") new_path root'
      = ([Print msg], Ok (false, root')))) /\
  (~ update_given args -> status = 1%Z ->
   exists e, main child default args root environ = (t, Raise e)).
Proof.
  unfold script.
  destruct (main child default args root environ) as [t0 [[rv root']|e|]] eqn:E;
    [| |discriminate].
  - intros H. injection H as <- <-.
    destruct (main_value _ _ _ _ _ _ _ _ E) as (H01 & H1).
    split; [assumption|]. split; [|split].
    + intros ->. eauto.
    + intros ->. right.
      destruct (H1 eq_refl) as (new_path & t1 & msg & Hu & Hne & Ht & Hp).
      exists new_path, t1, msg, root'. auto.
    + intros Hng ->. exfalso. apply Hng.
      destruct (H1 eq_refl) as (new_path & t1 & msg & Hu & Hne & _).
      unfold update_given. rewrite Hu. now destruct new_path.
  - intros H. injection H as <- <-.
    split; [now right|]. split; [discriminate|]. split; eauto.
Qed.

Lemma main_exit_status_witness :
  (1%Z = 0%Z \/ 1%Z = 1%Z) /\
  (1%Z = 0%Z ->
   exists root',
     main (fun _ _ r => r) utf_8 (mkNamespace None (Some (lit "/new/path")))
       env_with_cache ∅
     = ([Print (lit "Update path: /new/path");
         Print (lit "S ./bin/pip"); Write (lit "./bin/pip")],
        Ok (0%Z, root'))) /\
  (1%Z = 1%Z ->
   (exists e,
      main (fun _ _ r => r) utf_8 (mkNamespace None (Some (lit "/new/path")))
        env_with_cache ∅
      = ([Print (lit "Update path: /new/path");
          Print (lit "S ./bin/pip"); Write (lit "./bin/pip")], Raise e)) \/
   (exists new_path t0 msg root',
      Some (lit "/new/path") = Some new_path /\ new_path <> [] /\
      [Print (lit "Update path: /new/path");
       Print (lit "S ./bin/pip"); Write (lit "./bin/pip")]
      = t0 ++ [Print (lit "Update path: " ++ new_path); Print msg] /\
      main (fun _ _ r => r) utf_8 (mkNamespace None (Some (lit "/new/path")))
        env_with_cache ∅
      = ([Print (lit "Update path: /new/path");
          Print (lit "S ./bin/pip"); Write (lit "./bin/pip")],
         Ok (1%Z, root')) /\
      update_paths utf_8 (lit ".") new_path root'
      = ([Print msg], Ok (false, root')))) /\
  (~ update_given (mkNamespace None (Some (lit "/new/path"))) -> 1%Z = 1%Z ->
   exists e,
     main (fun _ _ r => r) utf_8 (mkNamespace None (Some (lit "/new/path")))
       env_with_cache ∅
     = ([Print (lit "Update path: /new/path");
         Print (lit "S ./bin/pip"); Write (lit "./bin/pip")], Raise e)).
Proof.
  apply (main_exit_status (fun _ _ r => r) utf_8
           (mkNamespace None (Some (lit "/new/path"))) env_with_cache ∅
           [Print (lit "Update path: /new/path");
            Print (lit "S ./bin/pip"); Write (lit "./bin/pip")] 1%Z).
  reflexivity.
Defined.

(** X21.  A reinitialisation that fails does not show in the exit status:
    when [lib/] is no directory and only [--substitute-python] is given, the
    error is printed, no child is spawned, and the status is 0. *)
Theorem main_ignores_reinitialize
    (child : list str -> gmap str str -> entries -> entries)
    (default : encoding) (python : str) (update : option str)
    (root : entries) (environ : gmap str str) :
  python <> [] ->
  match update with Some (_ :: _) => False | _ => True end ->
  isdir_at (entry (lit "lib") root) = false ->
  main child default (mkNamespace (Some python) update) root environ
  = ([Print (lit "error: . is not a virtualenv bin folder")], Ok (0%Z, root)) /\
  script child default (mkNamespace (Some python) update) root environ
  = ([Print (lit "error: . is not a virtualenv bin folder")], Some 0%Z).
Proof.
  intros Hp Hu Hd.
  assert (E : main child default (mkNamespace (Some python) update) root environ
              = ([Print (lit "error: . is not a virtualenv bin folder")],
                 Ok (0%Z, root))).
  { unfold main. cbn [substitute_python update_path].
    destruct python as [|c python]; [contradiction|].
    unfold reinitialize_virtualenv. rewrite Hd.
    cbn [negb bind ret print emit fst]. cbn [spawned fold_left app].
    destruct update as [[|c' p]|]; try contradiction; reflexivity. }
  split; [exact E|]. unfold script. now rewrite E.
Qed.

Lemma main_ignores_reinitialize_witness :
  main (fun _ _ r => r) utf_8
       (mkNamespace (Some (lit "/usr/bin/python3")) (Some []))
       [(lit "bin", Dir [])] ∅
  = ([Print (lit "error: . is not a virtualenv bin folder")],
     Ok (0%Z, [(lit "bin", Dir [])])) /\
  script (fun _ _ r => r) utf_8
       (mkNamespace (Some (lit "/usr/bin/python3")) (Some []))
       [(lit "bin", Dir [])] ∅
  = ([Print (lit "error: . is not a virtualenv bin folder")], Some 0%Z).
Proof.
  apply (main_ignores_reinitialize (fun _ _ r => r) utf_8
           (lit "/usr/bin/python3") (Some []) [(lit "bin", Dir [])] ∅).
  - discriminate.
  - exact I.
  - reflexivity.
Defined.
